(** * Pacman: the movement-resolution and contact engine of [js/game.js]

    A shallow embedding of the simulation core of the game (class
    [GameState] and the update half of class [PacmanGame]) together with the
    chase-target routine of class [Ghost] from [js/ghost.js].

    Numbers.  JavaScript numbers are modelled by exact rationals ([Q]);
    integer-valued counters (score, lives, level, pellet count, grid
    indices, direction codes) are [Z] or [nat].  Every comparison of a
    [Math.sqrt] result is written on the squared quantities, which is the
    same comparison in exact arithmetic.  [Math.random()] reads the next
    value of a tape carried by the game object. *)

From Stdlib Require Import ZArith QArith Qround List String Ascii Bool Lia Lqa.
Import ListNotations.

Local Open Scope Q_scope.

(* ------------------------------------------------------------------ *)
(** ** Arithmetic helpers *)

(** [a < b] on numbers, as a boolean. *)
Definition Qltb (a b : Q) : bool := negb (Qle_bool b a).

(** [Math.sqrt(d2) < r] *)
Definition sqrt_lt (d2 r : Q) : bool := Qltb 0 r && Qltb d2 (r * r).

(** [Math.sqrt(d2) > r], for [d2 >= 0] *)
Definition sqrt_gt (d2 r : Q) : bool := Qltb r 0 || Qltb (r * r) d2.

(** [Math.pow(a, 2)] *)
Definition sq (a : Q) : Q := a * a.

(** [Math.floor(a / b)] *)
Definition floorDiv (a b : Q) : Z := Qfloor (a / b).

(* ------------------------------------------------------------------ *)
(** ** Game constants ([GAME_CONFIG]) *)

Definition GAME_SPEED : Q := 200.
Definition MAX_DELTA_TIME : Q := 1 # 30.
Definition DEFAULT_GRID_SIZE : Q := 19.

(* ------------------------------------------------------------------ *)
(** ** The maze grid *)

(** Cell codes of [gameMap]: 0 empty, 1 wall, 2 pellet, 3 power pellet. *)
Definition Grid := list (list Z).

Definition EMPTY : Z := 0%Z.
Definition WALL : Z := 1%Z.
Definition PELLET : Z := 2%Z.
Definition POWER_PELLET : Z := 3%Z.

Definition ascii_maze : list string :=
  [ "############################";
    "#............##............#";
    "#.####.#####.##.#####.####.#";
    "#o####.#####.##.#####.####o#";
    "#.####.#####.##.#####.####.#";
    "#..........................#";
    "#.####.##.########.##.####.#";
    "#.####.##.########.##.####.#";
    "#......##....##....##......#";
    "######.##### ## #####.######";
    "######.##### ## #####.######";
    "######.##          ##.######";
    "######.## ######## ##.######";
    "######.## #      # ##.######";
    "#............##............#";
    "######.## #      # ##.######";
    "######.## ######## ##.######";
    "######.##          ##.######";
    "######.## ######## ##.######";
    "######.## ######## ##.######";
    "#............##............#";
    "#.####.#####.##.#####.####.#";
    "#.####.#####.##.#####.####.#";
    "#o..##.......  .......##..o#";
    "###.##.##.########.##.##.###";
    "#......##....##....##......#";
    "#.##########.##.##########.#";
    "#..........................#";
    "############################" ]%string.

(** [ch === '#' ? 1 : ch === '.' ? 2 : ch === 'o' ? 3 : 0] *)
Definition cellOfChar (ch : ascii) : Z :=
  if Ascii.eqb ch "#"%char then 1%Z
  else if Ascii.eqb ch "."%char then 2%Z
  else if Ascii.eqb ch "o"%char then 3%Z
  else 0%Z.

(** [createDefaultMap()]: every template row has the width of the first
    one, so filling [map[y][x]] for [x < cols] converts each row whole. *)
Definition createDefaultMap : Grid :=
  map (fun row => map cellOfChar (list_ascii_of_string row)) ascii_maze.

(** [GAME_CONFIG.CLASSIC_COLS] and [CLASSIC_ROWS] as [createDefaultMap]
    leaves them. *)
Definition CLASSIC_ROWS : Z := Z.of_nat (List.length ascii_maze).
Definition CLASSIC_COLS : Z :=
  Z.of_nat (String.length (nth 0 ascii_maze ""%string)).

(** [gameMap[gy][gx]] behind the bounds guard
    [gy >= 0 && gy < map.length && gx >= 0 && gx < map[gy].length]. *)
Definition cellAt (m : Grid) (gx gy : Z) : option Z :=
  if (0 <=? gy)%Z && (0 <=? gx)%Z then
    match nth_error m (Z.to_nat gy) with
    | Some row => nth_error row (Z.to_nat gx)
    | None => None
    end
  else None.

Fixpoint setNth {A} (n : nat) (v : A) (l : list A) : list A :=
  match l, n with
  | [], _ => []
  | _ :: t, O => v :: t
  | h :: t, S k => h :: setNth k v t
  end.

(** [gameMap[gy][gx] = v], used only behind the bounds guard. *)
Definition setCell (m : Grid) (gx gy : Z) (v : Z) : Grid :=
  match nth_error m (Z.to_nat gy) with
  | Some row => setNth (Z.to_nat gy) (setNth (Z.to_nat gx) v row) m
  | None => m
  end.

Definition isPelletCode (c : Z) : bool := (c =? 2)%Z || (c =? 3)%Z.

Definition countRow (row : list Z) : Z :=
  fold_right (fun c acc => if isPelletCode c then (acc + 1)%Z else acc) 0%Z row.

(** The count computed by [countPellets()]. *)
Definition pelletCount (m : Grid) : Z :=
  fold_right (fun row acc => (countRow row + acc)%Z) 0%Z m.

(** [gameMap[y][i] !== 1], true also when the cell is undefined. *)
Definition notWall (c : option Z) : bool :=
  match c with Some v => negb (v =? 1)%Z | None => true end.

Fixpoint tunnelScan (cols : nat) (y : Z) (rows : Grid) : list Z :=
  match rows with
  | [] => []
  | row :: rest =>
      if notWall (nth_error row 0) && notWall (nth_error row (cols - 1))
      then y :: tunnelScan cols (y + 1)%Z rest
      else tunnelScan cols (y + 1)%Z rest
  end.

(** [updateTunnelRows()]: the rows whose two border cells are both open.
    The source reads the column count off the first row
    ([this.gameMap[0].length]), which raises a [TypeError] on a maze
    without rows, and with a first row without cells it tests
    [row[-1]]; the definition is that of the source on a maze whose first
    row exists and has a cell, as the built-in maze, the only one the game
    builds, has. *)
Definition updateTunnelRows (m : Grid) : list Z :=
  tunnelScan (List.length (nth 0 m [])) 0%Z m.

(** [tunnelRows.has(row)] *)
Definition hasRow (rows : list Z) (row : Z) : bool :=
  existsb (Z.eqb row) rows.

(* ------------------------------------------------------------------ *)
(** ** The random source *)

(** [Math.random()] is the only ambient input of a tick: a tape of
    numbers in [0,1) read left to right. *)
Record Tape := mkTape { draws : nat -> Q; cursor : nat }.

Definition Math_random (t : Tape) : Q * Tape :=
  (draws t (cursor t), mkTape (draws t) (S (cursor t))).

(* ------------------------------------------------------------------ *)
(** ** Session state (class [GameState]) *)

Inductive Phase := loading | playing | paused | gameOver | menu.

Module GameState.

(** [gameStartTime] is wall-clock bookkeeping and is left out. *)
Record t := mk {
  current : Phase;
  score : Z;
  level : Z;
  lives : Z;
  pelletsRemaining : Z;
  powerPelletActive : bool;
  powerPelletTimer : Q
}.

Definition constructor : t := mk loading 0 1 3 0 false 0.

Definition reset (s : t) : t := mk playing 0 1 3 0 false 0.

Definition addScore (points : Z) (s : t) : t :=
  mk (current s) (score s + points) (level s) (lives s)
     (pelletsRemaining s) (powerPelletActive s) (powerPelletTimer s).

Definition loseLife (s : t) : t :=
  let l := (lives s - 1)%Z in
  mk (if (l <=? 0)%Z then gameOver else current s)
     (score s) (level s) l
     (pelletsRemaining s) (powerPelletActive s) (powerPelletTimer s).

Definition nextLevel (s : t) : t :=
  mk (current s) (score s) (level s + 1) (lives s)
     (pelletsRemaining s) (powerPelletActive s) (powerPelletTimer s).

Definition with_current (c : Phase) (s : t) : t :=
  mk c (score s) (level s) (lives s)
     (pelletsRemaining s) (powerPelletActive s) (powerPelletTimer s).

Definition with_pelletsRemaining (n : Z) (s : t) : t :=
  mk (current s) (score s) (level s) (lives s)
     n (powerPelletActive s) (powerPelletTimer s).

Definition with_power (a : bool) (timer : Q) (s : t) : t :=
  mk (current s) (score s) (level s) (lives s)
     (pelletsRemaining s) a timer.

End GameState.

(* ------------------------------------------------------------------ *)
(** ** Agents *)

(** Direction codes: 0 right, 1 down, 2 left, 3 up. *)
Definition directions : list (Q * Q) :=
  [ (1, 0); (0, 1); (-1 # 1, 0); (0, -1 # 1) ].

(** [directions[d]]; every heading the code stores is one of 0..3. *)
Definition dirVec (d : nat) : Q * Q := nth d directions (0, 0).

(** [(d + 2) % 4] *)
Definition reverseDir (d : nat) : nat := ((d + 2) mod 4)%nat.

Module Pacman.

(** [targetDirection], [vx] and [vy] are written once and never read;
    they are left out. *)
Record t := mk {
  x : Q;
  y : Q;
  size : Q;
  speed : Q;
  direction : nat;
  mouthOpen : Q;
  mouthDirection : Q;
  gridX : Z;
  gridY : Z
}.

Definition with_xy (nx ny : Q) (p : t) : t :=
  mk nx ny (size p) (speed p) (direction p)
     (mouthOpen p) (mouthDirection p) (gridX p) (gridY p).

End Pacman.

Inductive Mode := scatter | chase | frightened | dead.
Inductive Personality := aggressive | ambush | patrol | random.
Inductive GhostName := Blinky | Pinky | Inky | Clyde.

Definition Mode_eqb (a b : Mode) : bool :=
  match a, b with
  | scatter, scatter | chase, chase
  | frightened, frightened | dead, dead => true
  | _, _ => false
  end.

Module Ghost.

(** The pursuer objects built by [initializeGameObjects].  The three
    timers that the code creates lazily are [None] until first written
    ([undefined] in the source).  [color] is rendering data. *)
Record t := mk {
  x : Q;
  y : Q;
  size : Q;
  speed : Q;
  name : GhostName;
  personality : Personality;
  direction : nat;
  mode : Mode;
  gridX : Z;
  gridY : Z;
  modeTimer : Q;
  inGhostHouse : bool;
  scatterTimer : option Q;
  chaseTimer : option Q;
  lastDirectionUpdate : option Q
}.

Definition with_xy (nx ny : Q) (g : t) : t :=
  mk nx ny (size g) (speed g) (name g) (personality g) (direction g)
     (mode g) (gridX g) (gridY g) (modeTimer g) (inGhostHouse g)
     (scatterTimer g) (chaseTimer g) (lastDirectionUpdate g).

Definition with_grid (gx gy : Z) (g : t) : t :=
  mk (x g) (y g) (size g) (speed g) (name g) (personality g) (direction g)
     (mode g) gx gy (modeTimer g) (inGhostHouse g)
     (scatterTimer g) (chaseTimer g) (lastDirectionUpdate g).

Definition with_speed (v : Q) (g : t) : t :=
  mk (x g) (y g) (size g) v (name g) (personality g) (direction g)
     (mode g) (gridX g) (gridY g) (modeTimer g) (inGhostHouse g)
     (scatterTimer g) (chaseTimer g) (lastDirectionUpdate g).

Definition with_direction (d : nat) (g : t) : t :=
  mk (x g) (y g) (size g) (speed g) (name g) (personality g) d
     (mode g) (gridX g) (gridY g) (modeTimer g) (inGhostHouse g)
     (scatterTimer g) (chaseTimer g) (lastDirectionUpdate g).

Definition with_mode (m : Mode) (g : t) : t :=
  mk (x g) (y g) (size g) (speed g) (name g) (personality g) (direction g)
     m (gridX g) (gridY g) (modeTimer g) (inGhostHouse g)
     (scatterTimer g) (chaseTimer g) (lastDirectionUpdate g).

Definition with_modeTimer (v : Q) (g : t) : t :=
  mk (x g) (y g) (size g) (speed g) (name g) (personality g) (direction g)
     (mode g) (gridX g) (gridY g) v (inGhostHouse g)
     (scatterTimer g) (chaseTimer g) (lastDirectionUpdate g).

Definition with_inGhostHouse (b : bool) (g : t) : t :=
  mk (x g) (y g) (size g) (speed g) (name g) (personality g) (direction g)
     (mode g) (gridX g) (gridY g) (modeTimer g) b
     (scatterTimer g) (chaseTimer g) (lastDirectionUpdate g).

Definition with_scatterTimer (v : option Q) (g : t) : t :=
  mk (x g) (y g) (size g) (speed g) (name g) (personality g) (direction g)
     (mode g) (gridX g) (gridY g) (modeTimer g) (inGhostHouse g)
     v (chaseTimer g) (lastDirectionUpdate g).

Definition with_chaseTimer (v : option Q) (g : t) : t :=
  mk (x g) (y g) (size g) (speed g) (name g) (personality g) (direction g)
     (mode g) (gridX g) (gridY g) (modeTimer g) (inGhostHouse g)
     (scatterTimer g) v (lastDirectionUpdate g).

Definition with_lastDirectionUpdate (v : option Q) (g : t) : t :=
  mk (x g) (y g) (size g) (speed g) (name g) (personality g) (direction g)
     (mode g) (gridX g) (gridY g) (modeTimer g) (inGhostHouse g)
     (scatterTimer g) (chaseTimer g) v.

End Ghost.

Record Keys := mkKeys {
  key_up : bool; key_down : bool; key_left : bool; key_right : bool;
  key_space : bool
}.

(** The fields of a [PacmanGame] object that the simulation reads or
    writes.  [GRID_SIZE] is the one entry of [GAME_CONFIG] that changes at
    run time (the viewport fit), so it travels with the game; [rng] is the
    tape behind [Math.random()]. *)
Record PacmanGame := mkGame {
  state : GameState.t;
  pacman : Pacman.t;
  ghosts : list Ghost.t;
  gameMap : Grid;
  tunnelRows : list Z;
  keys : Keys;
  GRID_SIZE : Q;
  rng : Tape
}.

Definition with_state (s : GameState.t) (G : PacmanGame) : PacmanGame :=
  mkGame s (pacman G) (ghosts G) (gameMap G) (tunnelRows G) (keys G)
         (GRID_SIZE G) (rng G).

Definition with_pacman (p : Pacman.t) (G : PacmanGame) : PacmanGame :=
  mkGame (state G) p (ghosts G) (gameMap G) (tunnelRows G) (keys G)
         (GRID_SIZE G) (rng G).

Definition with_ghosts (gl : list Ghost.t) (G : PacmanGame) : PacmanGame :=
  mkGame (state G) (pacman G) gl (gameMap G) (tunnelRows G) (keys G)
         (GRID_SIZE G) (rng G).

Definition with_gameMap (m : Grid) (G : PacmanGame) : PacmanGame :=
  mkGame (state G) (pacman G) (ghosts G) m (tunnelRows G) (keys G)
         (GRID_SIZE G) (rng G).

Definition with_tunnelRows (r : list Z) (G : PacmanGame) : PacmanGame :=
  mkGame (state G) (pacman G) (ghosts G) (gameMap G) r (keys G)
         (GRID_SIZE G) (rng G).

Definition with_keys (k : Keys) (G : PacmanGame) : PacmanGame :=
  mkGame (state G) (pacman G) (ghosts G) (gameMap G) (tunnelRows G) k
         (GRID_SIZE G) (rng G).

Definition with_rng (t : Tape) (G : PacmanGame) : PacmanGame :=
  mkGame (state G) (pacman G) (ghosts G) (gameMap G) (tunnelRows G) (keys G)
         (GRID_SIZE G) t.

Definition with_GRID_SIZE (gs : Q) (G : PacmanGame) : PacmanGame :=
  mkGame (state G) (pacman G) (ghosts G) (gameMap G) (tunnelRows G) (keys G)
         gs (rng G).

(** [GAME_CONFIG.CANVAS_WIDTH] and [CANVAS_HEIGHT] (getters). *)
Definition CANVAS_WIDTH (G : PacmanGame) : Q := inject_Z CLASSIC_COLS * GRID_SIZE G.
Definition CANVAS_HEIGHT (G : PacmanGame) : Q := inject_Z CLASSIC_ROWS * GRID_SIZE G.

(** [this.gameMap[0].length] as a number. *)
Definition mapCols (G : PacmanGame) : Q :=
  inject_Z (Z.of_nat (List.length (nth 0 (gameMap G) []))).

(* ------------------------------------------------------------------ *)
(** ** Motion resolver *)

(** [isValidPosition(x, y, size)]: inside the canvas with the body
    margin, and the centre not on a wall cell. *)
Definition isValidPosition (G : PacmanGame) (x y size : Q) : bool :=
  if Qltb (x - size) 0 || Qltb (CANVAS_WIDTH G) (x + size) ||
     Qltb (y - size) 0 || Qltb (CANVAS_HEIGHT G) (y + size)
  then false
  else
    let gridX := floorDiv x (GRID_SIZE G) in
    let gridY := floorDiv y (GRID_SIZE G) in
    match cellAt (gameMap G) gridX gridY with
    | Some c => negb (c =? 1)%Z
    | None => true
    end.

(** The heading requested by the held keys; the four tests run in the
    order up, down, left, right and the last one that holds wins. *)
Definition requestedDirection (k : Keys) (d : nat) : nat :=
  let d := if key_up k then 3%nat else d in
  let d := if key_down k then 1%nat else d in
  let d := if key_left k then 2%nat else d in
  if key_right k then 0%nat else d.

(** The side-tunnel branch of [updatePacman]: [Some (x, y)] is the
    position the protagonist is wrapped to when the branch is taken. *)
Definition pacmanTunnelWrap (G : PacmanGame) (newDirection : nat)
  : option (Q * Q) :=
  let p := pacman G in
  let gs := GRID_SIZE G in
  let cols := mapCols G in
  let row := floorDiv (Pacman.y p) gs in
  let dx := fst (dirVec newDirection) in
  if hasRow (tunnelRows G) row then
    if Qltb dx 0 && Qle_bool (Pacman.x p - Pacman.size p) 0 then
      Some ((cols - 1 + (1 # 2)) * gs, (inject_Z row + (1 # 2)) * gs)
    else if Qltb 0 dx && Qle_bool (cols * gs) (Pacman.x p + Pacman.size p) then
      Some ((1 # 2) * gs, (inject_Z row + (1 # 2)) * gs)
    else None
  else None.

(** The mouth animation that accompanies an accepted step. *)
Definition animateMouth (p : Pacman.t) : Q * Q :=
  let m := Pacman.mouthOpen p + Pacman.mouthDirection p * (15 # 100) in
  if Qle_bool 1 m then (1, -1 # 1)
  else if Qle_bool m 0 then (0, 1)
  else (m, Pacman.mouthDirection p).

(** [updatePacman(deltaTime)] *)
Definition updatePacman (deltaTime : Q) (G : PacmanGame) : PacmanGame :=
  let p := pacman G in
  let gs := GRID_SIZE G in
  let newDirection := requestedDirection (keys G) (Pacman.direction p) in
  let dir := dirVec newDirection in
  let newX := Pacman.x p + fst dir * Pacman.speed p * deltaTime in
  let newY := Pacman.y p + snd dir * Pacman.speed p * deltaTime in
  match pacmanTunnelWrap G newDirection with
  | Some (wx, wy) =>
      with_pacman
        (Pacman.mk wx wy (Pacman.size p) (Pacman.speed p) newDirection
           (Pacman.mouthOpen p) (Pacman.mouthDirection p)
           (floorDiv wx gs) (floorDiv (Pacman.y p) gs)) G
  | None =>
      if isValidPosition G newX newY (Pacman.size p) then
        let '(mo, md) := animateMouth p in
        with_pacman
          (Pacman.mk newX newY (Pacman.size p) (Pacman.speed p) newDirection
             mo md (floorDiv newX gs) (floorDiv newY gs)) G
      else G
  end.

(* ------------------------------------------------------------------ *)
(** ** Target selection *)

(** The [corners] table of [getGhostTarget]. *)
Definition corners (G : PacmanGame) (n : GhostName) : Q * Q :=
  match n with
  | Blinky => (CANVAS_WIDTH G - 40, 40)
  | Pinky => (40, 40)
  | Inky => (CANVAS_WIDTH G - 40, CANVAS_HEIGHT G - 40)
  | Clyde => (40, CANVAS_HEIGHT G - 40)
  end.

(** A uniformly drawn canvas point: [x] is drawn before [y]. *)
Definition randomPoint (G : PacmanGame) (t : Tape) : (Q * Q) * Tape :=
  let '(rx, t1) := Math_random t in
  let '(ry, t2) := Math_random t1 in
  ((rx * CANVAS_WIDTH G, ry * CANVAS_HEIGHT G), t2).

(** Squared distance between the protagonist and a pursuer. *)
Definition dist2ToPacman (G : PacmanGame) (ghost : Ghost.t) : Q :=
  sq (Pacman.x (pacman G) - Ghost.x ghost) +
  sq (Pacman.y (pacman G) - Ghost.y ghost).

(** The four-tile look-ahead table of the ambush case. *)
Definition aheadOffsets (G : PacmanGame) : list (Q * Q) :=
  [ (4 * GRID_SIZE G, 0); (0, 4 * GRID_SIZE G);
    ((-4 # 1) * GRID_SIZE G, 0); (0, (-4 # 1) * GRID_SIZE G) ].

(** [getGhostTarget(ghost)] *)
Definition getGhostTarget (G : PacmanGame) (t : Tape) (ghost : Ghost.t)
  : (Q * Q) * Tape :=
  let p := pacman G in
  let here := (Pacman.x p, Pacman.y p) in
  match Ghost.mode ghost with
  | frightened => randomPoint G t
  | scatter => (corners G (Ghost.name ghost), t)
  | _ =>
      match Ghost.personality ghost with
      | aggressive => (here, t)
      | ambush =>
          let d := nth (Pacman.direction p) (aheadOffsets G) (0, 0) in
          ((Pacman.x p + fst d, Pacman.y p + snd d), t)
      | patrol =>
          if sqrt_gt (dist2ToPacman G ghost) (8 * GRID_SIZE G)
          then (here, t)
          else ((40, CANVAS_HEIGHT G - 40), t)
      | random =>
          let '(r, t1) := Math_random t in
          if Qltb r (7 # 10) then (here, t1) else randomPoint G t1
      end
  end.

(* ------------------------------------------------------------------ *)
(** ** Heading re-selection *)

(** [distance < bestDistance] where [None] stands for [Infinity]; both
    sides are square roots, compared through their squares. *)
Definition closer (d2 : Q) (best : option Q) : bool :=
  match best with
  | None => true
  | Some b2 => Qltb d2 b2
  end.

(** The look-ahead point tested for heading [d]: a tenth of a second
    of travel. *)
Definition probe (ghost : Ghost.t) (d : nat) : Q * Q :=
  let v := dirVec d in
  (Ghost.x ghost + fst v * Ghost.speed ghost * (1 # 10),
   Ghost.y ghost + snd v * Ghost.speed ghost * (1 # 10)).

Definition probeValid (G : PacmanGame) (ghost : Ghost.t) (d : nat) : bool :=
  isValidPosition G (fst (probe ghost d)) (snd (probe ghost d)) (Ghost.size ghost).

(** Squared distance from the look-ahead point of heading [d] to the
    target. *)
Definition probeDist2 (ghost : Ghost.t) (target : Q * Q) (d : nat) : Q :=
  sq (fst target - fst (probe ghost d)) + sq (snd target - snd (probe ghost d)).

(** The running best of the [forEach] in [chooseGhostDirection]. *)
Record Best := mkBest {
  bestDirection : nat;
  bestDistance : option Q;
  bestTape : Tape
}.

(** One iteration of the [forEach]: the reverse of the current heading
    is skipped when its draw exceeds 0.2 (the draw is made for that
    heading only); a heading whose look-ahead point is valid replaces the
    best when strictly closer. *)
Definition considerDirection (G : PacmanGame) (ghost : Ghost.t)
    (target : Q * Q) (b : Best) (d : nat) : Best :=
  let '(skip, t) :=
    if (d =? reverseDir (Ghost.direction ghost))%nat then
      let '(r, t1) := Math_random (bestTape b) in (Qltb (2 # 10) r, t1)
    else (false, bestTape b) in
  if skip then mkBest (bestDirection b) (bestDistance b) t
  else if probeValid G ghost d then
    let distance := probeDist2 ghost target d in
    if closer distance (bestDistance b)
    then mkBest d (Some distance) t
    else mkBest (bestDirection b) (bestDistance b) t
  else mkBest (bestDirection b) (bestDistance b) t.

(** [chooseGhostDirection(ghost, target = null)] *)
Definition chooseGhostDirection (G : PacmanGame) (t : Tape) (ghost : Ghost.t)
    (target : option (Q * Q)) : Ghost.t * Tape :=
  let '(tgt, t0) :=
    match target with
    | Some p => (p, t)
    | None => getGhostTarget G t ghost
    end in
  let b := fold_left (considerDirection G ghost tgt) [0; 1; 2; 3]%nat
             (mkBest (Ghost.direction ghost) None t0) in
  (Ghost.with_direction (bestDirection b) ghost, bestTape b).

(* ------------------------------------------------------------------ *)
(** ** Mode schedule and pursuer motion *)

(** The value a lazily created timer has once [if (!timer) timer = dflt]
    has run: [dflt] when the timer is unset or zero. *)
Definition timerValue (v : option Q) (dflt : Q) : Q :=
  match v with
  | Some q => if Qeq_bool q 0 then dflt else q
  | None => dflt
  end.

(** The scatter/chase switch of [updateGhostAI]. *)
Definition scheduleStep (deltaTime : Q) (ghost : Ghost.t) : Ghost.t :=
  match Ghost.mode ghost with
  | scatter =>
      let st := timerValue (Ghost.scatterTimer ghost) 7 - deltaTime in
      let g1 := Ghost.with_scatterTimer (Some st) ghost in
      if Qle_bool st 0
      then Ghost.with_chaseTimer (Some 20) (Ghost.with_mode chase g1)
      else g1
  | chase =>
      let ct := timerValue (Ghost.chaseTimer ghost) 20 - deltaTime in
      let g1 := Ghost.with_chaseTimer (Some ct) ghost in
      if Qle_bool ct 0
      then Ghost.with_scatterTimer (Some 7) (Ghost.with_mode scatter g1)
      else g1
  | _ => ghost
  end.

(** [updateGhostAI(ghost, deltaTime)]: the target is computed first, on
    the mode the pursuer had when the call began. *)
Definition updateGhostAI (G : PacmanGame) (t : Tape) (deltaTime : Q)
    (ghost : Ghost.t) : Ghost.t * Tape :=
  let '(target, t1) := getGhostTarget G t ghost in
  let g1 := scheduleStep deltaTime ghost in
  let ldu := timerValue (Ghost.lastDirectionUpdate g1) 0 + deltaTime in
  if Qltb (5 # 10) ldu then
    chooseGhostDirection G t1 (Ghost.with_lastDirectionUpdate (Some 0) g1)
      (Some target)
  else (Ghost.with_lastDirectionUpdate (Some ldu) g1, t1).

(** The ghost-house release at the head of the [forEach] body. *)
Definition houseExit (G : PacmanGame) (deltaTime : Q) (ghost : Ghost.t)
  : Ghost.t :=
  let g1 := Ghost.with_modeTimer (Ghost.modeTimer ghost - deltaTime) ghost in
  if Ghost.inGhostHouse g1 && Qle_bool (Ghost.modeTimer g1) 0 then
    Ghost.with_mode scatter
      (Ghost.with_direction 3%nat
         (Ghost.with_xy (Ghost.x g1) (GRID_SIZE G * (115 # 10))
            (Ghost.with_inGhostHouse false g1)))
  else g1.

(** The candidate position of a pursuer for this tick. *)
Definition ghostCandidate (deltaTime : Q) (ghost : Ghost.t) : Q * Q :=
  let dir := dirVec (Ghost.direction ghost) in
  (Ghost.x ghost + fst dir * Ghost.speed ghost * deltaTime,
   Ghost.y ghost + snd dir * Ghost.speed ghost * deltaTime).

(** The tunnel branch of [updateGhosts]: [Some x] is the abscissa the
    pursuer is wrapped to when the branch is taken. *)
Definition ghostTunnelWrap (G : PacmanGame) (deltaTime : Q) (ghost : Ghost.t)
  : option Q :=
  let gs := GRID_SIZE G in
  let cols := mapCols G in
  let newX := fst (ghostCandidate deltaTime ghost) in
  let row := floorDiv (Ghost.y ghost) gs in
  if hasRow (tunnelRows G) row then
    if Qltb newX (- gs) && (Ghost.direction ghost =? 2)%nat then
      Some (cols * gs + gs)
    else if Qltb (cols * gs + gs) newX && (Ghost.direction ghost =? 0)%nat then
      Some (- gs)
    else None
  else None.

(** The movement half of the [forEach] body: tunnel wrap first, then an
    accepted step, else re-selection of the heading. *)
Definition moveGhost (G : PacmanGame) (t : Tape) (deltaTime : Q)
    (ghost : Ghost.t) : Ghost.t * Tape :=
  let '(newX, newY) := ghostCandidate deltaTime ghost in
  match ghostTunnelWrap G deltaTime ghost with
  | Some wx => (Ghost.with_xy wx (Ghost.y ghost) ghost, t)
  | None =>
      if isValidPosition G newX newY (Ghost.size ghost) then
        (Ghost.with_grid (floorDiv newX (GRID_SIZE G))
                         (floorDiv newY (GRID_SIZE G))
           (Ghost.with_xy newX newY ghost), t)
      else chooseGhostDirection G t ghost None
  end.

(** The body of the [forEach] in [updateGhosts]. *)
Definition updateGhost (G : PacmanGame) (t : Tape) (deltaTime : Q)
    (ghost : Ghost.t) : Ghost.t * Tape :=
  let g1 := houseExit G deltaTime ghost in
  if Ghost.inGhostHouse g1 then (g1, t)
  else
    let '(g2, t1) := updateGhostAI G t deltaTime g1 in
    moveGhost G t1 deltaTime g2.

Fixpoint updateGhostList (G : PacmanGame) (t : Tape) (deltaTime : Q)
    (gl : list Ghost.t) : list Ghost.t * Tape :=
  match gl with
  | [] => ([], t)
  | ghost :: rest =>
      let '(g', t1) := updateGhost G t deltaTime ghost in
      let '(rest', t2) := updateGhostList G t1 deltaTime rest in
      (g' :: rest', t2)
  end.

(** [updateGhosts(deltaTime)]: a pursuer's update reads the maze and the
    protagonist, never another pursuer. *)
Definition updateGhosts (deltaTime : Q) (G : PacmanGame) : PacmanGame :=
  let '(gl, t) := updateGhostList G (rng G) deltaTime (ghosts G) in
  with_rng t (with_ghosts gl G).

(* ------------------------------------------------------------------ *)
(** ** Contact arbiter and pellet consumption *)

(** [resetPositions()]: the index of a pursuer fixes its place. *)
Fixpoint resetGhosts (gs : Q) (index : Z) (gl : list Ghost.t) : list Ghost.t :=
  match gl with
  | [] => []
  | ghost :: rest =>
      Ghost.with_xy (gs * (5 + inject_Z index)) (gs * 5) ghost
        :: resetGhosts gs (index + 1)%Z rest
  end.

Definition resetPositions (G : PacmanGame) : PacmanGame :=
  let gs := GRID_SIZE G in
  with_ghosts (resetGhosts gs 0%Z (ghosts G))
    (with_pacman (Pacman.with_xy (gs * (15 # 10)) (gs * (15 # 10)) (pacman G)) G).

(** The effect of a power pellet on one pursuer. *)
Definition frighten (ghost : Ghost.t) : Ghost.t :=
  if negb (Ghost.inGhostHouse ghost) && negb (Mode_eqb (Ghost.mode ghost) dead)
  then
    Ghost.with_direction (reverseDir (Ghost.direction ghost))
      (Ghost.with_speed (GAME_SPEED * (6 # 10))
         (Ghost.with_mode frightened ghost))
  else ghost.

(** The grid cell under the protagonist's centre. *)
Definition pacmanCell (G : PacmanGame) : Z * Z :=
  (floorDiv (Pacman.x (pacman G)) (GRID_SIZE G),
   floorDiv (Pacman.y (pacman G)) (GRID_SIZE G)).

(** First half of [checkCollisions()]: pellet collection. *)
Definition collectPellet (G : PacmanGame) : PacmanGame :=
  let '(gridX, gridY) := pacmanCell G in
  let s := state G in
  match cellAt (gameMap G) gridX gridY with
  | Some c =>
      if (c =? 2)%Z then
        with_state
          (GameState.with_pelletsRemaining
             (GameState.pelletsRemaining s - 1)%Z (GameState.addScore 10 s))
          (with_gameMap (setCell (gameMap G) gridX gridY 0%Z) G)
      else if (c =? 3)%Z then
        with_ghosts (map frighten (ghosts G))
          (with_state
             (GameState.with_power true 8
                (GameState.with_pelletsRemaining
                   (GameState.pelletsRemaining s - 1)%Z
                   (GameState.addScore 50 s)))
             (with_gameMap (setCell (gameMap G) gridX gridY 0%Z) G))
      else G
  | None => G
  end.

(** [distance < pacman.size + ghost.size] *)
Definition inContact (G : PacmanGame) (ghost : Ghost.t) : bool :=
  sqrt_lt (dist2ToPacman G ghost) (Pacman.size (pacman G) + Ghost.size ghost).

(** One iteration of the pursuer loop of [checkCollisions()], on the
    pursuer at [index] of the shared array. *)
Definition collideGhost (index : nat) (G : PacmanGame) : PacmanGame :=
  match nth_error (ghosts G) index with
  | Some ghost =>
      if inContact G ghost then
        if GameState.powerPelletActive (state G) then
          with_ghosts
            (setNth index
               (Ghost.with_xy (GRID_SIZE G * 5) (GRID_SIZE G * 5) ghost)
               (ghosts G))
            (with_state (GameState.addScore 200 (state G)) G)
        else
          resetPositions (with_state (GameState.loseLife (state G)) G)
      else G
  | None => G
  end.

(** Second half of [checkCollisions()]. *)
Definition ghostCollisions (G : PacmanGame) : PacmanGame :=
  fold_left (fun acc index => collideGhost index acc)
            (seq 0 (List.length (ghosts G))) G.

Definition checkCollisions (G : PacmanGame) : PacmanGame :=
  ghostCollisions (collectPellet G).

(* ------------------------------------------------------------------ *)
(** ** Session controller *)

(** End of the power window for one pursuer. *)
Definition calm (ghost : Ghost.t) : Ghost.t :=
  match Ghost.mode ghost with
  | frightened =>
      Ghost.with_scatterTimer (Some 3)
        (Ghost.with_speed (GAME_SPEED * (8 # 10))
           (Ghost.with_mode scatter ghost))
  | _ => ghost
  end.

(** The power-pellet countdown inside [update], in exact arithmetic: a
    countdown by steps that are not exact in binary, such as 1/30, may
    in the source reach 0 one frame later than here. *)
Definition powerTimerStep (deltaTime : Q) (G : PacmanGame) : PacmanGame :=
  let s := state G in
  if GameState.powerPelletActive s then
    let timer := GameState.powerPelletTimer s - deltaTime in
    if Qle_bool timer 0 then
      with_ghosts (map calm (ghosts G))
        (with_state (GameState.with_power false timer s) G)
    else with_state (GameState.with_power true timer s) G
  else G.

(** [countPellets()] *)
Definition countPellets (G : PacmanGame) : PacmanGame :=
  with_state
    (GameState.with_pelletsRemaining (pelletCount (gameMap G)) (state G)) G.

(** [nextLevel()] *)
Definition nextLevel (G : PacmanGame) : PacmanGame :=
  let G1 := with_state (GameState.nextLevel (state G)) G in
  let G2 := with_gameMap createDefaultMap G1 in
  let G3 := countPellets G2 in
  let G4 := with_tunnelRows (updateTunnelRows (gameMap G3)) G3 in
  resetPositions G4.

(** [update(deltaTime)]; the particle list plays no part in the state. *)
Definition update (deltaTime : Q) (G : PacmanGame) : PacmanGame :=
  let G1 := updatePacman deltaTime G in
  let G2 := updateGhosts deltaTime G1 in
  let G3 := powerTimerStep deltaTime G2 in
  let G4 := checkCollisions G3 in
  if (GameState.pelletsRemaining (state G4) <=? 0)%Z then nextLevel G4 else G4.

(** [initializeGameObjects()] *)
Definition initializeGameObjects (G : PacmanGame) : PacmanGame :=
  let gs := GRID_SIZE G in
  let cols := Z.of_nat (List.length (nth 0 (gameMap G) [])) in
  let rows := Z.of_nat (List.length (gameMap G)) in
  let startGX := (cols / 2)%Z in
  let startGY := (rows - 2)%Z in
  let hx := inject_Z (cols / 2) + (1 # 2) in
  let hy := inject_Z (rows / 2) + (1 # 2) in
  let body := gs * (4 # 10) in
  let v := GAME_SPEED * (8 # 10) in
  let mkGhost gx gy n pers d timer housed :=
    Ghost.mk (gs * gx) (gs * gy) body v n pers d scatter
             (Qfloor gx) (Qfloor gy) timer housed None None None in
  countPellets
    (with_ghosts
       [ mkGhost hx (hy - 1) Blinky aggressive 3%nat 0 false;
         mkGhost (hx - 1) hy Pinky ambush 0%nat 2 true;
         mkGhost hx hy Inky patrol 2%nat 4 true;
         mkGhost (hx + 1) hy Clyde random 2%nat 6 true ]
       (with_pacman
          (Pacman.mk (gs * (inject_Z startGX + (1 # 2)))
                     (gs * (inject_Z startGY + (1 # 2)))
                     body GAME_SPEED 2%nat 0 1 startGX startGY) G)).

(** [restart()] *)
Definition restart (G : PacmanGame) : PacmanGame :=
  let G1 := with_state (GameState.reset (state G)) G in
  let G2 := with_gameMap createDefaultMap G1 in
  let G3 := initializeGameObjects G2 in
  let G4 := countPellets G3 in
  with_tunnelRows (updateTunnelRows (gameMap G4)) G4.

(** [togglePause()] *)
Definition togglePause (G : PacmanGame) : PacmanGame :=
  match GameState.current (state G) with
  | playing => with_state (GameState.with_current paused (state G)) G
  | paused => with_state (GameState.with_current playing (state G)) G
  | _ => G
  end.

Definition noKeys : Keys := mkKeys false false false false false.

(** [handleKeyDown(event)], on [event.key]. *)
Definition handleKeyDown (key : string) (G : PacmanGame) : PacmanGame :=
  let k := keys G in
  if String.eqb key "ArrowUp" then
    with_keys (mkKeys true (key_down k) (key_left k) (key_right k) (key_space k)) G
  else if String.eqb key "ArrowDown" then
    with_keys (mkKeys (key_up k) true (key_left k) (key_right k) (key_space k)) G
  else if String.eqb key "ArrowLeft" then
    with_keys (mkKeys (key_up k) (key_down k) true (key_right k) (key_space k)) G
  else if String.eqb key "ArrowRight" then
    with_keys (mkKeys (key_up k) (key_down k) (key_left k) true (key_space k)) G
  else if String.eqb key " " then
    togglePause
      (with_keys (mkKeys (key_up k) (key_down k) (key_left k) (key_right k) true) G)
  else if String.eqb key "r" || String.eqb key "R" then
    match GameState.current (state G) with
    | gameOver => restart G
    | _ => G
    end
  else G.

(** The game object at the point where [start()], the last call of
    [init()], has set the phase to playing and is about to run the first
    frame, for a viewport that yields grid size [gs].  [start()] then
    calls [gameLoop] with no time elapsed: the state in which the
    constructor returns is [run [Frame 0] (newGame gs t)], the one in which
    the first frame has already run (and has eaten the pellet under the
    protagonist). *)
Definition newGame (gs : Q) (t : Tape) : PacmanGame :=
  let G0 := mkGame GameState.constructor
              (Pacman.mk 0 0 0 0 0%nat 0 0 0%Z 0%Z) []
              createDefaultMap [] noKeys gs t in
  let G1 := initializeGameObjects G0 in
  let G2 := with_tunnelRows (updateTunnelRows (gameMap G1)) G1 in
  with_state (GameState.with_current playing (state G2)) G2.

(** The simulation half of [gameLoop]: the elapsed time is capped and
    only the playing phase advances the state. *)
Definition gameLoop (elapsed : Q) (G : PacmanGame) : PacmanGame :=
  let deltaTime :=
    if Qle_bool elapsed MAX_DELTA_TIME then elapsed else MAX_DELTA_TIME in
  match GameState.current (state G) with
  | playing => update deltaTime G
  | _ => G
  end.

(** [handleKeyUp(event)] *)
Definition handleKeyUp (key : string) (G : PacmanGame) : PacmanGame :=
  let k := keys G in
  if String.eqb key "ArrowUp" then
    with_keys (mkKeys false (key_down k) (key_left k) (key_right k) (key_space k)) G
  else if String.eqb key "ArrowDown" then
    with_keys (mkKeys (key_up k) false (key_left k) (key_right k) (key_space k)) G
  else if String.eqb key "ArrowLeft" then
    with_keys (mkKeys (key_up k) (key_down k) false (key_right k) (key_space k)) G
  else if String.eqb key "ArrowRight" then
    with_keys (mkKeys (key_up k) (key_down k) (key_left k) false (key_space k)) G
  else if String.eqb key " " then
    with_keys (mkKeys (key_up k) (key_down k) (key_left k) (key_right k) false) G
  else G.

(** [applyDirection(dir)]: a swipe replaces the held arrow. *)
Definition applyDirection (dir : string) (G : PacmanGame) : PacmanGame :=
  with_keys
    (mkKeys (String.eqb dir "up") (String.eqb dir "down")
            (String.eqb dir "left") (String.eqb dir "right")
            (key_space (keys G))) G.

(** [resizeToViewport(false)] for a window of [vw] by [vh] pixels: the
    grid size is refitted (never below 12) and every agent is put back on
    the centre of its recorded cell. *)
Definition resizeToViewport (vw vh : Z) (G : PacmanGame) : PacmanGame :=
  let cols := Z.of_nat (List.length (nth 0 (gameMap G) [])) in
  let rows := Z.of_nat (List.length (gameMap G)) in
  let gridW := ((vw - 20) / cols)%Z in
  let gridH := ((vh - 150) / rows)%Z in
  let gs := inject_Z (Z.max 12 (Z.min gridW gridH)) in
  let p := pacman G in
  let centre (c : Z) := (inject_Z c + (1 # 2)) * gs in
  with_ghosts
    (map (fun g => Ghost.with_xy (centre (Ghost.gridX g)) (centre (Ghost.gridY g)) g)
         (ghosts G))
    (with_pacman
       (Pacman.with_xy (centre (Pacman.gridX p)) (centre (Pacman.gridY p)) p)
       (with_GRID_SIZE gs G)).

(** What the browser delivers to a running game: animation frames,
    keyboard events, the pause and restart controls of the page (the
    touch buttons [btnPause] and [btnRestart], and the hooks
    [window.togglePause] and [window.resetGame], which call
    [togglePause()] and [restart()] directly), swipes and window
    resizes. *)
Inductive Event :=
| Frame (elapsed : Q)
| KeyDown (key : string)
| KeyUp (key : string)
| PauseButton
| RestartButton
| Swipe (dir : string)
| Resize (vw vh : Z).

Definition step (G : PacmanGame) (e : Event) : PacmanGame :=
  match e with
  | Frame elapsed => gameLoop elapsed G
  | KeyDown key => handleKeyDown key G
  | KeyUp key => handleKeyUp key G
  | PauseButton => togglePause G
  | RestartButton => restart G
  | Swipe dir => applyDirection dir G
  | Resize vw vh => resizeToViewport vw vh G
  end.

Definition run (evs : list Event) (G : PacmanGame) : PacmanGame :=
  fold_left step evs G.

(** A tape that always yields the same number, for examples. *)
Definition constTape (q : Q) : Tape := mkTape (fun _ => q) 0.

(* ------------------------------------------------------------------ *)
(** ** The chase target of class [Ghost] ([js/ghost.js]) *)

Module GhostClass.

(** The fields of a [Ghost] instance that target selection touches. *)
Record t := mk {
  x : Q;
  y : Q;
  color : string;
  personality : Personality;
  mode : Mode;
  target : Q * Q;
  homeCorner : Q * Q
}.

(** [getHomeCorner()], keyed by colour; [cw] and [ch] are the canvas
    width and height. *)
Definition getHomeCorner (cw ch : Q) (color : string) : Q * Q :=
  if String.eqb color "#FF0000" then (cw - 40, 40)
  else if String.eqb color "#FFB8FF" then (40, 40)
  else if String.eqb color "#00FFFF" then (cw - 40, ch - 40)
  else if String.eqb color "#FFB852" then (40, ch - 40)
  else (100, 100).

(** [new Ghost(x, y, color, personality)] *)
Definition constructor (cw ch x y : Q) (color : string) (p : Personality) : t :=
  mk x y color p scatter (0, 0) (getHomeCorner cw ch color).

(** The [patrol] case of [updateChaseTarget(pacman)]; [px], [py] are
    the protagonist's coordinates and [gs] the grid size. *)
Definition patrolTarget (gs px py : Q) (g : t) : Q * Q :=
  if sqrt_gt (sq (px - x g) + sq (py - y g)) (gs * 8)
  then (px, py)
  else homeCorner g.

(** The [scatter] case of [updateAI]: [this.target = this.homeCorner]. *)
Definition scatterTarget (g : t) : Q * Q := homeCorner g.

End GhostClass.

(* ------------------------------------------------------------------ *)
(** ** Re-selection, stated *)

(** The single draw of a re-selection decides whether the reverse of the
    current heading may be considered: it may when the draw is at most
    0.2. *)
Definition reverseAllowed (t : Tape) : bool :=
  negb (Qltb (2 # 10) (fst (Math_random t))).

(** A heading takes part in the choice when it is not the excluded
    reverse and its look-ahead point is valid. *)
Definition headingOk (G : PacmanGame) (t : Tape) (ghost : Ghost.t) (d : nat)
  : bool :=
  (negb (d =? reverseDir (Ghost.direction ghost))%nat || reverseAllowed t)
  && probeValid G ghost d.

(** The legal candidates, in the enumeration order right, down, left,
    up. *)
Definition legalHeadings (G : PacmanGame) (t : Tape) (ghost : Ghost.t)
  : list nat :=
  filter (headingOk G t ghost) [0; 1; 2; 3]%nat.

(** A running minimum over headings: a later heading wins only when
    strictly closer. *)
Definition pickStep (ok : nat -> bool) (dist : nat -> Q)
    (b : nat * option Q) (d : nat) : nat * option Q :=
  if ok d then
    if closer (dist d) (snd b) then (d, Some (dist d)) else b
  else b.

(* ------------------------------------------------------------------ *)
(** ** Sample states *)

(** A fresh game on the default grid size. *)
Definition sampleGame : PacmanGame := newGame 19 (constTape (1 # 2)).

(** A released pursuer of the default body size at a given place. *)
Definition sampleGhost (n : GhostName) (p : Personality) (x y : Q)
    (d : nat) (m : Mode) (v : Q) : Ghost.t :=
  Ghost.mk x y (76 # 10) v n p d m (floorDiv x 19) (floorDiv y 19)
           0 false None None None.

(** The session state of [sampleGame] with the power window open. *)
Definition poweredState : GameState.t :=
  GameState.with_power true 8 (state sampleGame).

(** A pursuer sitting on the protagonist of [sampleGame]. *)
Definition touchingGhost (m : Mode) : Ghost.t :=
  sampleGhost Blinky aggressive (551 # 2) (1045 # 2) 0%nat m 160.

(** [sampleGame] with the protagonist on the power pellet of row 3,
    column 1. *)
Definition onPowerPellet : PacmanGame :=
  with_pacman (Pacman.with_xy (57 # 2) (133 # 2) (pacman sampleGame)) sampleGame.

(** The place where the third pursuer leaves the pen when a life was
    lost before its release (its reset abscissa is 7 cells, inside the
    wall block left of the pen), turned to the right and frightened: the
    state it is in when a power pellet is eaten on the tick of its
    release. *)
Definition strandedInky : Ghost.t :=
  sampleGhost Inky patrol 133 (437 # 2) 0%nat frightened 120.

(** The place where the fourth pursuer leaves the pen in the same
    circumstances (reset abscissa 8 cells): a cell of the wall block that
    no look-ahead point leaves. *)
Definition strandedClyde : Ghost.t :=
  sampleGhost Clyde random 152 (437 # 2) 3%nat scatter 160.

(** Whether the step of one tick of [deltaTime] in heading [d] would be
    accepted. *)
Definition stepValid (G : PacmanGame) (deltaTime : Q) (ghost : Ghost.t)
    (d : nat) : bool :=
  let c := ghostCandidate deltaTime (Ghost.with_direction d ghost) in
  isValidPosition G (fst c) (snd c) (Ghost.size ghost).

(** A pursuer thirteen seconds into its twenty seconds of chase, and
    [onPowerPellet] with that pursuer alone. *)
Definition midChase : Ghost.t :=
  Ghost.with_chaseTimer (Some 7)
    (sampleGhost Blinky aggressive (551 # 2) (513 # 2) 0%nat chase 160).

Definition frightScene : PacmanGame := with_ghosts [midChase] onPowerPellet.

(** The patrol pursuer in chase mode three cells right of the
    protagonist of [sampleGame]. *)
Definition nearInky : Ghost.t :=
  sampleGhost Inky patrol (665 # 2) (1045 # 2) 2%nat chase 160.

(** [sampleGame] on its last life with a pursuer on the protagonist. *)
Definition lastLife : PacmanGame :=
  let s := state sampleGame in
  with_ghosts [touchingGhost chase]
    (with_state
       (GameState.mk playing 1230 2 1 (GameState.pelletsRemaining s) false 0)
       sampleGame).

(* ------------------------------------------------------------------ *)
(** ** Frames and invariants, stated *)

(** The maze metadata a routine cannot touch: the tunnel-row set and the
    grid size. *)
Definition sameFrame (G G' : PacmanGame) : Prop :=
  tunnelRows G' = tunnelRows G /\ GRID_SIZE G' = GRID_SIZE G.

(** Both border cells of a maze row are walls. *)
Definition walledRow (row : list Z) : Prop :=
  nth_error row 0 = Some WALL /\
  nth_error row (List.length row - 1) = Some WALL.

(** The maze and the pellet counter are out of reach of a routine. *)
Definition sameMaze (G G' : PacmanGame) : Prop :=
  gameMap G' = gameMap G /\
  GameState.pelletsRemaining (state G') = GameState.pelletsRemaining (state G).

(** The counter agrees with the maze. *)
Definition pelletsTracked (G : PacmanGame) : Prop :=
  GameState.pelletsRemaining (state G) = pelletCount (gameMap G).

(** The state in which [update] runs the contact arbiter. *)
Definition beforeCollisions (deltaTime : Q) (G : PacmanGame) : PacmanGame :=
  powerTimerStep deltaTime (updateGhosts deltaTime (updatePacman deltaTime G)).

(** No pursuer is in dead mode. *)
Definition noneDead (G : PacmanGame) : Prop :=
  Forall (fun g => Ghost.mode g <> dead) (ghosts G).

(** What the running minimum knows after the headings [seen]: nothing
    legal met so far, or a best heading [bd] strictly closer than every
    legal heading before it and at least as close as every one after. *)
Inductive Picked (ok : nat -> bool) (dist : nat -> Q) (d0 : nat)
    (seen : list nat) : nat * option Q -> Prop :=
| Picked_none :
    (forall c, In c seen -> ok c = false) ->
    Picked ok dist d0 seen (d0, None)
| Picked_some bd l1 l2 :
    seen = l1 ++ bd :: l2 ->
    ok bd = true ->
    (forall c, In c l1 -> ok c = true -> dist bd < dist c) ->
    (forall c, In c l2 -> ok c = true -> dist bd <= dist c) ->
    Picked ok dist d0 seen (bd, Some (dist bd)).

(* ------------------------------------------------------------------ *)
(** ** Further invariants, stated *)

(** A maze cell against the template cell it started from: unchanged,
    or emptied where the template had a pellet or a power pellet. *)
Definition cellFaithful (orig cur : Z) : Prop :=
  cur = orig \/ (cur = EMPTY /\ isPelletCode orig = true).

(** A maze against the template, cell by cell. *)
Definition mazeFaithful (m : Grid) : Prop :=
  Forall2 (Forall2 cellFaithful) createDefaultMap m.

(** Score, level and lives within their bounds. *)
Definition countersOk (s : GameState.t) : Prop :=
  (0 <= GameState.score s)%Z /\ (1 <= GameState.level s)%Z /\
  (GameState.lives s <= 3)%Z.

(** One step of the counters: the score does not drop, no life is
    gained, the level is kept. *)
Definition countersStep (s s' : GameState.t) : Prop :=
  (GameState.score s <= GameState.score s')%Z /\
  (GameState.lives s' <= GameState.lives s)%Z /\
  GameState.level s' = GameState.level s.

(** Every heading code stored in the game is one of 0..3. *)
Definition headingsOk (G : PacmanGame) : Prop :=
  (Pacman.direction (pacman G) < 4)%nat /\
  Forall (fun g => (Ghost.direction g < 4)%nat) (ghosts G).

(** What a tick keeps of a pursuer: its name, personality and body
    size, and the fact of having left the pen. *)
Definition samePursuer (g g' : Ghost.t) : Prop :=
  Ghost.name g' = Ghost.name g /\
  Ghost.personality g' = Ghost.personality g /\
  Ghost.size g' = Ghost.size g /\
  (Ghost.inGhostHouse g = false -> Ghost.inGhostHouse g' = false).

(** Speed, mode and power state of a pursuer agree: frightened goes
    with 0.6 of the game speed, outside the pen, under an active power
    state; any other mode goes with 0.8 of the game speed. *)
Definition ghostConsistent (active : bool) (g : Ghost.t) : Prop :=
  (Ghost.mode g = frightened ->
     Ghost.speed g = GAME_SPEED * (6 # 10) /\
     Ghost.inGhostHouse g = false /\ active = true) /\
  (Ghost.mode g <> frightened -> Ghost.speed g = GAME_SPEED * (8 # 10)).

Definition speedsOk (G : PacmanGame) : Prop :=
  Forall (ghostConsistent (GameState.powerPelletActive (state G))) (ghosts G).



(** No window resize among the events. *)
Definition noResize (evs : list Event) : bool :=
  forallb (fun e => match e with Resize _ _ => false | _ => true end) evs.

(** The bodies have the size they are given when the agents are
    created: 0.4 of the current grid size. *)
Definition bodiesFit (G : PacmanGame) : Prop :=
  0 < GRID_SIZE G /\
  Pacman.size (pacman G) = GRID_SIZE G * (4 # 10) /\
  Forall (fun g => Ghost.size g = GRID_SIZE G * (4 # 10)) (ghosts G).

(** Lives against the phase: one to three lives while playing or
    paused, none when the game is over. *)
Definition livesOk (s : GameState.t) : Prop :=
  ((GameState.current s = playing \/ GameState.current s = paused) /\
   (1 <= GameState.lives s <= 3)%Z) \/
  (GameState.current s = gameOver /\ GameState.lives s = 0%Z).

(** The lives and the phase after the pursuer loop, against before:
    untouched, or exactly one life lost. *)
Definition atMostOneLoss (s s' : GameState.t) : Prop :=
  (GameState.current s' = GameState.current s /\
   GameState.lives s' = GameState.lives s) \/
  (GameState.lives s' = (GameState.lives s - 1)%Z /\
   GameState.current s' =
     if (GameState.lives s - 1 <=? 0)%Z then gameOver else GameState.current s).



(** The random numbers a tape yields from its cursor on all lie in
    [0, 1), as those of [Math.random()] do. *)
Definition unitDraws (t : Tape) : Prop :=
  forall n, (cursor t <= n)%nat -> 0 <= draws t n /\ draws t n < 1.

(** A point of the canvas. *)
Definition onCanvas (G : PacmanGame) (p : Q * Q) : Prop :=
  0 <= fst p /\ fst p < CANVAS_WIDTH G /\ 0 <= snd p /\ snd p < CANVAS_HEIGHT G.


(* ------------------------------------------------------------------ *)
(** ** Class [CollisionSystem] ([js/ghost.js]) *)

(** [Math.sqrt(d2) <= r] *)
Definition sqrt_le (d2 r : Q) : bool := Qle_bool 0 r && Qle_bool d2 (r * r).

Module CollisionSystem.

(** A rectangle [{x, y, width, height}] and a circle [{x, y, radius}]. *)
Record Rect := mkRect { rx : Q; ry : Q; width : Q; height : Q }.
Record Circle := mkCircle { cx : Q; cy : Q; radius : Q }.

(** [aabbCollision(rect1, rect2)] *)
Definition aabbCollision (rect1 rect2 : Rect) : bool :=
  Qltb (rx rect1) (rx rect2 + width rect2) &&
  Qltb (rx rect2) (rx rect1 + width rect1) &&
  Qltb (ry rect1) (ry rect2 + height rect2) &&
  Qltb (ry rect2) (ry rect1 + height rect1).

(** [circleCollision(circle1, circle2)] *)
Definition circleCollision (circle1 circle2 : Circle) : bool :=
  let dx := cx circle1 - cx circle2 in
  let dy := cy circle1 - cy circle2 in
  sqrt_lt (dx * dx + dy * dy) (radius circle1 + radius circle2).

(** [pointInRect(point, rect)] *)
Definition pointInRect (point : Q * Q) (rect : Rect) : bool :=
  Qle_bool (rx rect) (fst point) &&
  Qle_bool (fst point) (rx rect + width rect) &&
  Qle_bool (ry rect) (snd point) &&
  Qle_bool (snd point) (ry rect + height rect).

(** [pointInCircle(point, circle)] *)
Definition pointInCircle (point : Q * Q) (circle : Circle) : bool :=
  let dx := fst point - cx circle in
  let dy := snd point - cy circle in
  sqrt_le (dx * dx + dy * dy) (radius circle).

(** [gridCollision(x, y, gameMap, gridSize)]: the cell code under a
    point, 0 outside the grid. *)
Definition gridCollision (x y : Q) (gameMap : Grid) (gridSize : Q) : Z :=
  match cellAt gameMap (floorDiv x gridSize) (floorDiv y gridSize) with
  | Some c => c
  | None => 0%Z
  end.

(** The five points [isValidPosition] probes, in its order. *)
Definition probePoints (x y size : Q) : list (Q * Q) :=
  [ (x - size, y - size); (x + size, y - size);
    (x - size, y + size); (x + size, y + size); (x, y) ].

(** [isValidPosition(x, y, size, gameMap, gridSize)]; the canvas is that
    of the configuration [G] carries. *)
Definition isValidPosition (G : PacmanGame) (x y size : Q) (gameMap : Grid)
    (gridSize : Q) : bool :=
  forallb
    (fun point =>
       if Qltb (fst point) 0 || Qle_bool (CANVAS_WIDTH G) (fst point) ||
          Qltb (snd point) 0 || Qle_bool (CANVAS_HEIGHT G) (snd point)
       then false
       else negb (gridCollision (fst point) (snd point) gameMap gridSize =? 1)%Z)
    (probePoints x y size).

(** [checkPacmanPelletCollision(pacman, gameMap, gridSize)]: the cell
    and its code, or nothing. *)
Definition checkPacmanPelletCollision (pacman : Pacman.t) (gameMap : Grid)
    (gridSize : Q) : option (Z * Z * Z) :=
  let gridX := floorDiv (Pacman.x pacman) gridSize in
  let gridY := floorDiv (Pacman.y pacman) gridSize in
  match cellAt gameMap gridX gridY with
  | Some cell =>
      if (cell =? 2)%Z || (cell =? 3)%Z then
        let cellCenterX := (inject_Z gridX + (1 # 2)) * gridSize in
        let cellCenterY := (inject_Z gridY + (1 # 2)) * gridSize in
        let dx := Pacman.x pacman - cellCenterX in
        let dy := Pacman.y pacman - cellCenterY in
        if sqrt_lt (dx * dx + dy * dy) (gridSize * (3 # 10))
        then Some (gridX, gridY, cell)
        else None
      else None
  | None => None
  end.

(** [checkPacmanGhostCollision(pacman, ghost)]: the pair in contact, or
    nothing (the [distance] field of the result is left out). *)
Definition checkPacmanGhostCollision (pacman : Pacman.t) (ghost : Ghost.t)
  : option (Pacman.t * Ghost.t) :=
  let dx := Pacman.x pacman - Ghost.x ghost in
  let dy := Pacman.y pacman - Ghost.y ghost in
  let minDistance := Pacman.size pacman + Ghost.size ghost in
  if sqrt_lt (dx * dx + dy * dy) (minDistance * (8 # 10))
  then Some (pacman, ghost)
  else None.

(** The object [createSpatialGrid] returns.  Its [grid] maps the key
    of a cell, the pair of its indices, to the objects stored there; a
    key that is absent holds nothing. *)
Record SpatialGrid (A : Type) := mkSpatialGrid {
  sgWidth : Z;
  sgHeight : Z;
  cellSize : Q;
  grid : Z -> Z -> list A
}.

Arguments mkSpatialGrid {A}.
Arguments sgWidth {A}.
Arguments sgHeight {A}.
Arguments cellSize {A}.
Arguments grid {A}.

(** [createSpatialGrid(width, height, cellSize)] *)
Definition createSpatialGrid {A} (w h cs : Q) : SpatialGrid A :=
  mkSpatialGrid (Qceiling (w / cs)) (Qceiling (h / cs)) cs (fun _ _ => []).

(** [clear()] *)
Definition clear {A} (g : SpatialGrid A) : SpatialGrid A :=
  mkSpatialGrid (sgWidth g) (sgHeight g) (cellSize g) (fun _ _ => []).

(** [insert(object, x, y)] *)
Definition insert {A} (object : A) (x y : Q) (g : SpatialGrid A) : SpatialGrid A :=
  let cellX := floorDiv x (cellSize g) in
  let cellY := floorDiv y (cellSize g) in
  mkSpatialGrid (sgWidth g) (sgHeight g) (cellSize g)
    (fun a b =>
       if (a =? cellX)%Z && (b =? cellY)%Z then grid g a b ++ [object]
       else grid g a b).

(** The offsets [-radius, ..., radius] of the two loops of [getNearby]. *)
Definition offsets (r : Z) : list Z :=
  map (fun i => (Z.of_nat i - r)%Z) (seq 0 (Z.to_nat (2 * r + 1))).

(** [getNearby(x, y, radius)] *)
Definition getNearby {A} (x y : Q) (r : Z) (g : SpatialGrid A) : list A :=
  let cellX := floorDiv x (cellSize g) in
  let cellY := floorDiv y (cellSize g) in
  flat_map
    (fun dy => flat_map (fun dx => grid g (cellX + dx)%Z (cellY + dy)%Z) (offsets r))
    (offsets r).

End CollisionSystem.

(** The square that bounds a circle. *)
Definition boundingBox (c : CollisionSystem.Circle) : CollisionSystem.Rect :=
  CollisionSystem.mkRect
    (CollisionSystem.cx c - CollisionSystem.radius c)
    (CollisionSystem.cy c - CollisionSystem.radius c)
    (2 * CollisionSystem.radius c) (2 * CollisionSystem.radius c).

(** A corner of the body probes the wall at the left of the start
    cell while the centre is clear of it. *)
Definition besideWall : Q * Q := (209 # 10, 57 # 2).


(* ------------------------------------------------------------------ *)
(** ** Class [Ghost] ([js/ghost.js]): modes, schedule and motion *)

(** [-Math.sqrt(a) + r > -Math.sqrt(b) + s] for [a] and [b] not
    negative, decided on the squares: with [c = s - r] it is
    [Math.sqrt(b) - Math.sqrt(a) > c]. *)
Definition scoreBeats (a r b s : Q) : bool :=
  let c := s - r in
  if Qeq_bool c 0 then Qltb a b
  else if Qltb 0 c then
    let e := b - a - c * c in
    Qltb 0 e && Qltb (4 * (c * c) * a) (e * e)
  else
    let f := a - b - c * c in
    Qltb f 0 || Qltb (f * f) (4 * (c * c) * b).

Module GhostAI.

(** A [Ghost] instance.  The configuration [GAME_CONFIG] is read
    through the game object [G] that carries it. *)
Record t := mk {
  x : Q;
  y : Q;
  size : Q;
  baseSpeed : Q;
  speed : Q;
  color : string;
  personality : Personality;
  direction : nat;
  gridX : Z;
  gridY : Z;
  mode : Mode;
  modeTimer : Q;
  target : Q * Q;
  homeCorner : Q * Q;
  animationFrame : Q;
  lastDirectionChange : Q
}.

Definition with_xy (nx ny : Q) (g : t) : t :=
  mk nx ny (size g) (baseSpeed g) (speed g) (color g) (personality g)
     (direction g) (gridX g) (gridY g) (mode g) (modeTimer g) (target g)
     (homeCorner g) (animationFrame g) (lastDirectionChange g).

Definition with_speed (v : Q) (g : t) : t :=
  mk (x g) (y g) (size g) (baseSpeed g) v (color g) (personality g)
     (direction g) (gridX g) (gridY g) (mode g) (modeTimer g) (target g)
     (homeCorner g) (animationFrame g) (lastDirectionChange g).

Definition with_direction (d : nat) (g : t) : t :=
  mk (x g) (y g) (size g) (baseSpeed g) (speed g) (color g) (personality g)
     d (gridX g) (gridY g) (mode g) (modeTimer g) (target g)
     (homeCorner g) (animationFrame g) (lastDirectionChange g).

Definition with_grid (gx gy : Z) (g : t) : t :=
  mk (x g) (y g) (size g) (baseSpeed g) (speed g) (color g) (personality g)
     (direction g) gx gy (mode g) (modeTimer g) (target g)
     (homeCorner g) (animationFrame g) (lastDirectionChange g).

Definition with_mode (m : Mode) (g : t) : t :=
  mk (x g) (y g) (size g) (baseSpeed g) (speed g) (color g) (personality g)
     (direction g) (gridX g) (gridY g) m (modeTimer g) (target g)
     (homeCorner g) (animationFrame g) (lastDirectionChange g).

Definition with_modeTimer (v : Q) (g : t) : t :=
  mk (x g) (y g) (size g) (baseSpeed g) (speed g) (color g) (personality g)
     (direction g) (gridX g) (gridY g) (mode g) v (target g)
     (homeCorner g) (animationFrame g) (lastDirectionChange g).

Definition with_target (p : Q * Q) (g : t) : t :=
  mk (x g) (y g) (size g) (baseSpeed g) (speed g) (color g) (personality g)
     (direction g) (gridX g) (gridY g) (mode g) (modeTimer g) p
     (homeCorner g) (animationFrame g) (lastDirectionChange g).

Definition with_animationFrame (v : Q) (g : t) : t :=
  mk (x g) (y g) (size g) (baseSpeed g) (speed g) (color g) (personality g)
     (direction g) (gridX g) (gridY g) (mode g) (modeTimer g) (target g)
     (homeCorner g) v (lastDirectionChange g).

(** [new Ghost(x, y, color, personality)] *)
Definition constructor (G : PacmanGame) (x y : Q) (color : string)
    (personality : Personality) : t :=
  mk x y (GRID_SIZE G * (4 # 10)) (GAME_SPEED * (8 # 10)) (GAME_SPEED * (8 # 10))
     color personality 0%nat
     (floorDiv x (GRID_SIZE G)) (floorDiv y (GRID_SIZE G))
     scatter 0 (0, 0)
     (GhostClass.getHomeCorner (CANVAS_WIDTH G) (CANVAS_HEIGHT G) color)
     0 0.

(** [updateChaseTarget(pacman)] *)
Definition updateChaseTarget (G : PacmanGame) (pacman : Pacman.t) (tp : Tape)
    (g : t) : t * Tape :=
  let here := (Pacman.x pacman, Pacman.y pacman) in
  match personality g with
  | aggressive => (with_target here g, tp)
  | ambush =>
      let dir := nth (Pacman.direction pacman) directions (nth 0 directions (0, 0)) in
      (with_target (Pacman.x pacman + fst dir * GRID_SIZE G * 4,
                    Pacman.y pacman + snd dir * GRID_SIZE G * 4) g, tp)
  | patrol =>
      if sqrt_gt (sq (Pacman.x pacman - x g) + sq (Pacman.y pacman - y g))
                 (GRID_SIZE G * 8)
      then (with_target here g, tp)
      else (with_target (homeCorner g) g, tp)
  | random =>
      let '(r, tp1) := Math_random tp in
      if Qltb r (7 # 10) then (with_target here g, tp1)
      else
        let '(rx, tp2) := Math_random tp1 in
        let '(ry, tp3) := Math_random tp2 in
        (with_target (rx * CANVAS_WIDTH G, ry * CANVAS_HEIGHT G) g, tp3)
  end.

(** [updateAI(pacman, gameMap)] *)
Definition updateAI (G : PacmanGame) (pacman : Pacman.t) (tp : Tape) (g : t)
  : t * Tape :=
  match mode g with
  | scatter =>
      let g1 := with_target (homeCorner g) g in
      if Qltb 7 (modeTimer g1)
      then (with_modeTimer 0 (with_mode chase g1), tp)
      else (g1, tp)
  | chase =>
      let '(g1, tp1) := updateChaseTarget G pacman tp g in
      if Qltb 20 (modeTimer g1)
      then (with_modeTimer 0 (with_mode scatter g1), tp1)
      else (g1, tp1)
  | frightened =>
      let '(rx, tp1) := Math_random tp in
      let '(ry, tp2) := Math_random tp1 in
      (with_speed (baseSpeed g * (6 # 10))
         (with_target (rx * CANVAS_WIDTH G, ry * CANVAS_HEIGHT G) g), tp2)
  | dead =>
      (with_speed (baseSpeed g * (15 # 10))
         (with_target (GRID_SIZE G * 5, GRID_SIZE G * 5) g), tp)
  end.

(** [isValidPosition(x, y, gameMap)] *)
Definition isValidPosition (G : PacmanGame) (gameMap : Grid) (g : t)
    (px py : Q) : bool :=
  if Qltb (px - size g) 0 || Qltb (CANVAS_WIDTH G) (px + size g) ||
     Qltb (py - size g) 0 || Qltb (CANVAS_HEIGHT G) (py + size g)
  then false
  else
    match cellAt gameMap (floorDiv px (GRID_SIZE G)) (floorDiv py (GRID_SIZE G)) with
    | Some c => negb (c =? 1)%Z
    | None => true
    end.

(** [score > bestScore]; a score [-Math.sqrt(d2) + bonus] is kept as
    the pair of [d2] and [bonus], and [None] stands for [-Infinity]. *)
Definition beats (score : Q * Q) (bestScore : option (Q * Q)) : bool :=
  match bestScore with
  | None => true
  | Some best => scoreBeats (fst score) (snd score) (fst best) (snd best)
  end.

(** The place reached from [g] by one step of heading [i]. *)
Definition ahead (deltaTime : Q) (g : t) (i : nat) : Q * Q :=
  let dir := dirVec i in
  (x g + fst dir * speed g * deltaTime, y g + snd dir * speed g * deltaTime).

(** One round of the loop of [move]: heading [i] against the best so
    far. *)
Definition considerMove (G : PacmanGame) (gameMap : Grid) (deltaTime : Q)
    (g : t) (acc : nat * option (Q * Q) * Tape) (i : nat)
  : nat * option (Q * Q) * Tape :=
  let '(bestDirection, bestScore, tp) := acc in
  if (i =? (direction g + 2) mod 4)%nat then acc
  else
    let '(newX, newY) := ahead deltaTime g i in
    if isValidPosition G gameMap g newX newY then
      let newDx := fst (target g) - newX in
      let newDy := snd (target g) - newY in
      let '(r, tp1) := Math_random tp in
      let score := (newDx * newDx + newDy * newDy, r * 10) in
      if beats score bestScore then (i, Some score, tp1)
      else (bestDirection, bestScore, tp1)
    else acc.

(** [move(deltaTime, gameMap)] *)
Definition move (G : PacmanGame) (gameMap : Grid) (deltaTime : Q) (tp : Tape)
    (g : t) : t * Tape :=
  let '(bestDirection, _, tp1) :=
    fold_left (considerMove G gameMap deltaTime g) [0; 1; 2; 3]%nat
              (direction g, None, tp) in
  let '(newX, newY) := ahead deltaTime g bestDirection in
  if isValidPosition G gameMap g newX newY then
    (with_xy newX newY (with_direction bestDirection g), tp1)
  else
    let '(r, tp2) := Math_random tp1 in
    (with_direction (Z.to_nat (Qfloor (r * 4))) g, tp2).

(** [update(deltaTime, pacman, gameMap)] *)
Definition update (G : PacmanGame) (deltaTime : Q) (pacman : Pacman.t)
    (gameMap : Grid) (tp : Tape) (g : t) : t * Tape :=
  let g1 := with_modeTimer (modeTimer g + deltaTime) g in
  let '(g2, tp1) := updateAI G pacman tp g1 in
  let '(g3, tp2) := move G gameMap deltaTime tp1 g2 in
  let g4 := with_animationFrame (animationFrame g3 + deltaTime * 2) g3 in
  (with_grid (floorDiv (x g4) (GRID_SIZE G)) (floorDiv (y g4) (GRID_SIZE G)) g4,
   tp2).

(** [frighten()] *)
Definition frighten (g : t) : t :=
  match mode g with
  | dead => g
  | _ =>
      with_direction ((direction g + 2) mod 4)%nat
        (with_speed (baseSpeed g * (6 # 10))
           (with_modeTimer 0 (with_mode frightened g)))
  end.



(** A run of [update] calls, one per frame, each with the frame's
    time step and the protagonist as it then is. *)
Fixpoint updates (G : PacmanGame) (gameMap : Grid)
    (frames : list (Q * Pacman.t)) (tp : Tape) (g : t) : t * Tape :=
  match frames with
  | [] => (g, tp)
  | (deltaTime, pacman) :: rest =>
      let '(g1, tp1) := update G deltaTime pacman gameMap tp g in
      updates G gameMap rest tp1 g1
  end.

End GhostAI.

(* ------------------------------------------------------------------ *)
(** ** Class [PacmanCharacter] ([js/pacman.js]) *)

Module PacmanCharacter.

Record t := mk {
  x : Q;
  y : Q;
  size : Q;
  speed : Q;
  direction : nat;
  targetDirection : nat;
  mouthOpen : Q;
  mouthDirection : Q;
  animationSpeed : Q;
  gridX : Z;
  gridY : Z;
  isMoving : bool;
  lastMoveTime : Q
}.

(** [new PacmanCharacter(x, y)] *)
Definition constructor (G : PacmanGame) (x y : Q) : t :=
  mk x y (GRID_SIZE G * (4 # 10)) GAME_SPEED 0%nat 0%nat 0 1 (15 # 100)
     (floorDiv x (GRID_SIZE G)) (floorDiv y (GRID_SIZE G)) false 0.

(** The mouth part of [update]. *)
Definition mouthStep (p : t) : Q * Q :=
  if isMoving p then
    let m := mouthOpen p + mouthDirection p * animationSpeed p in
    if Qle_bool 1 m then (1, -1 # 1)
    else if Qle_bool m 0 then (0, 1)
    else (m, mouthDirection p)
  else (mouthOpen p, mouthDirection p).

(** [update(deltaTime, inputKeys)]; neither argument is read. *)
Definition update (G : PacmanGame) (p : t) : t :=
  let '(mo, md) := mouthStep p in
  mk (x p) (y p) (size p) (speed p) (direction p) (targetDirection p)
     mo md (animationSpeed p)
     (floorDiv (x p) (GRID_SIZE G)) (floorDiv (y p) (GRID_SIZE G))
     (isMoving p) (lastMoveTime p).

Definition with_speed (v : Q) (p : t) : t :=
  mk (x p) (y p) (size p) v (direction p) (targetDirection p)
     (mouthOpen p) (mouthDirection p) (animationSpeed p)
     (gridX p) (gridY p) (isMoving p) (lastMoveTime p).

(** [enablePowerMode()] *)
Definition enablePowerMode (p : t) : t := with_speed (speed p * (12 # 10)) p.

(** [disablePowerMode()] *)
Definition disablePowerMode (p : t) : t := with_speed GAME_SPEED p.

End PacmanCharacter.

(** The mouth of the protagonist: opening between 0 and 1, moving
    one way or the other. *)
Definition mouthOk (p : Pacman.t) : Prop :=
  0 <= Pacman.mouthOpen p /\ Pacman.mouthOpen p <= 1 /\
  (Pacman.mouthDirection p = 1 \/ Pacman.mouthDirection p = (-1 # 1)).

(** What [move] leaves alone. *)
Definition sameBody (g g' : GhostAI.t) : Prop :=
  GhostAI.size g' = GhostAI.size g /\
  GhostAI.baseSpeed g' = GhostAI.baseSpeed g /\
  GhostAI.speed g' = GhostAI.speed g /\
  GhostAI.mode g' = GhostAI.mode g /\
  GhostAI.modeTimer g' = GhostAI.modeTimer g /\
  GhostAI.target g' = GhostAI.target g /\
  GhostAI.homeCorner g' = GhostAI.homeCorner g /\
  GhostAI.personality g' = GhostAI.personality g /\
  GhostAI.color g' = GhostAI.color g.

(** A pursuer of class [Ghost] in the open corridor of row 1 of the
    template maze, heading right. *)
Definition corridorGhost : GhostAI.t :=
  GhostAI.with_xy (95 # 1) (57 # 2)
    (GhostAI.constructor sampleGame (95 # 1) (57 # 2) "#FF0000" aggressive).



(* ------------------------------------------------------------------ *)
(** ** The two target routines side by side, pellets and the power
       window, stated *)

(** The colour [initializeGameObjects] gives the pursuer of a name. *)
Definition colorOf (n : GhostName) : string :=
  match n with
  | Blinky => "#FF0000"
  | Pinky => "#FFB8FF"
  | Inky => "#00FFFF"
  | Clyde => "#FFB852"
  end.

(** An instance of class [Ghost] standing for a pursuer of the game:
    same place, mode and personality, and the home corner its colour has
    on the canvas of [G]. *)
Definition standsFor (G : PacmanGame) (g : GhostAI.t) (ghost : Ghost.t) : Prop :=
  GhostAI.x g = Ghost.x ghost /\ GhostAI.y g = Ghost.y ghost /\
  GhostAI.mode g = Ghost.mode ghost /\
  GhostAI.personality g = Ghost.personality ghost /\
  GhostAI.homeCorner g =
    GhostClass.getHomeCorner (CANVAS_WIDTH G) (CANVAS_HEIGHT G)
      (colorOf (Ghost.name ghost)).

(** Two points with equal coordinates. *)
Definition samePoint (p q : Q * Q) : Prop := fst p == fst q /\ snd p == snd q.

(** The retreat case of the patrol personality: chasing, and not
    farther than eight cells from the protagonist. *)
Definition patrolRetreats (G : PacmanGame) (ghost : Ghost.t) : Prop :=
  Ghost.mode ghost = chase /\ Ghost.personality ghost = patrol /\
  sqrt_gt (dist2ToPacman G ghost) (8 * GRID_SIZE G) = false.

(** An open power window has time left. *)
Definition powerOk (s : GameState.t) : Prop :=
  GameState.powerPelletActive s = true -> 0 < GameState.powerPelletTimer s.

(** No frame reports a negative elapsed time. *)
Definition nonnegFrames (evs : list Event) : Prop :=
  Forall (fun e => match e with Frame elapsed => 0 <= elapsed | _ => True end) evs.

(** The power fields of a state. *)
Definition powerOf (s : GameState.t) : bool * Q :=
  (GameState.powerPelletActive s, GameState.powerPelletTimer s).

(** The class instance standing for the first pursuer of
    [sampleGame]. *)
Definition classBlinky : GhostAI.t :=
  GhostAI.constructor sampleGame (266 # 1) (266 # 1) "#FF0000" aggressive.


(* ------------------------------------------------------------------ *)
(** ** The power pellet within a tick, stated *)

(** The second half of [checkCollisions()] on one pursuer while the power
    state is active: a pursuer in contact is eaten, that is, moved to the
    respawn point. *)
Definition eaten (G : PacmanGame) (ghost : Ghost.t) : Ghost.t :=
  if inContact G ghost
  then Ghost.with_xy (GRID_SIZE G * 5) (GRID_SIZE G * 5) ghost
  else ghost.





(* ================================================================== *)
(** * Properties *)

(* ------------------------------------------------------------------ *)
(** ** Boolean comparisons *)

Lemma Qltb_lt (a b : Q) : Qltb a b = true <-> a < b.
Proof.
  unfold Qltb. rewrite negb_true_iff.
  split; intro H.
  - apply Qnot_le_lt. intro Hle. apply Qle_bool_iff in Hle. congruence.
  - destruct (Qle_bool b a) eqn:E; [|reflexivity].
    apply Qle_bool_iff in E. exfalso. exact (Qlt_not_le _ _ H E).
Qed.

Lemma Qltb_ge (a b : Q) : Qltb a b = false <-> b <= a.
Proof.
  unfold Qltb. rewrite negb_false_iff. apply Qle_bool_iff.
Qed.

(* ------------------------------------------------------------------ *)
(** ** What each routine leaves alone *)

Lemma sameFrame_refl G : sameFrame G G.
Proof. split; reflexivity. Qed.

Lemma sameFrame_trans G1 G2 G3 :
  sameFrame G1 G2 -> sameFrame G2 G3 -> sameFrame G1 G3.
Proof. intros [A B] [C D]. split; congruence. Qed.

Lemma updatePacman_frame dt G : sameFrame G (updatePacman dt G).
Proof.
  unfold updatePacman.
  destruct (pacmanTunnelWrap G _) as [[wx wy]|].
  - split; reflexivity.
  - destruct (isValidPosition G _ _ _); [|apply sameFrame_refl].
    destruct (animateMouth (pacman G)). split; reflexivity.
Qed.

Lemma updateGhosts_frame dt G : sameFrame G (updateGhosts dt G).
Proof.
  unfold updateGhosts.
  destruct (updateGhostList G (rng G) dt (ghosts G)) as [gl t].
  split; reflexivity.
Qed.

Lemma powerTimerStep_frame dt G : sameFrame G (powerTimerStep dt G).
Proof.
  unfold powerTimerStep.
  destruct (GameState.powerPelletActive (state G)); [|apply sameFrame_refl].
  destruct (Qle_bool _ 0); split; reflexivity.
Qed.

Lemma collectPellet_frame G : sameFrame G (collectPellet G).
Proof.
  unfold collectPellet. destruct (pacmanCell G) as [gx gy].
  destruct (cellAt (gameMap G) gx gy) as [c|]; [|apply sameFrame_refl].
  destruct (c =? 2)%Z; [split; reflexivity|].
  destruct (c =? 3)%Z; [split; reflexivity|apply sameFrame_refl].
Qed.

Lemma collideGhost_frame i G : sameFrame G (collideGhost i G).
Proof.
  unfold collideGhost.
  destruct (nth_error (ghosts G) i) as [ghost|]; [|apply sameFrame_refl].
  destruct (inContact G ghost); [|apply sameFrame_refl].
  destruct (GameState.powerPelletActive (state G)); split; reflexivity.
Qed.

Lemma collideFold_frame (l : list nat) G :
  sameFrame G (fold_left (fun acc index => collideGhost index acc) l G).
Proof.
  revert G. induction l as [|i l IH]; intro G; simpl.
  - apply sameFrame_refl.
  - eapply sameFrame_trans; [apply collideGhost_frame | apply IH].
Qed.

Lemma checkCollisions_frame G : sameFrame G (checkCollisions G).
Proof.
  unfold checkCollisions, ghostCollisions.
  eapply sameFrame_trans; [apply collectPellet_frame | apply collideFold_frame].
Qed.

Lemma defaultMap_tunnelRows : updateTunnelRows createDefaultMap = [].
Proof. vm_compute. reflexivity. Qed.

Lemma nextLevel_tunnelRows G : tunnelRows (nextLevel G) = [].
Proof. unfold nextLevel. simpl. apply defaultMap_tunnelRows. Qed.

Lemma restart_tunnelRows G : tunnelRows (restart G) = [].
Proof. unfold restart. simpl. apply defaultMap_tunnelRows. Qed.

Lemma update_tunnelRows dt G :
  tunnelRows G = [] -> tunnelRows (update dt G) = [].
Proof.
  intro H. unfold update.
  set (G4 := checkCollisions _).
  destruct (_ <=? 0)%Z; [apply nextLevel_tunnelRows|].
  assert (F : sameFrame G G4).
  { unfold G4.
    eapply sameFrame_trans; [apply updatePacman_frame|].
    eapply sameFrame_trans; [apply updateGhosts_frame|].
    eapply sameFrame_trans; [apply powerTimerStep_frame|].
    apply checkCollisions_frame. }
  destruct F as [F _]. congruence.
Qed.

Lemma step_tunnelRows G e : tunnelRows G = [] -> tunnelRows (step G e) = [].
Proof.
  intro H.
  destruct e as [elapsed|key|key| | |dir|vw vh]; simpl;
    [| | | unfold togglePause; destruct (GameState.current (state G)); exact H
     | apply (restart_tunnelRows G) | exact H | exact H].
  - unfold gameLoop. destruct (GameState.current (state G)); auto.
    apply update_tunnelRows; exact H.
  - unfold handleKeyDown.
    repeat match goal with
           | |- context [if ?b then _ else _] => destruct b
           end; try exact H.
    + unfold togglePause; simpl.
      destruct (GameState.current (state G)); exact H.
    + destruct (GameState.current (state G)); try exact H.
      apply restart_tunnelRows.
  - unfold handleKeyUp.
    repeat match goal with
           | |- context [if ?b then _ else _] => destruct b
           end; exact H.
Qed.

Lemma run_tunnelRows evs G : tunnelRows G = [] -> tunnelRows (run evs G) = [].
Proof.
  unfold run. revert G. induction evs as [|e evs IH]; intros G H; simpl.
  - exact H.
  - apply IH. apply step_tunnelRows. exact H.
Qed.

Lemma newGame_tunnelRows gs t : tunnelRows (newGame gs t) = [].
Proof. unfold newGame. simpl. apply defaultMap_tunnelRows. Qed.

(** C10. In the built-in maze every row begins and ends with a wall
    cell, the tunnel-row set computed from it is empty, and in every state
    a game started on it can reach (by frames, key and touch events and
    resizes) neither the
    protagonist's nor a pursuer's tunnel-wrap branch is taken, whatever
    the position, heading and time step. *)
Theorem default_maze_has_no_tunnel (gs : Q) (t : Tape) (evs : list Event) :
  Forall walledRow createDefaultMap /\
  updateTunnelRows createDefaultMap = [] /\
  (forall newDirection,
      pacmanTunnelWrap (run evs (newGame gs t)) newDirection = None) /\
  (forall deltaTime ghost,
      ghostTunnelWrap (run evs (newGame gs t)) deltaTime ghost = None).
Proof.
  pose proof (run_tunnelRows evs _ (newGame_tunnelRows gs t)) as H.
  split; [|split; [|split]].
  - unfold walledRow. vm_compute. repeat constructor.
  - apply defaultMap_tunnelRows.
  - intro nd. unfold pacmanTunnelWrap. rewrite H. reflexivity.
  - intros dt ghost. unfold ghostTunnelWrap. rewrite H. reflexivity.
Qed.

(* ------------------------------------------------------------------ *)
(** ** Contact resolution *)

Lemma setNth_same {A} (l : list A) i v :
  (i < List.length l)%nat -> nth_error (setNth i v l) i = Some v.
Proof.
  revert i. induction l as [|h l IH]; intros [|i] H; simpl in *;
    try lia; [reflexivity|]. apply IH. lia.
Qed.

Lemma setNth_other {A} (l : list A) i j v :
  j <> i -> nth_error (setNth i v l) j = nth_error l j.
Proof.
  revert i j. induction l as [|h l IH]; intros [|i] [|j] H; simpl;
    try reflexivity; try congruence.
  apply IH. congruence.
Qed.

Lemma setNth_length {A} (l : list A) i v :
  List.length (setNth i v l) = List.length l.
Proof.
  revert i. induction l as [|h l IH]; intros [|i]; simpl; auto.
Qed.

Lemma resetGhosts_nth gs (gl : list Ghost.t) : forall base j ghost,
  nth_error gl j = Some ghost ->
  nth_error (resetGhosts gs base gl) j =
  Some (Ghost.with_xy (gs * (5 + inject_Z (base + Z.of_nat j))) (gs * 5) ghost).
Proof.
  induction gl as [|h gl IH]; intros base [|j] ghost H; simpl in *;
    try discriminate.
  - inversion H; subst. rewrite Z.add_0_r. reflexivity.
  - rewrite (IH (base + 1)%Z j ghost H).
    replace (base + 1 + Z.of_nat j)%Z with (base + Z.pos (Pos.of_succ_nat j))%Z
      by lia.
    reflexivity.
Qed.

Lemma resetGhosts_length gs : forall gl base,
  List.length (resetGhosts gs base gl) = List.length gl.
Proof.
  induction gl as [|g gl IH]; intro base; simpl; [reflexivity|].
  rewrite IH. reflexivity.
Qed.

(** Contact is the strict inequality between the squared centre distance
    and the squared sum of the two radii (the sum being positive). *)
Lemma inContact_spec G ghost :
  inContact G ghost = true <->
  0 < Pacman.size (pacman G) + Ghost.size ghost /\
  dist2ToPacman G ghost <
    (Pacman.size (pacman G) + Ghost.size ghost) *
    (Pacman.size (pacman G) + Ghost.size ghost).
Proof.
  unfold inContact, sqrt_lt. rewrite andb_true_iff, !Qltb_lt. tauto.
Qed.

(** C1, as the code has it.  When the protagonist and the pursuer at
    [index] are in contact: with the power state active (whatever the
    pursuer's mode) the score grows by exactly 200, lives are untouched and
    that pursuer alone is moved to the respawn point (5 cells, 5 cells),
    keeping its mode; with the power state inactive one life is lost, the
    phase becomes game-over when none is left, and every position is reset
    (protagonist to (1.5, 1.5) cells, pursuer [j] to (5 + j, 5) cells). *)
Theorem contact_resolution (G : PacmanGame) (index : nat) (ghost : Ghost.t) :
  nth_error (ghosts G) index = Some ghost ->
  inContact G ghost = true ->
  let G' := collideGhost index G in
  let gs := GRID_SIZE G in
  if GameState.powerPelletActive (state G) then
    GameState.score (state G') = (GameState.score (state G) + 200)%Z /\
    GameState.lives (state G') = GameState.lives (state G) /\
    nth_error (ghosts G') index = Some (Ghost.with_xy (gs * 5) (gs * 5) ghost) /\
    Ghost.mode (Ghost.with_xy (gs * 5) (gs * 5) ghost) = Ghost.mode ghost /\
    (forall j, j <> index -> nth_error (ghosts G') j = nth_error (ghosts G) j) /\
    pacman G' = pacman G
  else
    GameState.lives (state G') = (GameState.lives (state G) - 1)%Z /\
    GameState.score (state G') = GameState.score (state G) /\
    (GameState.current (state G') = gameOver <->
       (GameState.lives (state G) - 1 <= 0)%Z \/
       GameState.current (state G) = gameOver) /\
    pacman G' = Pacman.with_xy (gs * (15 # 10)) (gs * (15 # 10)) (pacman G) /\
    (forall j gj, nth_error (ghosts G) j = Some gj ->
       nth_error (ghosts G') j =
       Some (Ghost.with_xy (gs * (5 + inject_Z (Z.of_nat j))) (gs * 5) gj)).
Proof.
  intros Hn Hc G' gs. unfold G', collideGhost. rewrite Hn, Hc.
  destruct (GameState.powerPelletActive (state G)) eqn:Hp.
  - simpl. repeat split.
    + apply setNth_same. apply nth_error_Some. congruence.
    + intros j Hj. apply setNth_other. exact Hj.
  - simpl. repeat split.
    + destruct (GameState.lives (state G) - 1 <=? 0)%Z eqn:E.
      * intros _. left. apply Z.leb_le. exact E.
      * intro H. right. exact H.
    + intros [H|H].
      * apply Z.leb_le in H. rewrite H. reflexivity.
      * destruct (_ <=? 0)%Z; [reflexivity|exact H].
    + intros j gj Hj. apply (resetGhosts_nth (GRID_SIZE G) (ghosts G) 0%Z j gj Hj).
Qed.

Lemma contact_resolution_witness :
  let G := with_ghosts [touchingGhost scatter] (with_state poweredState sampleGame) in
  nth_error (ghosts G) 0 = Some (touchingGhost scatter) /\
  inContact G (touchingGhost scatter) = true /\
  GameState.score (state (collideGhost 0 G)) = 200%Z.
Proof.
  intro G.
  assert (Hn : nth_error (ghosts G) 0 = Some (touchingGhost scatter))
    by reflexivity.
  assert (Hc : inContact G (touchingGhost scatter) = true)
    by (vm_compute; reflexivity).
  split; [exact Hn|]. split; [exact Hc|].
  exact (proj1 (contact_resolution G 0 (touchingGhost scatter) Hn Hc)).
Defined.

(** C1, as stated, fails twice.  A pursuer in scatter mode caught while
    the power state is active is not put in dead mode: it keeps its mode.
    And a pursuer that is already in dead mode, touched while the power
    state is active, yields 200 points and costs no life. *)
Lemma contact_never_kills :
  let G := with_ghosts [touchingGhost scatter] (with_state poweredState sampleGame) in
  let D := with_ghosts [touchingGhost dead] (with_state poweredState sampleGame) in
  (inContact G (touchingGhost scatter) = true /\
   GameState.powerPelletActive (state G) = true /\
   GameState.score (state (collideGhost 0 G)) = (GameState.score (state G) + 200)%Z /\
   map Ghost.mode (ghosts (collideGhost 0 G)) = [scatter]) /\
  (inContact D (touchingGhost dead) = true /\
   GameState.powerPelletActive (state D) = true /\
   GameState.lives (state (collideGhost 0 D)) = GameState.lives (state D) /\
   GameState.score (state (collideGhost 0 D)) = (GameState.score (state D) + 200)%Z).
Proof. vm_compute. repeat split; reflexivity. Qed.

(* ------------------------------------------------------------------ *)
(** ** Power-pellet activation *)



(* ------------------------------------------------------------------ *)
(** ** Pellet accounting *)

Lemma countRow_nonneg row : (0 <= countRow row)%Z.
Proof.
  induction row as [|c row IH]; simpl; [lia|].
  destruct (isPelletCode c); lia.
Qed.

Lemma pelletCount_nonneg m : (0 <= pelletCount m)%Z.
Proof.
  induction m as [|row m IH]; simpl; [lia|].
  pose proof (countRow_nonneg row). lia.
Qed.

Lemma countRow_setNth row : forall i c v,
  nth_error row i = Some c ->
  countRow (setNth i v row) =
  (countRow row - (if isPelletCode c then 1 else 0)
                + (if isPelletCode v then 1 else 0))%Z.
Proof.
  induction row as [|h row IH]; intros [|i] c v H; simpl in *;
    try discriminate.
  - inversion H; subst. destruct (isPelletCode c), (isPelletCode v); lia.
  - rewrite (IH i c v H). destruct (isPelletCode h); lia.
Qed.

Lemma pelletCount_setNth m : forall j row row',
  nth_error m j = Some row ->
  pelletCount (setNth j row' m) =
  (pelletCount m - countRow row + countRow row')%Z.
Proof.
  induction m as [|h m IH]; intros [|j] row row' H; simpl in *;
    try discriminate.
  - inversion H; subst. lia.
  - rewrite (IH j row row' H). lia.
Qed.

Lemma cellAt_inv m gx gy c :
  cellAt m gx gy = Some c ->
  exists row, nth_error m (Z.to_nat gy) = Some row /\
              nth_error row (Z.to_nat gx) = Some c.
Proof.
  unfold cellAt. destruct ((0 <=? gy)%Z && (0 <=? gx)%Z); [|discriminate].
  destruct (nth_error m (Z.to_nat gy)) as [row|]; [|discriminate].
  intro H. exists row. split; [reflexivity|exact H].
Qed.

(** Emptying a cell lowers the pellet count by one exactly when the cell
    held a pellet or a power pellet. *)
Lemma pelletCount_setCell m gx gy c :
  cellAt m gx gy = Some c ->
  pelletCount (setCell m gx gy 0%Z) =
  (pelletCount m - (if isPelletCode c then 1 else 0))%Z.
Proof.
  intro H. destruct (cellAt_inv _ _ _ _ H) as [row [Hr Hc]].
  unfold setCell. rewrite Hr.
  rewrite (pelletCount_setNth m _ row _ Hr).
  rewrite (countRow_setNth row _ c 0%Z Hc). simpl. lia.
Qed.

Lemma cellAt_setCell m gx gy c v :
  cellAt m gx gy = Some c -> cellAt (setCell m gx gy v) gx gy = Some v.
Proof.
  intro H. destruct (cellAt_inv _ _ _ _ H) as [row [Hr Hc]].
  unfold cellAt in *. unfold setCell. rewrite Hr.
  destruct ((0 <=? gy)%Z && (0 <=? gx)%Z); [|discriminate].
  rewrite setNth_same by (apply nth_error_Some; congruence).
  apply setNth_same. apply nth_error_Some. congruence.
Qed.

Lemma sameMaze_refl G : sameMaze G G.
Proof. split; reflexivity. Qed.

Lemma sameMaze_trans G1 G2 G3 :
  sameMaze G1 G2 -> sameMaze G2 G3 -> sameMaze G1 G3.
Proof. intros [A B] [C D]. split; congruence. Qed.

Lemma updatePacman_maze dt G : sameMaze G (updatePacman dt G).
Proof.
  unfold updatePacman.
  destruct (pacmanTunnelWrap G _) as [[wx wy]|].
  - split; reflexivity.
  - destruct (isValidPosition G _ _ _); [|apply sameMaze_refl].
    destruct (animateMouth (pacman G)). split; reflexivity.
Qed.

Lemma updateGhosts_maze dt G : sameMaze G (updateGhosts dt G).
Proof.
  unfold updateGhosts.
  destruct (updateGhostList G (rng G) dt (ghosts G)) as [gl t].
  split; reflexivity.
Qed.

Lemma powerTimerStep_maze dt G : sameMaze G (powerTimerStep dt G).
Proof.
  unfold powerTimerStep.
  destruct (GameState.powerPelletActive (state G)); [|apply sameMaze_refl].
  destruct (Qle_bool _ 0); split; reflexivity.
Qed.

Lemma collideGhost_maze i G : sameMaze G (collideGhost i G).
Proof.
  unfold collideGhost.
  destruct (nth_error (ghosts G) i) as [ghost|]; [|apply sameMaze_refl].
  destruct (inContact G ghost); [|apply sameMaze_refl].
  destruct (GameState.powerPelletActive (state G)); split; reflexivity.
Qed.

Lemma ghostCollisions_maze G : sameMaze G (ghostCollisions G).
Proof.
  unfold ghostCollisions. generalize (seq 0 (List.length (ghosts G))).
  intro l. revert G. induction l as [|i l IH]; intro G; simpl.
  - apply sameMaze_refl.
  - eapply sameMaze_trans; [apply collideGhost_maze | apply IH].
Qed.

Lemma sameMaze_tracked G G' : sameMaze G G' -> pelletsTracked G -> pelletsTracked G'.
Proof. unfold pelletsTracked. intros [A B] H. congruence. Qed.

(** What pellet collection does, by the kind of the protagonist's cell. *)
Lemma collectPellet_spec G :
  let cell := cellAt (gameMap G) (fst (pacmanCell G)) (snd (pacmanCell G)) in
  let G' := collectPellet G in
  let eaten := match cell with
               | Some c => isPelletCode c
               | None => false
               end in
  GameState.pelletsRemaining (state G') =
    (GameState.pelletsRemaining (state G) - (if eaten then 1 else 0))%Z /\
  pelletCount (gameMap G') = (pelletCount (gameMap G) - (if eaten then 1 else 0))%Z /\
  (cell = Some PELLET ->
     GameState.score (state G') = (GameState.score (state G) + 10)%Z /\
     cellAt (gameMap G') (fst (pacmanCell G)) (snd (pacmanCell G)) = Some EMPTY) /\
  (cell = Some POWER_PELLET ->
     GameState.score (state G') = (GameState.score (state G) + 50)%Z /\
     cellAt (gameMap G') (fst (pacmanCell G)) (snd (pacmanCell G)) = Some EMPTY) /\
  (eaten = false -> G' = G).
Proof.
  unfold collectPellet. destruct (pacmanCell G) as [gx gy]. simpl fst. simpl snd.
  destruct (cellAt (gameMap G) gx gy) as [c|] eqn:Hc; cbv zeta.
  - unfold isPelletCode.
    destruct (c =? 2)%Z eqn:E2; [|destruct (c =? 3)%Z eqn:E3].
    + apply Z.eqb_eq in E2. subst c. simpl.
      rewrite (pelletCount_setCell _ _ _ _ Hc). simpl.
      split; [lia|]. split; [lia|]. split; [|split].
      * intros _. split; [reflexivity|]. apply (cellAt_setCell _ _ _ _ _ Hc).
      * discriminate.
      * discriminate.
    + apply Z.eqb_eq in E3. subst c. simpl.
      rewrite (pelletCount_setCell _ _ _ _ Hc). simpl.
      split; [lia|]. split; [lia|]. split; [|split].
      * discriminate.
      * intros _. split; [reflexivity|]. apply (cellAt_setCell _ _ _ _ _ Hc).
      * discriminate.
    + simpl. split; [lia|]. split; [lia|]. split; [|split].
      * intro H. inversion H. subst c. discriminate.
      * intro H. inversion H. subst c. discriminate.
      * reflexivity.
  - simpl. split; [lia|]. split; [lia|]. split; [|split].
    + discriminate.
    + discriminate.
    + reflexivity.
Qed.

Lemma collectPellet_tracked G : pelletsTracked G -> pelletsTracked (collectPellet G).
Proof.
  unfold pelletsTracked. intro H.
  destruct (collectPellet_spec G) as [A [B _]]. rewrite A, B, H. reflexivity.
Qed.

Lemma nextLevel_tracked G : pelletsTracked (nextLevel G).
Proof. reflexivity. Qed.

Lemma restart_tracked G : pelletsTracked (restart G).
Proof. reflexivity. Qed.

Lemma newGame_tracked gs t : pelletsTracked (newGame gs t).
Proof. reflexivity. Qed.

Lemma beforeCollisions_maze dt G : sameMaze G (beforeCollisions dt G).
Proof.
  unfold beforeCollisions.
  eapply sameMaze_trans; [apply updatePacman_maze|].
  eapply sameMaze_trans; [apply updateGhosts_maze|].
  apply powerTimerStep_maze.
Qed.

Lemma checkCollisions_tracked G : pelletsTracked G -> pelletsTracked (checkCollisions G).
Proof.
  intro H. unfold checkCollisions.
  apply (sameMaze_tracked _ _ (ghostCollisions_maze _)).
  apply collectPellet_tracked. exact H.
Qed.

Lemma update_tracked dt G : pelletsTracked G -> pelletsTracked (update dt G).
Proof.
  intro H. unfold update. fold (beforeCollisions dt G).
  destruct (_ <=? 0)%Z; [apply nextLevel_tracked|].
  apply checkCollisions_tracked.
  apply (sameMaze_tracked _ _ (beforeCollisions_maze dt G) H).
Qed.

Lemma step_tracked G e : pelletsTracked G -> pelletsTracked (step G e).
Proof.
  intro H.
  destruct e as [elapsed|key|key| | |dir|vw vh]; simpl;
    [| | | unfold togglePause; destruct (GameState.current (state G)); exact H
     | apply (restart_tracked G) | exact H | exact H].
  - unfold gameLoop. destruct (GameState.current (state G)); auto.
    apply update_tracked; exact H.
  - unfold handleKeyDown.
    repeat match goal with
           | |- context [if ?b then _ else _] => destruct b
           end; try exact H.
    + unfold togglePause; simpl.
      destruct (GameState.current (state G)); exact H.
    + destruct (GameState.current (state G)); try exact H.
      apply restart_tracked.
  - unfold handleKeyUp.
    repeat match goal with
           | |- context [if ?b then _ else _] => destruct b
           end; exact H.
Qed.

Lemma run_tracked evs G : pelletsTracked G -> pelletsTracked (run evs G).
Proof.
  unfold run. revert G. induction evs as [|e evs IH]; intros G H; simpl.
  - exact H.
  - apply IH. apply step_tracked. exact H.
Qed.

Lemma isPelletCode_spec c :
  isPelletCode c = true <-> c = PELLET \/ c = POWER_PELLET.
Proof.
  unfold isPelletCode, PELLET, POWER_PELLET.
  rewrite orb_true_iff, !Z.eqb_eq. tauto.
Qed.

(** C3. In every state a game can reach, and for every time step: the
    pellet counter after the contact arbiter is the counter before the
    tick minus one exactly when the protagonist's cell holds a pellet or a
    power pellet, and is unchanged otherwise; the cell then becomes empty
    and pellet collection adds 10, respectively 50, to the score; the
    counter is never negative; the tick ends with a level advance exactly
    when the counter has reached 0; and a level advance adds one to the
    level, rebuilds the maze from the template with its full count, puts
    the protagonist at one and a half cells across and down and the
    pursuer of index [i] at [5 + i] cells across and 5 down, changing
    nothing else of them, and keeps score and lives. *)
Theorem pellet_consumption (gs : Q) (t : Tape) (evs : list Event) (deltaTime : Q) :
  let G := run evs (newGame gs t) in
  let G3 := beforeCollisions deltaTime G in
  let cell := cellAt (gameMap G3) (fst (pacmanCell G3)) (snd (pacmanCell G3)) in
  let G4 := checkCollisions G3 in
  let before := GameState.pelletsRemaining (state G) in
  let left := GameState.pelletsRemaining (state G4) in
  (left = (before - 1)%Z <-> cell = Some PELLET \/ cell = Some POWER_PELLET) /\
  (left = before \/ left = (before - 1)%Z) /\
  (cell = Some PELLET ->
     GameState.score (state (collectPellet G3)) = (GameState.score (state G3) + 10)%Z /\
     cellAt (gameMap G4) (fst (pacmanCell G3)) (snd (pacmanCell G3)) = Some EMPTY) /\
  (cell = Some POWER_PELLET ->
     GameState.score (state (collectPellet G3)) = (GameState.score (state G3) + 50)%Z /\
     cellAt (gameMap G4) (fst (pacmanCell G3)) (snd (pacmanCell G3)) = Some EMPTY) /\
  (0 <= before)%Z /\ (0 <= left)%Z /\
  update deltaTime G = (if (left =? 0)%Z then nextLevel G4 else G4) /\
  GameState.level (state (nextLevel G4)) = (GameState.level (state G4) + 1)%Z /\
  GameState.score (state (nextLevel G4)) = GameState.score (state G4) /\
  GameState.lives (state (nextLevel G4)) = GameState.lives (state G4) /\
  gameMap (nextLevel G4) = createDefaultMap /\
  GameState.pelletsRemaining (state (nextLevel G4)) = pelletCount createDefaultMap /\
  pacman (nextLevel G4) =
    Pacman.with_xy (GRID_SIZE G4 * (15 # 10)) (GRID_SIZE G4 * (15 # 10)) (pacman G4) /\
  List.length (ghosts (nextLevel G4)) = List.length (ghosts G4) /\
  (forall i ghost, nth_error (ghosts G4) i = Some ghost ->
     exists ghost', nth_error (ghosts (nextLevel G4)) i = Some ghost' /\
       Ghost.x ghost' = GRID_SIZE G4 * (5 + inject_Z (Z.of_nat i)) /\
       Ghost.y ghost' = GRID_SIZE G4 * 5 /\
       ghost' = Ghost.with_xy (Ghost.x ghost') (Ghost.y ghost') ghost).
Proof.
  intros G G3 cell G4 before left.
  assert (HG : pelletsTracked G) by (apply run_tracked, newGame_tracked).
  destruct (beforeCollisions_maze deltaTime G) as [M3 P3]. fold G3 in M3, P3.
  assert (H3 : pelletsTracked G3)
    by (apply (sameMaze_tracked _ _ (beforeCollisions_maze deltaTime G) HG)).
  destruct (ghostCollisions_maze (collectPellet G3)) as [M4 P4].
  fold (checkCollisions G3) in M4, P4. fold G4 in M4, P4.
  destruct (collectPellet_spec G3) as [A [B [C [D E]]]]. fold cell in A, B, C, D, E.
  assert (H4 : pelletsTracked G4) by (apply checkCollisions_tracked, H3).
  assert (L : left = (before - (if match cell with
                                    | Some c => isPelletCode c
                                    | None => false
                                    end then 1 else 0))%Z).
  { unfold left, before. rewrite P4, A, P3. reflexivity. }
  assert (Hb : (0 <= before)%Z).
  { unfold before. rewrite HG. apply pelletCount_nonneg. }
  assert (Hl : (0 <= left)%Z).
  { unfold left. rewrite H4. apply pelletCount_nonneg. }
  split; [|split; [|split; [|split; [|split; [|split; [|split]]]]]].
  - rewrite L. destruct cell as [c|].
    + destruct (isPelletCode c) eqn:Ec.
      * split; [intros _|intros _; lia].
        apply isPelletCode_spec in Ec. destruct Ec; subst; auto.
      * split; [lia|]. intros [H|H]; inversion H; subst c; discriminate.
    + split; [lia|]. intros [H|H]; discriminate.
  - rewrite L. destruct (match cell with Some c => isPelletCode c | None => false end);
      [right|left]; lia.
  - intro H. destruct (C H) as [C1 C2]. split; [exact C1|].
    rewrite M4. exact C2.
  - intro H. destruct (D H) as [D1 D2]. split; [exact D1|].
    rewrite M4. exact D2.
  - exact Hb.
  - exact Hl.
  - unfold update. fold (beforeCollisions deltaTime G). fold G3. fold G4. fold left.
    destruct (left <=? 0)%Z eqn:E1, (left =? 0)%Z eqn:E2; try reflexivity.
    + apply Z.leb_le in E1. apply Z.eqb_neq in E2. lia.
    + apply Z.leb_gt in E1. apply Z.eqb_eq in E2. lia.
  - split; [reflexivity|]. split; [reflexivity|]. split; [reflexivity|].
    split; [reflexivity|]. split; [reflexivity|]. split; [reflexivity|].
    split; [exact (resetGhosts_length (GRID_SIZE G4) (ghosts G4) 0%Z)|].
    intros i ghost Hi.
    exists (Ghost.with_xy (GRID_SIZE G4 * (5 + inject_Z (Z.of_nat i)))
                          (GRID_SIZE G4 * 5) ghost).
    split; [exact (resetGhosts_nth (GRID_SIZE G4) (ghosts G4) 0%Z i ghost Hi)|].
    split; [reflexivity|]. split; reflexivity.
Qed.

(* ------------------------------------------------------------------ *)
(** ** The choice made by a re-selection *)

Section Selection.

Variable ok : nat -> bool.
Variable dist : nat -> Q.

Lemma pickStep_Picked d0 seen b d :
  Picked ok dist d0 seen b ->
  Picked ok dist d0 (seen ++ [d]) (pickStep ok dist b d).
Proof.
  intro P. unfold pickStep. destruct (ok d) eqn:Ed.
  - destruct P as [Hnone | bd l1 l2 Hs Hok Hlt Hle]; simpl.
    + apply (Picked_some ok dist d0 _ d seen []); auto.
      * intros c Hc Hokc. rewrite (Hnone c Hc) in Hokc. discriminate.
      * intros c [].
    + destruct (Qltb (dist d) (dist bd)) eqn:Ecl.
      * apply Qltb_lt in Ecl.
        apply (Picked_some ok dist d0 _ d seen []); auto.
        -- intros c Hc Hokc. subst seen.
           apply in_app_or in Hc. destruct Hc as [Hc|[Hc|Hc]].
           ++ apply (Qlt_trans _ (dist bd)); auto.
           ++ subst c. exact Ecl.
           ++ apply (Qlt_le_trans _ (dist bd)); auto.
        -- intros c [].
      * apply Qltb_ge in Ecl.
        apply (Picked_some ok dist d0 _ bd l1 (l2 ++ [d])); auto.
        -- subst seen. rewrite <- app_assoc. reflexivity.
        -- intros c Hc Hokc. apply in_app_or in Hc.
           destruct Hc as [Hc|[Hc|[]]]; auto. subst c. exact Ecl.
  - destruct P as [Hnone | bd l1 l2 Hs Hok Hlt Hle].
    + apply Picked_none. intros c Hc. apply in_app_or in Hc.
      destruct Hc as [Hc|[Hc|[]]]; auto. subst c. exact Ed.
    + apply (Picked_some ok dist d0 _ bd l1 (l2 ++ [d])); auto.
      * subst seen. rewrite <- app_assoc. reflexivity.
      * intros c Hc Hokc. apply in_app_or in Hc.
        destruct Hc as [Hc|[Hc|[]]]; auto. subst c. congruence.
Qed.

Lemma fold_Picked d0 : forall l seen b,
  Picked ok dist d0 seen b ->
  Picked ok dist d0 (seen ++ l) (fold_left (pickStep ok dist) l b).
Proof.
  induction l as [|d l IH]; intros seen b P; simpl.
  - rewrite app_nil_r. exact P.
  - replace (seen ++ d :: l) with ((seen ++ [d]) ++ l)
      by (rewrite <- app_assoc; reflexivity).
    apply IH. apply pickStep_Picked. exact P.
Qed.

(** The outcome of the running minimum over a whole enumeration. *)
Lemma pick_all d0 l :
  Picked ok dist d0 l (fold_left (pickStep ok dist) l (d0, None)).
Proof.
  apply (fold_Picked d0 l [] (d0, None)).
  apply Picked_none. intros c [].
Qed.

End Selection.

Lemma reverseDir_lt d : (reverseDir d < 4)%nat.
Proof. unfold reverseDir. apply Nat.mod_upper_bound. lia. Qed.

(** One iteration of the [forEach] is one step of the running minimum,
    as long as the tape is still untouched when the reverse comes up. *)
Lemma consider_step G ghost tgt t0 b d :
  (d = reverseDir (Ghost.direction ghost) -> bestTape b = t0) ->
  considerDirection G ghost tgt b d =
  mkBest
    (fst (pickStep (headingOk G t0 ghost) (probeDist2 ghost tgt)
            (bestDirection b, bestDistance b) d))
    (snd (pickStep (headingOk G t0 ghost) (probeDist2 ghost tgt)
            (bestDirection b, bestDistance b) d))
    (if (d =? reverseDir (Ghost.direction ghost))%nat
     then snd (Math_random (bestTape b)) else bestTape b).
Proof.
  intro H. unfold considerDirection, pickStep, headingOk, reverseAllowed.
  destruct (Nat.eqb_spec d (reverseDir (Ghost.direction ghost))) as [E|E].
  - rewrite <- (H E). unfold Math_random. cbn [fst snd negb orb].
    destruct (Qltb (2 # 10) (draws (bestTape b) (cursor (bestTape b))));
      cbn [negb andb fst snd]; [reflexivity|].
    destruct (probeValid G ghost d); cbn [fst snd]; [|reflexivity].
    destruct (closer _ _); reflexivity.
  - cbn [negb orb andb].
    destruct (probeValid G ghost d); cbn [fst snd]; [|reflexivity].
    destruct (closer _ _); reflexivity.
Qed.

Lemma consider_fold_gen G ghost tgt t0 : forall l b,
  NoDup l ->
  (In (reverseDir (Ghost.direction ghost)) l -> bestTape b = t0) ->
  let b' := fold_left (considerDirection G ghost tgt) l b in
  (bestDirection b', bestDistance b') =
    fold_left (pickStep (headingOk G t0 ghost) (probeDist2 ghost tgt)) l
              (bestDirection b, bestDistance b) /\
  bestTape b' =
    if existsb (Nat.eqb (reverseDir (Ghost.direction ghost))) l
    then snd (Math_random (bestTape b)) else bestTape b.
Proof.
  induction l as [|d l IH]; intros b ND Ht; cbn [fold_left existsb].
  - split; reflexivity.
  - inversion ND as [|? ? Hnotin ND']; subst.
    rewrite (consider_step G ghost tgt t0 b d)
      by (intro E; apply Ht; left; exact E).
    set (p := pickStep _ _ _ d).
    destruct (Nat.eqb_spec d (reverseDir (Ghost.direction ghost))) as [E|E].
    + rewrite <- E, Nat.eqb_refl. cbn [orb].
      lazymatch goal with
      | |- context [fold_left _ l ?b1] =>
          destruct (IH b1 ND') as [A B];
            [intro Hin; exfalso; apply Hnotin; rewrite E; exact Hin|]
      end.
      cbn [bestDirection bestDistance bestTape] in A, B.
      rewrite <- surjective_pairing in A. split; [exact A|].
      rewrite B. rewrite <- E.
      destruct (existsb (Nat.eqb d) l) eqn:Ex; [|reflexivity].
      exfalso. apply existsb_exists in Ex. destruct Ex as [x [Hx Hd]].
      apply Nat.eqb_eq in Hd. subst x. exact (Hnotin Hx).
    + assert (E' : (reverseDir (Ghost.direction ghost) =? d)%nat = false)
        by (apply Nat.eqb_neq; congruence).
      rewrite E'. cbn [orb].
      lazymatch goal with
      | |- context [fold_left _ l ?b1] =>
          destruct (IH b1 ND') as [A B];
            [intro Hin; cbn [bestTape]; apply Ht; right; exact Hin|]
      end.
      cbn [bestDirection bestDistance bestTape] in A, B.
      rewrite <- surjective_pairing in A. split; [exact A|exact B].
Qed.

(** The [forEach] of [chooseGhostDirection] is a running minimum over
    the legal candidates, and makes exactly one draw. *)
Lemma consider_fold G ghost tgt t0 :
  let b := fold_left (considerDirection G ghost tgt) [0; 1; 2; 3]%nat
             (mkBest (Ghost.direction ghost) None t0) in
  (bestDirection b, bestDistance b) =
    fold_left (pickStep (headingOk G t0 ghost) (probeDist2 ghost tgt))
              [0; 1; 2; 3]%nat (Ghost.direction ghost, None) /\
  bestTape b = snd (Math_random t0).
Proof.
  pose proof (reverseDir_lt (Ghost.direction ghost)) as Hlt.
  assert (ND : NoDup [0; 1; 2; 3]%nat).
  { repeat constructor; simpl; intuition lia. }
  destruct (consider_fold_gen G ghost tgt t0 [0; 1; 2; 3]%nat
              (mkBest (Ghost.direction ghost) None t0) ND (fun _ => eq_refl))
    as [A B].
  split; [exact A|].
  rewrite B. cbn [bestTape].
  destruct (reverseDir (Ghost.direction ghost)) as [|[|[|[|n]]]];
    try reflexivity; lia.
Qed.

Lemma after_split_0123 l1 bd l2 :
  [0; 1; 2; 3]%nat = l1 ++ bd :: l2 -> forall c, In c l2 -> (bd < c)%nat.
Proof.
  intros H c Hc.
  destruct l1 as [|a [|b [|e [|f l1]]]]; simpl in H; inversion H; subst;
    simpl in Hc; try lia.
  destruct l1; discriminate.
Qed.

(** Membership among the legal candidates. *)
Lemma legalHeadings_spec G t ghost d :
  In d (legalHeadings G t ghost) <->
  (d < 4)%nat /\ probeValid G ghost d = true /\
  (d = reverseDir (Ghost.direction ghost) -> fst (Math_random t) <= 2 # 10).
Proof.
  unfold legalHeadings. rewrite filter_In. unfold headingOk, reverseAllowed.
  rewrite andb_true_iff, orb_true_iff, !negb_true_iff, Nat.eqb_neq, Qltb_ge.
  split.
  - intros [Hin [[Hne|Hr] Hv]]; (split; [simpl in Hin; lia|]); split; auto.
    intro E. contradiction.
  - intros [Hlt [Hv Hr]]. split; [simpl; lia|]. split; [|exact Hv].
    destruct (Nat.eq_dec d (reverseDir (Ghost.direction ghost))) as [E|E];
      [right; auto|left; exact E].
Qed.

(** What [chooseGhostDirection] returns: the same pursuer with, as its
    heading, the first closest legal candidate, or its old heading when
    there is no legal candidate; the tape has advanced by the one draw. *)
Lemma chooseGhostDirection_spec G t ghost target :
  let tgt := match target with
             | Some p => p
             | None => fst (getGhostTarget G t ghost)
             end in
  let t0 := match target with
            | Some _ => t
            | None => snd (getGhostTarget G t ghost)
            end in
  let g' := fst (chooseGhostDirection G t ghost target) in
  let cands := legalHeadings G t0 ghost in
  g' = Ghost.with_direction (Ghost.direction g') ghost /\
  snd (chooseGhostDirection G t ghost target) = snd (Math_random t0) /\
  (cands = [] -> Ghost.direction g' = Ghost.direction ghost) /\
  (cands <> [] ->
     In (Ghost.direction g') cands /\
     forall c, In c cands ->
       probeDist2 ghost tgt (Ghost.direction g') <= probeDist2 ghost tgt c /\
       (probeDist2 ghost tgt c == probeDist2 ghost tgt (Ghost.direction g') ->
        (Ghost.direction g' <= c)%nat)).
Proof.
  intros tgt t0 g' cands.
  assert (Hch : chooseGhostDirection G t ghost target =
                let b := fold_left (considerDirection G ghost tgt) [0; 1; 2; 3]%nat
                           (mkBest (Ghost.direction ghost) None t0) in
                (Ghost.with_direction (bestDirection b) ghost, bestTape b)).
  { unfold chooseGhostDirection, tgt, t0. destruct target as [p|].
    - reflexivity.
    - destruct (getGhostTarget G t ghost) as [p t1]. reflexivity. }
  destruct (consider_fold G ghost tgt t0) as [A B].
  pose proof (pick_all (headingOk G t0 ghost) (probeDist2 ghost tgt)
                (Ghost.direction ghost) [0; 1; 2; 3]%nat) as P.
  rewrite <- A in P. clear A.
  set (b := fold_left (considerDirection G ghost tgt) [0; 1; 2; 3]%nat
              (mkBest (Ghost.direction ghost) None t0)) in *.
  cbv zeta in Hch.
  assert (Hg : g' = Ghost.with_direction (bestDirection b) ghost)
    by (unfold g'; rewrite Hch; reflexivity).
  assert (Hd : Ghost.direction g' = bestDirection b)
    by (rewrite Hg; reflexivity).
  split; [rewrite Hd; exact Hg|].
  split; [rewrite Hch; exact B|].
  rewrite Hd. clearbody b.
  remember (bestDirection b, bestDistance b) as r eqn:Hr.
  destruct P as [Hnone | bd l1 l2 Hs Hok Hlt Hle];
    pose proof (f_equal fst Hr) as Hbd; cbn [fst] in Hbd; rewrite <- Hbd;
    clear Hr Hbd.
  - split; [reflexivity|].
    intro Hne. exfalso. apply Hne. unfold cands, legalHeadings.
    simpl. rewrite !Hnone by (simpl; tauto). reflexivity.
  - assert (Hin : In bd cands).
    { unfold cands, legalHeadings. apply filter_In. split; [|exact Hok].
      rewrite Hs. apply in_or_app. right. left. reflexivity. }
    split.
    + intro He. rewrite He in Hin. destruct Hin.
    + intros _. split; [exact Hin|].
      intros c Hc. unfold cands, legalHeadings in Hc.
      apply filter_In in Hc. destruct Hc as [Hc Hokc].
      rewrite Hs in Hc. apply in_app_or in Hc. destruct Hc as [Hc|[Hc|Hc]].
      * pose proof (Hlt c Hc Hokc) as L. split; [apply Qlt_le_weak; exact L|].
        intro E. rewrite E in L. exfalso. exact (Qlt_irrefl _ L).
      * subst c. split; [apply Qle_refl|]. intros _. lia.
      * split; [exact (Hle c Hc Hokc)|]. intros _.
        pose proof (after_split_0123 l1 bd l2 Hs c Hc). lia.
Qed.





(** Where [strandedInky] comes from: the reset after a lost life moves
    the third pursuer, still waiting, to 7 cells across; its release lifts
    it to 11.5 cells down, facing up; its first step is rejected and the
    re-selection turns it left; a power pellet eaten on that tick reverses
    the heading and frightens it. *)
Lemma strandedInky_origin :
  let G := resetPositions sampleGame in
  let released := houseExit G 4 (nth 2 (ghosts G) strandedInky) in
  let turned := fst (moveGhost G (constTape (1 # 2)) (1 # 60) released) in
  let scared := frighten turned in
  Ghost.inGhostHouse released = false /\
  Ghost.direction released = 3%nat /\
  Ghost.direction turned = 2%nat /\
  (Ghost.x scared == Ghost.x strandedInky) /\
  (Ghost.y scared == Ghost.y strandedInky) /\
  Ghost.direction scared = Ghost.direction strandedInky /\
  Ghost.mode scared = Ghost.mode strandedInky /\
  Ghost.size scared == Ghost.size strandedInky /\
  Ghost.speed scared == Ghost.speed strandedInky.
Proof. vm_compute. repeat split; reflexivity. Qed.

(* ------------------------------------------------------------------ *)
(** ** Rejected steps *)

(** C4, as the code has it.  A step of the protagonist that is neither
    a tunnel wrap nor valid changes nothing at all.  A step of a pursuer
    that is neither a tunnel wrap nor valid leaves the pursuer where it
    is and, on the same tick, runs a re-selection: only the heading may
    change, it becomes one of the legal candidates when there is one and
    stays as it was when there is none. *)
Theorem rejected_step (G : PacmanGame) (t : Tape) (deltaTime : Q)
    (ghost : Ghost.t) :
  (let p := pacman G in
   let nd := requestedDirection (keys G) (Pacman.direction p) in
   pacmanTunnelWrap G nd = None ->
   isValidPosition G
     (Pacman.x p + fst (dirVec nd) * Pacman.speed p * deltaTime)
     (Pacman.y p + snd (dirVec nd) * Pacman.speed p * deltaTime)
     (Pacman.size p) = false ->
   updatePacman deltaTime G = G) /\
  (ghostTunnelWrap G deltaTime ghost = None ->
   isValidPosition G (fst (ghostCandidate deltaTime ghost))
     (snd (ghostCandidate deltaTime ghost)) (Ghost.size ghost) = false ->
   let g' := fst (moveGhost G t deltaTime ghost) in
   let cands := legalHeadings G (snd (getGhostTarget G t ghost)) ghost in
   moveGhost G t deltaTime ghost = chooseGhostDirection G t ghost None /\
   Ghost.x g' = Ghost.x ghost /\ Ghost.y g' = Ghost.y ghost /\
   g' = Ghost.with_direction (Ghost.direction g') ghost /\
   (cands = [] -> Ghost.direction g' = Ghost.direction ghost) /\
   (cands <> [] -> In (Ghost.direction g') cands)).
Proof.
  split.
  - intros p nd Hw Hv. unfold updatePacman. fold p. fold nd.
    rewrite Hw, Hv. reflexivity.
  - intros Hw Hv g' cands.
    assert (E : moveGhost G t deltaTime ghost = chooseGhostDirection G t ghost None).
    { unfold moveGhost. destruct (ghostCandidate deltaTime ghost) as [nx ny].
      simpl in Hv. rewrite Hw, Hv. reflexivity. }
    destruct (chooseGhostDirection_spec G t ghost None) as [A [_ [C D]]].
    unfold g'. rewrite E.
    split; [reflexivity|].
    split; [rewrite A; reflexivity|].
    split; [rewrite A; reflexivity|].
    split; [exact A|]. split; [exact C|].
    intro Hne. exact (proj1 (D Hne)).
Qed.

Lemma rejected_step_witness :
  let G := with_keys (mkKeys true false false false false)
             (with_pacman (Pacman.with_xy (551 # 2) 514 (pacman sampleGame))
                sampleGame) in
  let ghost := sampleGhost Blinky aggressive (551 # 2) (495 # 2) 3%nat scatter 160 in
  updatePacman (1 # 60) G = G /\
  Ghost.y (fst (moveGhost G (constTape (1 # 2)) (1 # 60) ghost)) = Ghost.y ghost.
Proof.
  intros G ghost.
  destruct (rejected_step G (constTape (1 # 2)) (1 # 60) ghost) as [P M].
  split.
  - apply P; vm_compute; reflexivity.
  - apply M; vm_compute; reflexivity.
Defined.

(** C4, as stated, fails in its last clause.  On the built-in maze a
    pursuer at (152, 218.5), where the fourth pursuer leaves the pen when
    a life was lost before its release, has no legal look-ahead point:
    its step is rejected, the re-selection keeps its heading, and it is
    exactly where and as it was; ninety ticks later it has not moved. *)
Lemma walled_in_pursuer_stalls :
  ghostTunnelWrap sampleGame (1 # 30) strandedClyde = None /\
  isValidPosition sampleGame (fst (ghostCandidate (1 # 30) strandedClyde))
    (snd (ghostCandidate (1 # 30) strandedClyde)) (Ghost.size strandedClyde) = false /\
  map (probeValid sampleGame strandedClyde) [0; 1; 2; 3]%nat
    = [false; false; false; false] /\
  map (stepValid sampleGame (1 # 30) strandedClyde) [0; 1; 2; 3]%nat
    = [false; false; false; false] /\
  fst (moveGhost sampleGame (constTape (1 # 2)) (1 # 30) strandedClyde)
    = strandedClyde /\
  (let later := Nat.iter 90
                  (fun g => fst (updateGhost sampleGame (constTape (1 # 2)) (1 # 30) g))
                  strandedClyde in
   (Ghost.x later, Ghost.y later, Ghost.direction later) = (152, 437 # 2, 3%nat)).
Proof. vm_compute. repeat split; reflexivity. Qed.

Lemma Qfloor_unique (x : Q) (n : Z) :
  inject_Z n <= x -> x < inject_Z (n + 1) -> Qfloor x = n.
Proof.
  intros Hl Hu.
  pose proof (Qfloor_resp_le _ _ Hl) as A. rewrite Qfloor_Z in A.
  pose proof (Qfloor_le x) as B.
  assert (C : inject_Z (Qfloor x) < inject_Z (n + 1))
    by (apply (Qle_lt_trans _ x); assumption).
  rewrite <- Zlt_Qlt in C. lia.
Qed.

Lemma floorDiv_unique (x c : Q) (n : Z) :
  0 < c -> inject_Z n * c <= x -> x < inject_Z (n + 1) * c ->
  floorDiv x c = n.
Proof.
  intros Hc Hl Hu. unfold floorDiv. apply Qfloor_unique.
  - apply Qle_shift_div_l; assumption.
  - apply Qlt_shift_div_r; assumption.
Qed.

(** The stall does not depend on the draws or on the frame time: for
    every tape and every time step up to the cap, the move step returns
    the walled-in pursuer exactly as it was. *)
Lemma walled_in_forever t dt :
  0 <= dt -> dt <= MAX_DELTA_TIME ->
  fst (moveGhost sampleGame t dt strandedClyde) = strandedClyde.
Proof.
  unfold MAX_DELTA_TIME. intros H0 H1.
  assert (Hv : isValidPosition sampleGame (fst (ghostCandidate dt strandedClyde))
                 (snd (ghostCandidate dt strandedClyde))
                 (Ghost.size strandedClyde) = false).
  { unfold isValidPosition.
    destruct (_ || _ || _ || _); [reflexivity|].
    assert (Ex : floorDiv (fst (ghostCandidate dt strandedClyde))
                   (GRID_SIZE sampleGame) = 8%Z).
    { apply floorDiv_unique; cbn; try reflexivity; unfold Qle, Qlt; cbn; lia. }
    assert (Ey : floorDiv (snd (ghostCandidate dt strandedClyde))
                   (GRID_SIZE sampleGame) = 11%Z).
    { apply floorDiv_unique; [reflexivity| |];
        unfold ghostCandidate, strandedClyde, sampleGhost, dirVec;
        cbn [fst snd Ghost.x Ghost.y Ghost.direction Ghost.speed nth
             directions GRID_SIZE sampleGame newGame with_state
             with_tunnelRows initializeGameObjects countPellets
             with_ghosts with_pacman];
        unfold inject_Z; cbn [Z.add Pos.add Pos.succ]; lra. }
    rewrite Ex, Ey. vm_compute. reflexivity. }
  assert (E : moveGhost sampleGame t dt strandedClyde =
              chooseGhostDirection sampleGame t strandedClyde None).
  { assert (W : ghostTunnelWrap sampleGame dt strandedClyde = None).
    { unfold ghostTunnelWrap, sampleGame. rewrite newGame_tunnelRows.
      reflexivity. }
    unfold moveGhost.
    destruct (ghostCandidate dt strandedClyde) as [nx ny].
    cbn [fst snd] in Hv. rewrite W, Hv. reflexivity. }
  rewrite E.
  destruct (chooseGhostDirection_spec sampleGame t strandedClyde None)
    as [A [_ [C _]]].
  rewrite A, C; [reflexivity|].
  unfold legalHeadings, headingOk. cbn [filter].
  replace (probeValid sampleGame strandedClyde 0) with false
    by (vm_compute; reflexivity).
  replace (probeValid sampleGame strandedClyde 1) with false
    by (vm_compute; reflexivity).
  replace (probeValid sampleGame strandedClyde 2) with false
    by (vm_compute; reflexivity).
  replace (probeValid sampleGame strandedClyde 3) with false
    by (vm_compute; reflexivity).
  rewrite !andb_false_r. reflexivity.
Qed.

(** Where [strandedClyde] comes from: the reset after a lost life moves
    the fourth pursuer, still waiting, to 8 cells across; its release
    then lifts it to 11.5 cells down, facing up. *)
Lemma strandedClyde_origin :
  let G := resetPositions sampleGame in
  let released := houseExit G 6 (nth 3 (ghosts G) strandedClyde) in
  (Ghost.x released == Ghost.x strandedClyde) /\
  (Ghost.y released == Ghost.y strandedClyde) /\
  Ghost.direction released = Ghost.direction strandedClyde /\
  Ghost.mode released = Ghost.mode strandedClyde /\
  Ghost.inGhostHouse released = false /\
  Ghost.size released == Ghost.size strandedClyde /\
  Ghost.speed released == Ghost.speed strandedClyde.
Proof. vm_compute. repeat split; reflexivity. Qed.

(* ------------------------------------------------------------------ *)
(** ** The schedule across a power window *)

(** C7, as the code has it.  Becoming frightened leaves the scatter and
    chase timers as they are, and they do not run while the pursuer is
    frightened (or dead).  The end of the power window does not resume the
    earlier schedule: every frightened pursuer is put in scatter mode at
    normal speed with its scatter timer set to 3 seconds, its chase timer
    kept; the others are untouched. *)
Theorem schedule_across_fright (G : PacmanGame) (ghost : Ghost.t)
    (deltaTime : Q) :
  Ghost.scatterTimer (frighten ghost) = Ghost.scatterTimer ghost /\
  Ghost.chaseTimer (frighten ghost) = Ghost.chaseTimer ghost /\
  (Ghost.mode ghost = frightened \/ Ghost.mode ghost = dead ->
     scheduleStep deltaTime ghost = ghost) /\
  (Ghost.mode ghost = frightened ->
     Ghost.mode (calm ghost) = scatter /\
     Ghost.scatterTimer (calm ghost) = Some 3 /\
     Ghost.chaseTimer (calm ghost) = Ghost.chaseTimer ghost /\
     Ghost.speed (calm ghost) = GAME_SPEED * (8 # 10)) /\
  (Ghost.mode ghost <> frightened -> calm ghost = ghost) /\
  (GameState.powerPelletActive (state G) = true ->
   GameState.powerPelletTimer (state G) - deltaTime <= 0 ->
     ghosts (powerTimerStep deltaTime G) = map calm (ghosts G) /\
     GameState.powerPelletActive (state (powerTimerStep deltaTime G)) = false) /\
  (GameState.powerPelletActive (state G) = true ->
   0 < GameState.powerPelletTimer (state G) - deltaTime ->
     ghosts (powerTimerStep deltaTime G) = ghosts G).
Proof.
  split; [|split; [|split; [|split; [|split; [|split]]]]].
  - unfold frighten. destruct (_ && _); reflexivity.
  - unfold frighten. destruct (_ && _); reflexivity.
  - unfold scheduleStep. intros [H|H]; rewrite H; reflexivity.
  - unfold calm. intro H. rewrite H. repeat split.
  - unfold calm. intro H. destruct (Ghost.mode ghost); try reflexivity.
    congruence.
  - intros Ha Ht. unfold powerTimerStep. rewrite Ha.
    apply Qle_bool_iff in Ht. rewrite Ht. split; reflexivity.
  - intros Ha Ht. unfold powerTimerStep. rewrite Ha.
    destruct (Qle_bool _ 0) eqn:E; [|reflexivity].
    apply Qle_bool_iff in E. exfalso. exact (Qlt_not_le _ _ Ht E).
Qed.

Lemma schedule_across_fright_witness :
  Ghost.mode (frighten midChase) = frightened /\
  Ghost.scatterTimer (calm (frighten midChase)) = Some 3 /\
  ghosts (powerTimerStep 8 (collectPellet frightScene))
    = map calm (ghosts (collectPellet frightScene)).
Proof.
  assert (M : Ghost.mode (frighten midChase) = frightened) by reflexivity.
  destruct (schedule_across_fright (collectPellet frightScene)
              (frighten midChase) 8) as [_ [_ [_ [L [_ [E _]]]]]].
  split; [exact M|]. split.
  - exact (proj1 (proj2 (L M))).
  - apply E; vm_compute; [reflexivity|discriminate].
Defined.

(** C7, as stated, fails.  A pursuer thirteen seconds into its chase
    period (seven seconds left) is frightened by a power pellet; when the
    window closes, 256 ticks of 1/32 s later (a step that is exact in
    binary, so that the countdown reaches 0 on the same tick in the
    source), it is not back in chase mode with its seven seconds: it is
    in scatter mode with a fresh scatter timer of 3 seconds. *)
Lemma fright_restarts_schedule :
  let entered := collectPellet frightScene in
  let left := Nat.iter 256 (powerTimerStep (1 # 32)) entered in
  map (fun g => (Ghost.mode g, Ghost.chaseTimer g)) (ghosts frightScene)
    = [(chase, Some 7)] /\
  map Ghost.mode (ghosts entered) = [frightened] /\
  map Ghost.mode (ghosts (Nat.iter 255 (powerTimerStep (1 # 32)) entered))
    = [frightened] /\
  GameState.powerPelletActive (state left) = false /\
  map (fun g => (Ghost.mode g, Ghost.scatterTimer g, Ghost.chaseTimer g))
      (ghosts left) = [(scatter, Some 3, Some 7)].
Proof. vm_compute. repeat split; reflexivity. Qed.

(* ------------------------------------------------------------------ *)
(** ** The patrol pursuer *)

(** Far from the protagonist, the patrol pursuer in chase mode targets
    the protagonist, in [game.js] as in [ghost.js]. *)
Lemma patrol_far G t ghost :
  Ghost.mode ghost = chase -> Ghost.personality ghost = patrol ->
  sqrt_gt (dist2ToPacman G ghost) (8 * GRID_SIZE G) = true ->
  fst (getGhostTarget G t ghost) = (Pacman.x (pacman G), Pacman.y (pacman G)).
Proof.
  intros Hm Hp Hd. unfold getGhostTarget. rewrite Hm, Hp, Hd. reflexivity.
Qed.

(** Within eight cells it targets the fixed point (40, height - 40) in
    [game.js]: the scatter corner of the fourth pursuer. *)
Lemma patrol_near G t ghost :
  Ghost.mode ghost = chase -> Ghost.personality ghost = patrol ->
  sqrt_gt (dist2ToPacman G ghost) (8 * GRID_SIZE G) = false ->
  fst (getGhostTarget G t ghost) = corners G Clyde.
Proof.
  intros Hm Hp Hd. unfold getGhostTarget. rewrite Hm, Hp, Hd. reflexivity.
Qed.

(** In [ghost.js] the retreat point is the pursuer's own home corner,
    the very point it targets in scatter mode. *)
Lemma patrol_near_class gs px py (g : GhostClass.t) :
  sqrt_gt (sq (px - GhostClass.x g) + sq (py - GhostClass.y g)) (gs * 8) = false ->
  GhostClass.patrolTarget gs px py g = GhostClass.scatterTarget g.
Proof.
  intro H. unfold GhostClass.patrolTarget. rewrite H. reflexivity.
Qed.

Lemma patrol_near_class_cyan cw ch gs px py x y :
  let g := GhostClass.constructor cw ch x y "#00FFFF" patrol in
  sqrt_gt (sq (px - x) + sq (py - y)) (gs * 8) = false ->
  GhostClass.patrolTarget gs px py g = (cw - 40, ch - 40) /\
  GhostClass.scatterTarget g = (cw - 40, ch - 40).
Proof.
  intros g H. split; [|reflexivity].
  rewrite (patrol_near_class gs px py g H). reflexivity.
Qed.

(** C8 on [game.js]: the patrol pursuer (the third one, Inky) in chase
    mode three cells away from the protagonist targets (40, 511), the
    bottom-left corner, while the corner it heads for in scatter mode is
    (492, 511), the bottom-right one. *)
Theorem patrol_retreats_to_another_corner :
  Ghost.personality nearInky = patrol /\
  Ghost.mode nearInky = chase /\
  sqrt_gt (dist2ToPacman sampleGame nearInky) (8 * GRID_SIZE sampleGame) = false /\
  fst (getGhostTarget sampleGame (constTape (1 # 2)) nearInky)
    = (40, CANVAS_HEIGHT sampleGame - 40) /\
  fst (getGhostTarget sampleGame (constTape (1 # 2))
         (Ghost.with_mode scatter nearInky))
    = (CANVAS_WIDTH sampleGame - 40, CANVAS_HEIGHT sampleGame - 40) /\
  ~ (fst (fst (getGhostTarget sampleGame (constTape (1 # 2)) nearInky)) ==
     fst (fst (getGhostTarget sampleGame (constTape (1 # 2))
                 (Ghost.with_mode scatter nearInky)))).
Proof.
  split; [reflexivity|]. split; [reflexivity|].
  split; [vm_compute; reflexivity|].
  split; [reflexivity|]. split; [reflexivity|].
  vm_compute. discriminate.
Qed.

(* ------------------------------------------------------------------ *)
(** ** Game over and restart *)

(** C9, as the code has it.  The restart key (r or R) changes nothing
    unless the phase is game-over, in which case it restarts the game:
    lives 3, score 0, level 1, phase playing.  The restart control of the
    page (touch button or [resetGame] hook) restarts the game in whatever
    phase it is.  Losing a life takes one
    life and makes the phase game-over as soon as none is left; in
    particular a contact without power on the last life ends the game, no
    frame advances the state from there, and the restart key then gives
    the fresh values. *)
Theorem restart_command (G : PacmanGame) (key : string) :
  key = "r"%string \/ key = "R"%string ->
  (GameState.current (state G) <> gameOver -> handleKeyDown key G = G) /\
  (GameState.current (state G) = gameOver ->
     handleKeyDown key G = restart G /\
     forall elapsed, gameLoop elapsed G = G) /\
  (step G RestartButton = restart G /\
   GameState.lives (state (restart G)) = 3%Z /\
   GameState.score (state (restart G)) = 0%Z /\
   GameState.level (state (restart G)) = 1%Z /\
   GameState.current (state (restart G)) = playing) /\
  (forall s,
     GameState.lives (GameState.loseLife s) = (GameState.lives s - 1)%Z /\
     ((GameState.lives s - 1 <= 0)%Z ->
        GameState.current (GameState.loseLife s) = gameOver) /\
     ((0 < GameState.lives s - 1)%Z ->
        GameState.current (GameState.loseLife s) = GameState.current s)) /\
  (forall index ghost,
     nth_error (ghosts G) index = Some ghost ->
     inContact G ghost = true ->
     GameState.powerPelletActive (state G) = false ->
     GameState.lives (state G) = 1%Z ->
     let over := collideGhost index G in
     GameState.lives (state over) = 0%Z /\
     GameState.current (state over) = gameOver /\
     GameState.lives (state (handleKeyDown key over)) = 3%Z /\
     GameState.score (state (handleKeyDown key over)) = 0%Z /\
     GameState.level (state (handleKeyDown key over)) = 1%Z).
Proof.
  intro Hk.
  assert (K : forall X, handleKeyDown key X =
                match GameState.current (state X) with
                | gameOver => restart X
                | _ => X
                end).
  { intro X. destruct Hk; subst key; reflexivity. }
  split; [|split; [|split; [|split]]].
  - intro H. rewrite K. destruct (GameState.current (state G)); congruence.
  - intro H. rewrite K, H. split; [reflexivity|].
    intro elapsed. unfold gameLoop. rewrite H. reflexivity.
  - repeat split.
  - intro s. unfold GameState.loseLife. simpl. split; [reflexivity|]. split.
    + intro H. apply Z.leb_le in H. rewrite H. reflexivity.
    + intro H. apply Z.leb_gt in H. rewrite H. reflexivity.
  - intros index ghost Hn Hc Hp Hl over.
    assert (O : over = resetPositions (with_state (GameState.loseLife (state G)) G)).
    { unfold over, collideGhost. rewrite Hn, Hc, Hp. reflexivity. }
    assert (C : GameState.current (state over) = gameOver).
    { rewrite O. simpl. rewrite Hl. reflexivity. }
    split; [rewrite O; simpl; rewrite Hl; reflexivity|].
    split; [exact C|].
    rewrite K, C. repeat split.
Qed.

Lemma restart_command_witness :
  let over := collideGhost 0 lastLife in
  GameState.current (state over) = gameOver /\
  GameState.score (state over) = 1230%Z /\
  GameState.lives (state (handleKeyDown "r" over)) = 3%Z /\
  GameState.score (state (handleKeyDown "r" over)) = 0%Z /\
  GameState.level (state (handleKeyDown "r" over)) = 1%Z.
Proof.
  intro over.
  destruct (restart_command lastLife "r" (or_introl eq_refl)) as [_ [_ [_ [_ D]]]].
  destruct (D 0%nat (touchingGhost chase) eq_refl
              ltac:(vm_compute; reflexivity) eq_refl eq_refl)
    as [_ [C [L [S V]]]].
  split; [exact C|]. split; [reflexivity|].
  split; [exact L|]. split; [exact S|exact V].
Defined.

(** C9, as stated, fails in its first clause.  In the playing phase,
    with one life, level 2 and 1230 points, the restart key does nothing
    but the restart control of the page does restart the game. *)
Lemma restart_button_while_playing :
  GameState.current (state lastLife) = playing /\
  (GameState.lives (state lastLife), GameState.score (state lastLife),
   GameState.level (state lastLife)) = (1, 1230, 2)%Z /\
  handleKeyDown "r" lastLife = lastLife /\
  (GameState.lives (state (step lastLife RestartButton)),
   GameState.score (state (step lastLife RestartButton)),
   GameState.level (state (step lastLife RestartButton))) = (3, 0, 1)%Z.
Proof. repeat split. Qed.

(* ------------------------------------------------------------------ *)
(** ** Dead mode is never entered *)

Lemma chooseGhostDirection_mode G t ghost target :
  Ghost.mode (fst (chooseGhostDirection G t ghost target)) = Ghost.mode ghost.
Proof.
  destruct (chooseGhostDirection_spec G t ghost target) as [A _].
  rewrite A. reflexivity.
Qed.

Lemma scheduleStep_alive dt ghost :
  Ghost.mode ghost <> dead -> Ghost.mode (scheduleStep dt ghost) <> dead.
Proof.
  unfold scheduleStep. intro H.
  destruct (Ghost.mode ghost) eqn:E; try congruence;
    destruct (Qle_bool _ 0); simpl; congruence.
Qed.

Lemma updateGhost_alive G t dt ghost :
  Ghost.mode ghost <> dead ->
  Ghost.mode (fst (updateGhost G t dt ghost)) <> dead.
Proof.
  intro H. unfold updateGhost.
  assert (H1 : Ghost.mode (houseExit G dt ghost) <> dead).
  { unfold houseExit. destruct (_ && _); simpl; [discriminate|exact H]. }
  destruct (Ghost.inGhostHouse (houseExit G dt ghost)); [exact H1|].
  assert (H2 : Ghost.mode (fst (updateGhostAI G t dt (houseExit G dt ghost))) <> dead).
  { unfold updateGhostAI.
    destruct (getGhostTarget G t (houseExit G dt ghost)) as [tg t1].
    destruct (Qltb _ _).
    - rewrite chooseGhostDirection_mode. simpl.
      apply scheduleStep_alive. exact H1.
    - simpl. apply scheduleStep_alive. exact H1. }
  destruct (updateGhostAI G t dt (houseExit G dt ghost)) as [g2 t1].
  simpl in H2. unfold moveGhost.
  destruct (ghostCandidate dt g2) as [nx ny].
  destruct (ghostTunnelWrap G dt g2); [exact H2|].
  destruct (isValidPosition G nx ny (Ghost.size g2)); [exact H2|].
  rewrite chooseGhostDirection_mode. exact H2.
Qed.

Lemma updateGhostList_alive G dt : forall gl t,
  Forall (fun g => Ghost.mode g <> dead) gl ->
  Forall (fun g => Ghost.mode g <> dead) (fst (updateGhostList G t dt gl)).
Proof.
  induction gl as [|ghost gl IH]; intros t H; simpl; [constructor|].
  inversion H as [|? ? Hg Hrest]; subst.
  pose proof (updateGhost_alive G t dt ghost Hg) as A.
  destruct (updateGhost G t dt ghost) as [g' t1].
  pose proof (IH t1 Hrest) as B.
  destruct (updateGhostList G t1 dt gl) as [rest' t2].
  simpl in *. constructor; assumption.
Qed.

Lemma resetGhosts_alive gs : forall gl base,
  Forall (fun g => Ghost.mode g <> dead) gl ->
  Forall (fun g => Ghost.mode g <> dead) (resetGhosts gs base gl).
Proof.
  induction gl as [|ghost gl IH]; intros base H; simpl; [constructor|].
  inversion H; subst. constructor; [assumption|apply IH; assumption].
Qed.

Lemma setNth_Forall {A} (P : A -> Prop) v : forall l i,
  P v -> Forall P l -> Forall P (setNth i v l).
Proof.
  induction l as [|h l IH]; intros [|i] Hv H; simpl; try exact H;
    inversion H; subst; constructor; auto.
Qed.

Lemma collideGhost_alive i G : noneDead G -> noneDead (collideGhost i G).
Proof.
  unfold noneDead, collideGhost. intro H.
  destruct (nth_error (ghosts G) i) as [ghost|] eqn:E; [|exact H].
  destruct (inContact G ghost); [|exact H].
  destruct (GameState.powerPelletActive (state G)); simpl.
  - apply setNth_Forall; [|exact H]. simpl.
    apply (proj1 (Forall_forall _ _) H ghost (nth_error_In _ _ E)).
  - apply resetGhosts_alive. exact H.
Qed.

Lemma checkCollisions_alive G : noneDead G -> noneDead (checkCollisions G).
Proof.
  intro H. unfold checkCollisions, ghostCollisions.
  generalize (seq 0 (List.length (ghosts (collectPellet G)))). intro l.
  assert (H1 : noneDead (collectPellet G)).
  { unfold noneDead, collectPellet. destruct (pacmanCell G) as [gx gy].
    destruct (cellAt (gameMap G) gx gy) as [c|]; [|exact H].
    destruct (c =? 2)%Z; [exact H|]. destruct (c =? 3)%Z; [|exact H].
    simpl. apply Forall_map. unfold noneDead in H.
    eapply Forall_impl; [|exact H]. intros g Hg. unfold frighten.
    destruct (_ && _); simpl; [discriminate|exact Hg]. }
  revert H1. generalize (collectPellet G). clear H G.
  induction l as [|i l IH]; intros G H; simpl; [exact H|].
  apply IH. apply collideGhost_alive. exact H.
Qed.

Lemma update_alive dt G : noneDead G -> noneDead (update dt G).
Proof.
  intro H. unfold update.
  assert (H2 : noneDead (updateGhosts dt (updatePacman dt G))).
  { assert (H1 : noneDead (updatePacman dt G)).
    { unfold noneDead, updatePacman.
      destruct (pacmanTunnelWrap G _) as [[wx wy]|]; [exact H|].
      destruct (isValidPosition G _ _ _); [|exact H].
      destruct (animateMouth (pacman G)). exact H. }
    unfold noneDead, updateGhosts.
    pose proof (updateGhostList_alive (updatePacman dt G) dt
                  (ghosts (updatePacman dt G)) (rng (updatePacman dt G)) H1) as A.
    destruct (updateGhostList _ _ dt _) as [gl t]. exact A. }
  assert (H3 : noneDead (powerTimerStep dt (updateGhosts dt (updatePacman dt G)))).
  { revert H2. generalize (updateGhosts dt (updatePacman dt G)). intros X HX.
    unfold noneDead, powerTimerStep.
    destruct (GameState.powerPelletActive (state X)); [|exact HX].
    destruct (Qle_bool _ 0); [|exact HX]. simpl.
    apply Forall_map. eapply Forall_impl; [|exact HX].
    intros g Hg. unfold calm. destruct (Ghost.mode g); simpl; congruence. }
  pose proof (checkCollisions_alive _ H3) as H4.
  destruct (_ <=? 0)%Z; [|exact H4].
  unfold noneDead, nextLevel. simpl. apply resetGhosts_alive. exact H4.
Qed.

Lemma restart_alive G : noneDead (restart G).
Proof. unfold noneDead. simpl. repeat constructor; discriminate. Qed.

Lemma step_alive G e : noneDead G -> noneDead (step G e).
Proof.
  intro H.
  destruct e as [elapsed|key|key| | |dir|vw vh]; simpl.
  - unfold gameLoop. destruct (GameState.current (state G)); auto.
    apply update_alive; exact H.
  - unfold handleKeyDown.
    repeat match goal with
           | |- context [if ?b then _ else _] => destruct b
           end; try exact H.
    + unfold togglePause; simpl.
      destruct (GameState.current (state G)); exact H.
    + destruct (GameState.current (state G)); try exact H.
      apply restart_alive.
  - unfold handleKeyUp.
    repeat match goal with
           | |- context [if ?b then _ else _] => destruct b
           end; exact H.
  - unfold togglePause. destruct (GameState.current (state G)); exact H.
  - apply restart_alive.
  - exact H.
  - unfold noneDead, resizeToViewport. simpl. apply Forall_map.
    eapply Forall_impl; [|exact H]. intros g Hg. exact Hg.
Qed.

(** In no state a game can reach is a pursuer in dead mode: nothing in
    [game.js] assigns that mode. *)
Lemma no_pursuer_ever_dead gs t evs : noneDead (run evs (newGame gs t)).
Proof.
  unfold run.
  assert (H : noneDead (newGame gs t))
    by (unfold noneDead; simpl; repeat constructor; discriminate).
  revert H. generalize (newGame gs t).
  induction evs as [|e evs IH]; intros G H; simpl; [exact H|].
  apply IH. apply step_alive. exact H.
Qed.

(* ================================================================== *)
(** * Further properties of [js/game.js] *)

(* ------------------------------------------------------------------ *)
(** ** Tunnel rows of an arbitrary maze *)

Lemma tunnelScan_spec cols : forall rows base y,
  In y (tunnelScan cols base rows) <->
  (base <= y)%Z /\
  exists row, nth_error rows (Z.to_nat (y - base)) = Some row /\
              notWall (nth_error row 0) = true /\
              notWall (nth_error row (cols - 1)) = true.
Proof.
  induction rows as [|r rows IH]; intros base y.
  - simpl. split; [intros []|]. intros [_ [row [H _]]].
    destruct (Z.to_nat (y - base)); discriminate.
  - cbn [tunnelScan].
    assert (Hrest : In y (tunnelScan cols (base + 1) rows) <->
                    (base < y)%Z /\
                    exists row, nth_error (r :: rows) (Z.to_nat (y - base)) = Some row /\
                                notWall (nth_error row 0) = true /\
                                notWall (nth_error row (cols - 1)) = true).
    { rewrite IH. split.
      - intros [Hb [row [Hn Hw]]]. split; [lia|]. exists row. split; [|exact Hw].
        replace (Z.to_nat (y - base)) with (S (Z.to_nat (y - (base + 1)))) by lia.
        exact Hn.
      - intros [Hb [row [Hn Hw]]]. split; [lia|]. exists row. split; [|exact Hw].
        replace (Z.to_nat (y - base)) with (S (Z.to_nat (y - (base + 1)))) in Hn
          by lia.
        exact Hn. }
    destruct (notWall (nth_error r 0) && notWall (nth_error r (cols - 1))) eqn:E.
    + cbv iota. cbn [In]. rewrite Hrest. apply andb_true_iff in E. split.
      * intros [Hy|[Hb Hex]].
        -- subst y. split; [lia|]. exists r.
           replace (Z.to_nat (base - base)) with 0%nat by lia. tauto.
        -- split; [lia|exact Hex].
      * intros [Hb Hex].
        destruct (Z.eq_dec base y) as [Hy|Hy]; [left; exact Hy|].
        right. split; [lia|exact Hex].
    + cbv iota. rewrite Hrest. split.
      * intros [Hb Hex]. split; [lia|exact Hex].
      * intros [Hb [row [Hn [W0 W1]]]].
        destruct (Z.eq_dec base y) as [Hy|Hy].
        -- exfalso. subst y.
           replace (Z.to_nat (base - base)) with 0%nat in Hn by lia.
           simpl in Hn. inversion Hn; subst row.
           rewrite W0, W1 in E. discriminate.
        -- split; [lia|]. exists row. tauto.
Qed.

Lemma tunnelScan_bounds cols : forall rows base y,
  In y (tunnelScan cols base rows) -> (base <= y)%Z.
Proof. intros rows base y H. apply (tunnelScan_spec cols) in H. tauto. Qed.

Lemma tunnelScan_NoDup cols : forall rows base, NoDup (tunnelScan cols base rows).
Proof.
  induction rows as [|r rows IH]; intro base; simpl; [constructor|].
  destruct (_ && _); [|apply IH].
  constructor; [|apply IH].
  intro H. apply tunnelScan_bounds in H. lia.
Qed.

(** X1. For a maze whose first row exists and has a cell, a row index is
    in the set computed by [updateTunnelRows] exactly when it is the index
    of a row of the maze whose first cell and whose cell in the last
    column of the first row are both not walls (a missing cell counts as
    open); no index is listed twice. *)
Theorem tunnel_rows_characterised (m : Grid) (y : Z) :
  (0 < List.length (nth 0 m []))%nat ->
  let cols := List.length (nth 0 m []) in
  (In y (updateTunnelRows m) <->
   (0 <= y)%Z /\
   exists row, nth_error m (Z.to_nat y) = Some row /\
               notWall (nth_error row 0) = true /\
               notWall (nth_error row (cols - 1)) = true) /\
  (hasRow (updateTunnelRows m) y = true <-> In y (updateTunnelRows m)) /\
  NoDup (updateTunnelRows m).
Proof.
  intros _ cols. split; [|split].
  - unfold updateTunnelRows. fold cols. rewrite tunnelScan_spec.
    rewrite Z.sub_0_r. reflexivity.
  - unfold hasRow. rewrite existsb_exists. split.
    + intros [x [Hx He]]. apply Z.eqb_eq in He. subst x. exact Hx.
    + intro H. exists y. split; [exact H|apply Z.eqb_refl].
  - apply tunnelScan_NoDup.
Qed.

Lemma tunnel_rows_characterised_witness :
  ~ In 14%Z (updateTunnelRows createDefaultMap).
Proof.
  intro H.
  apply (proj1 (proj1 (tunnel_rows_characterised createDefaultMap 14%Z
                         ltac:(vm_compute; lia)))) in H.
  destruct H as [_ [row [Hr [Hw _]]]].
  vm_compute in Hr. inversion Hr; subst row. vm_compute in Hw. discriminate.
Defined.

(* ------------------------------------------------------------------ *)
(** ** The maze against its template *)

Lemma Forall2_same {A} (R : A -> A -> Prop) (l : list A) :
  (forall a, R a a) -> Forall2 R l l.
Proof. intro H. induction l; constructor; auto. Qed.

Lemma Forall2_nth_l {A B} (R : A -> B -> Prop) : forall l1 l2 i a,
  Forall2 R l1 l2 -> nth_error l1 i = Some a ->
  exists b, nth_error l2 i = Some b /\ R a b.
Proof.
  induction l1 as [|h l1 IH]; intros l2 [|i] a F H; simpl in H;
    try discriminate; inversion F; subst.
  - inversion H; subst. eexists. split; [reflexivity|assumption].
  - simpl. eapply IH; eassumption.
Qed.

Lemma Forall2_nth_r {A B} (R : A -> B -> Prop) : forall l1 l2 i b,
  Forall2 R l1 l2 -> nth_error l2 i = Some b ->
  exists a, nth_error l1 i = Some a /\ R a b.
Proof.
  induction l1 as [|h l1 IH]; intros l2 [|i] b F H; inversion F; subst;
    simpl in H; try discriminate.
  - inversion H; subst. eexists. split; [reflexivity|assumption].
  - simpl. eapply IH; eassumption.
Qed.

Lemma Forall2_setNth {A B} (R : A -> B -> Prop) : forall l1 l2 i a v,
  Forall2 R l1 l2 -> nth_error l1 i = Some a -> R a v ->
  Forall2 R l1 (setNth i v l2).
Proof.
  induction l1 as [|h l1 IH]; intros l2 [|i] a v F H Hv; inversion F; subst;
    simpl in H; try discriminate; simpl.
  - inversion H; subst. constructor; assumption.
  - constructor; [assumption|]. eapply IH; eassumption.
Qed.

Lemma mazeFaithful_template : mazeFaithful createDefaultMap.
Proof.
  apply Forall2_same. intro row. apply Forall2_same. intro c. left. reflexivity.
Qed.

(** Emptying a cell that holds a pellet or a power pellet keeps the maze
    faithful to the template. *)
Lemma mazeFaithful_eat m gx gy c :
  mazeFaithful m -> cellAt m gx gy = Some c -> isPelletCode c = true ->
  mazeFaithful (setCell m gx gy 0%Z).
Proof.
  intros F Hc Hp. destruct (cellAt_inv _ _ _ _ Hc) as [row [Hr Hx]].
  unfold setCell. rewrite Hr.
  destruct (Forall2_nth_r _ _ _ _ _ F Hr) as [orow [Ho Frow]].
  eapply Forall2_setNth; [exact F|exact Ho|].
  destruct (Forall2_nth_r _ _ _ _ _ Frow Hx) as [o [Hoc Fc]].
  eapply Forall2_setNth; [exact Frow|exact Hoc|].
  right. split; [reflexivity|].
  destruct Fc as [E|[E _]]; [subst; exact Hp|subst c; discriminate].
Qed.

Lemma collectPellet_faithful G :
  mazeFaithful (gameMap G) -> mazeFaithful (gameMap (collectPellet G)).
Proof.
  intro F. unfold collectPellet. destruct (pacmanCell G) as [gx gy].
  destruct (cellAt (gameMap G) gx gy) as [c|] eqn:Hc; [|exact F].
  destruct (c =? 2)%Z eqn:E2.
  - simpl. apply (mazeFaithful_eat _ _ _ c F Hc).
    unfold isPelletCode. rewrite E2. reflexivity.
  - destruct (c =? 3)%Z eqn:E3; [|exact F].
    simpl. apply (mazeFaithful_eat _ _ _ c F Hc).
    unfold isPelletCode. rewrite E3. apply orb_true_r.
Qed.

Lemma update_faithful dt G :
  mazeFaithful (gameMap G) -> mazeFaithful (gameMap (update dt G)).
Proof.
  intro F. unfold update. fold (beforeCollisions dt G).
  destruct (_ <=? 0)%Z; [apply mazeFaithful_template|].
  unfold checkCollisions.
  rewrite (proj1 (ghostCollisions_maze _)).
  apply collectPellet_faithful.
  rewrite (proj1 (beforeCollisions_maze dt G)). exact F.
Qed.

Lemma step_faithful G e :
  mazeFaithful (gameMap G) -> mazeFaithful (gameMap (step G e)).
Proof.
  intro H.
  destruct e as [elapsed|key|key| | |dir|vw vh]; simpl;
    [| | | unfold togglePause; destruct (GameState.current (state G)); exact H
     | apply mazeFaithful_template | exact H | exact H].
  - unfold gameLoop. destruct (GameState.current (state G)); auto.
    apply update_faithful; exact H.
  - unfold handleKeyDown.
    repeat match goal with
           | |- context [if ?b then _ else _] => destruct b
           end; try exact H.
    + unfold togglePause; simpl.
      destruct (GameState.current (state G)); exact H.
    + destruct (GameState.current (state G)); try exact H.
      apply mazeFaithful_template.
  - unfold handleKeyUp.
    repeat match goal with
           | |- context [if ?b then _ else _] => destruct b
           end; exact H.
Qed.

Lemma run_faithful evs : forall G,
  mazeFaithful (gameMap G) -> mazeFaithful (gameMap (run evs G)).
Proof.
  unfold run. induction evs as [|e evs IH]; intros G H; simpl; [exact H|].
  apply IH. apply step_faithful. exact H.
Qed.

Lemma faithful_cellAt m gx gy :
  mazeFaithful m ->
  match cellAt createDefaultMap gx gy, cellAt m gx gy with
  | Some o, Some c => cellFaithful o c
  | None, None => True
  | _, _ => False
  end.
Proof.
  intro F. unfold cellAt.
  destruct ((0 <=? gy)%Z && (0 <=? gx)%Z); [|exact I].
  destruct (nth_error createDefaultMap (Z.to_nat gy)) as [orow|] eqn:Ho.
  - destruct (Forall2_nth_l _ _ _ _ _ F Ho) as [row [Hr Frow]]. rewrite Hr.
    destruct (nth_error orow (Z.to_nat gx)) as [o|] eqn:Hoc.
    + destruct (Forall2_nth_l _ _ _ _ _ Frow Hoc) as [c [Hc Fc]].
      rewrite Hc. exact Fc.
    + destruct (nth_error row (Z.to_nat gx)) as [c|] eqn:Hc; [|exact I].
      destruct (Forall2_nth_r _ _ _ _ _ Frow Hc) as [o [Hoc' _]]. congruence.
  - destruct (nth_error m (Z.to_nat gy)) as [row|] eqn:Hr; [|exact I].
    destruct (Forall2_nth_r _ _ _ _ _ F Hr) as [orow [Ho' _]]. congruence.
Qed.

(** X2. In every state a game can reach, the maze has the shape of the
    template and differs from it only by pellets and power pellets that
    have been emptied: a cell is a wall exactly where the template has a
    wall, a pellet or power pellet only where the template has the same,
    and an empty cell where the template is empty or had a pellet. *)
Theorem maze_stays_faithful (gs : Q) (t : Tape) (evs : list Event) (gx gy : Z) :
  let m := gameMap (run evs (newGame gs t)) in
  let template := cellAt createDefaultMap gx gy in
  (cellAt m gx gy = None <-> template = None) /\
  (cellAt m gx gy = Some WALL <-> template = Some WALL) /\
  (cellAt m gx gy = Some PELLET -> template = Some PELLET) /\
  (cellAt m gx gy = Some POWER_PELLET -> template = Some POWER_PELLET) /\
  (forall c, cellAt m gx gy = Some c ->
     template = Some c \/
     (c = EMPTY /\ (template = Some PELLET \/ template = Some POWER_PELLET))) /\
  List.length m = List.length createDefaultMap.
Proof.
  intros m template.
  assert (F : mazeFaithful m)
    by (apply run_faithful; apply mazeFaithful_template).
  pose proof (faithful_cellAt m gx gy F) as H. fold template in H.
  assert (L : List.length m = List.length createDefaultMap)
    by (symmetry; apply (Forall2_length F)).
  destruct template as [o|], (cellAt m gx gy) as [c|]; try contradiction.
  - assert (K : c = o \/ (c = EMPTY /\ (o = PELLET \/ o = POWER_PELLET))).
    { destruct H as [E|[E P]]; [left; exact E|right].
      split; [exact E|]. apply isPelletCode_spec. exact P. }
    unfold EMPTY, WALL, PELLET, POWER_PELLET in *.
    split; [split; discriminate|].
    split; [split; intro E; inversion E; subst|].
    { destruct K as [K|[K _]]; congruence. }
    { destruct K as [K|[_ [K|K]]]; congruence. }
    split; [intro E; inversion E; subst c; destruct K as [K|[K _]]; congruence|].
    split; [intro E; inversion E; subst c; destruct K as [K|[K _]]; congruence|].
    split; [|exact L].
    intros c' E. inversion E; subst c'.
    destruct K as [K|[K [P|P]]]; subst; auto.
  - split; [split; reflexivity|].
    split; [split; discriminate|].
    split; [discriminate|]. split; [discriminate|].
    split; [|exact L]. intros c E. discriminate.
Qed.

(* ------------------------------------------------------------------ *)
(** ** Score, level and lives *)

Lemma countersStep_refl s : countersStep s s.
Proof. unfold countersStep. repeat split; lia. Qed.

Lemma countersStep_trans s1 s2 s3 :
  countersStep s1 s2 -> countersStep s2 s3 -> countersStep s1 s3.
Proof. unfold countersStep. intros [A [B C]] [D [E F]]. repeat split; lia. Qed.

Lemma updatePacman_state dt G : state (updatePacman dt G) = state G.
Proof.
  unfold updatePacman.
  destruct (pacmanTunnelWrap G _) as [[wx wy]|]; [reflexivity|].
  destruct (isValidPosition G _ _ _); [|reflexivity].
  destruct (animateMouth (pacman G)). reflexivity.
Qed.

Lemma updateGhosts_state dt G : state (updateGhosts dt G) = state G.
Proof.
  unfold updateGhosts.
  destruct (updateGhostList G (rng G) dt (ghosts G)) as [gl t]. reflexivity.
Qed.

Lemma powerTimerStep_counters dt G :
  countersStep (state G) (state (powerTimerStep dt G)).
Proof.
  unfold powerTimerStep.
  destruct (GameState.powerPelletActive (state G));
    [destruct (Qle_bool _ 0)|]; unfold countersStep; simpl; repeat split; lia.
Qed.

Lemma beforeCollisions_counters dt G :
  countersStep (state G) (state (beforeCollisions dt G)).
Proof.
  unfold beforeCollisions.
  rewrite <- (updatePacman_state dt G) at 1.
  rewrite <- (updateGhosts_state dt (updatePacman dt G)) at 1.
  apply powerTimerStep_counters.
Qed.

Lemma collectPellet_counters G : countersStep (state G) (state (collectPellet G)).
Proof.
  unfold collectPellet. destruct (pacmanCell G) as [gx gy].
  destruct (cellAt (gameMap G) gx gy) as [c|]; [|apply countersStep_refl].
  destruct (c =? 2)%Z; [unfold countersStep; simpl; repeat split; lia|].
  destruct (c =? 3)%Z; [unfold countersStep; simpl; repeat split; lia|].
  apply countersStep_refl.
Qed.

Lemma collideGhost_counters i G : countersStep (state G) (state (collideGhost i G)).
Proof.
  unfold collideGhost.
  destruct (nth_error (ghosts G) i) as [ghost|]; [|apply countersStep_refl].
  destruct (inContact G ghost); [|apply countersStep_refl].
  destruct (GameState.powerPelletActive (state G));
    unfold countersStep; simpl; repeat split; lia.
Qed.

Lemma checkCollisions_counters G :
  countersStep (state G) (state (checkCollisions G)).
Proof.
  unfold checkCollisions, ghostCollisions.
  eapply countersStep_trans; [apply collectPellet_counters|].
  generalize (seq 0 (List.length (ghosts (collectPellet G)))).
  generalize (collectPellet G). intros X l. revert X.
  induction l as [|i l IH]; intro X; simpl; [apply countersStep_refl|].
  eapply countersStep_trans; [apply collideGhost_counters|apply IH].
Qed.

(** X3. A tick never lowers the score, never gives back a life, and
    leaves the level as it is or raises it by exactly one; and in every
    state a game can reach the score is not negative, the level is at
    least 1 and there are at most 3 lives. *)
Theorem counters_monotone (G : PacmanGame) (deltaTime : Q)
    (gs : Q) (t : Tape) (evs : list Event) :
  ((GameState.score (state G) <= GameState.score (state (update deltaTime G)))%Z /\
   (GameState.lives (state (update deltaTime G)) <= GameState.lives (state G))%Z /\
   (GameState.level (state (update deltaTime G)) = GameState.level (state G) \/
    GameState.level (state (update deltaTime G)) = (GameState.level (state G) + 1)%Z)) /\
  countersOk (state (run evs (newGame gs t))).
Proof.
  assert (U : forall dt X,
             (GameState.score (state X) <= GameState.score (state (update dt X)))%Z /\
             (GameState.lives (state (update dt X)) <= GameState.lives (state X))%Z /\
             (GameState.level (state (update dt X)) = GameState.level (state X) \/
              GameState.level (state (update dt X)) = (GameState.level (state X) + 1)%Z)).
  { intros dt X.
    assert (S : countersStep (state X) (state (checkCollisions (beforeCollisions dt X))))
      by (eapply countersStep_trans;
          [apply beforeCollisions_counters|apply checkCollisions_counters]).
    unfold update. fold (beforeCollisions dt X).
    destruct S as [A [B C]].
    destruct (_ <=? 0)%Z; simpl; repeat split; lia. }
  split; [apply U|].
  unfold run.
  assert (H : countersOk (state (newGame gs t)))
    by (unfold countersOk; simpl; lia).
  revert H. generalize (newGame gs t).
  induction evs as [|e evs IH]; intros X H; simpl; [exact H|].
  apply IH. clear IH.
  assert (R : forall Y, countersOk (state (restart Y)))
    by (intro Y; unfold countersOk; simpl; lia).
  assert (P : countersOk (state (togglePause X))).
  { unfold togglePause. destruct (GameState.current (state X)); exact H. }
  destruct e as [elapsed|key|key| | |dir|vw vh]; simpl;
    [| | |exact P|apply (R X)|exact H|exact H].
  - unfold gameLoop. destruct (GameState.current (state X)); auto.
    destruct (U (if Qle_bool elapsed MAX_DELTA_TIME then elapsed else MAX_DELTA_TIME) X)
      as [A [B C]].
    destruct H as [H1 [H2 H3]]. unfold countersOk. repeat split; lia.
  - unfold handleKeyDown.
    repeat match goal with
           | |- context [if ?b then _ else _] => destruct b
           end; try exact H.
    + unfold togglePause; simpl.
      destruct (GameState.current (state X)); exact H.
    + destruct (GameState.current (state X)); try exact H. apply (R X).
  - unfold handleKeyUp.
    repeat match goal with
           | |- context [if ?b then _ else _] => destruct b
           end; exact H.
Qed.

(* ------------------------------------------------------------------ *)
(** ** Pursuer by pursuer *)

Lemma Forall2_trans_rel {A} (R : A -> A -> Prop) :
  (forall a b c, R a b -> R b c -> R a c) ->
  forall l1 l2 l3, Forall2 R l1 l2 -> Forall2 R l2 l3 -> Forall2 R l1 l3.
Proof.
  intros T l1. induction l1 as [|a l1 IH]; intros l2 l3 F G;
    inversion F; subst; inversion G; subst; constructor; eauto.
Qed.

Lemma Forall2_map_r {A} (R : A -> A -> Prop) (f : A -> A) (l : list A) :
  (forall a, R a (f a)) -> Forall2 R l (map f l).
Proof. intro H. induction l; simpl; constructor; auto. Qed.

Lemma Forall2_setNth_r {A} (R : A -> A -> Prop) : forall (l : list A) i a v,
  (forall x, R x x) -> nth_error l i = Some a -> R a v ->
  Forall2 R l (setNth i v l).
Proof.
  intros l i a v Hr Hn Hv.
  eapply Forall2_setNth; [apply Forall2_same; exact Hr|exact Hn|exact Hv].
Qed.

Lemma Forall2_Forall {A} (R : A -> A -> Prop) (P : A -> Prop) (l l' : list A) :
  (forall a b, R a b -> P a -> P b) ->
  Forall2 R l l' -> Forall P l -> Forall P l'.
Proof.
  intros H F. induction F; intro Hl; inversion Hl; subst; constructor; eauto.
Qed.

Section GhostWise.

Variable R : Ghost.t -> Ghost.t -> Prop.
Hypothesis R_refl : forall g, R g g.
Hypothesis R_trans : forall a b c, R a b -> R b c -> R a c.
Hypothesis R_updateGhost : forall G t dt g, R g (fst (updateGhost G t dt g)).
Hypothesis R_calm : forall g, R g (calm g).
Hypothesis R_frighten : forall g, R g (frighten g).
Hypothesis R_xy : forall x y g, R g (Ghost.with_xy x y g).

Lemma ghostwise_updateGhostList G dt : forall gl t,
  Forall2 R gl (fst (updateGhostList G t dt gl)).
Proof.
  induction gl as [|ghost gl IH]; intro t; simpl; [constructor|].
  pose proof (R_updateGhost G t dt ghost) as A.
  destruct (updateGhost G t dt ghost) as [g' t1].
  pose proof (IH t1) as B.
  destruct (updateGhostList G t1 dt gl) as [rest' t2].
  simpl in *. constructor; assumption.
Qed.

Lemma ghostwise_resetGhosts gs : forall gl base,
  Forall2 R gl (resetGhosts gs base gl).
Proof.
  induction gl as [|ghost gl IH]; intro base; simpl; constructor; auto.
Qed.

Lemma ghostwise_collideGhost i G : Forall2 R (ghosts G) (ghosts (collideGhost i G)).
Proof.
  unfold collideGhost.
  destruct (nth_error (ghosts G) i) as [ghost|] eqn:E;
    [|apply Forall2_same; exact R_refl].
  destruct (inContact G ghost); [|apply Forall2_same; exact R_refl].
  destruct (GameState.powerPelletActive (state G)); simpl.
  - eapply Forall2_setNth_r; [exact R_refl|exact E|apply R_xy].
  - apply ghostwise_resetGhosts.
Qed.

Lemma ghostwise_checkCollisions G :
  Forall2 R (ghosts G) (ghosts (checkCollisions G)).
Proof.
  unfold checkCollisions, ghostCollisions.
  apply (Forall2_trans_rel R R_trans _ (ghosts (collectPellet G))).
  - unfold collectPellet. destruct (pacmanCell G) as [gx gy].
    destruct (cellAt (gameMap G) gx gy) as [c|];
      [|apply Forall2_same; exact R_refl].
    destruct (c =? 2)%Z; [apply Forall2_same; exact R_refl|].
    destruct (c =? 3)%Z; [|apply Forall2_same; exact R_refl].
    simpl. apply Forall2_map_r. exact R_frighten.
  - generalize (seq 0 (List.length (ghosts (collectPellet G)))).
    generalize (collectPellet G). intros X l. revert X.
    induction l as [|i l IH]; intro X; simpl;
      [apply Forall2_same; exact R_refl|].
    eapply (Forall2_trans_rel R R_trans);
      [apply ghostwise_collideGhost|apply IH].
Qed.

Lemma ghostwise_beforeCollisions dt G :
  Forall2 R (ghosts G) (ghosts (beforeCollisions dt G)).
Proof.
  unfold beforeCollisions.
  assert (P : ghosts (updatePacman dt G) = ghosts G).
  { unfold updatePacman.
    destruct (pacmanTunnelWrap G _) as [[wx wy]|]; [reflexivity|].
    destruct (isValidPosition G _ _ _); [|reflexivity].
    destruct (animateMouth (pacman G)). reflexivity. }
  assert (U : Forall2 R (ghosts G) (ghosts (updateGhosts dt (updatePacman dt G)))).
  { unfold updateGhosts. rewrite P.
    pose proof (ghostwise_updateGhostList (updatePacman dt G) dt (ghosts G)
                  (rng (updatePacman dt G))) as A.
    destruct (updateGhostList _ _ dt (ghosts G)) as [gl t]. exact A. }
  apply (Forall2_trans_rel R R_trans _ _ _ U).
  unfold powerTimerStep.
  destruct (GameState.powerPelletActive _); [|apply Forall2_same; exact R_refl].
  destruct (Qle_bool _ 0); [|apply Forall2_same; exact R_refl].
  simpl. apply Forall2_map_r. exact R_calm.
Qed.

(** A tick transforms the pursuers one by one: none is added, removed
    or moved in the array. *)
Lemma ghostwise_update dt G : Forall2 R (ghosts G) (ghosts (update dt G)).
Proof.
  unfold update. fold (beforeCollisions dt G).
  assert (C : Forall2 R (ghosts G) (ghosts (checkCollisions (beforeCollisions dt G)))).
  { eapply (Forall2_trans_rel R R_trans);
      [apply ghostwise_beforeCollisions|apply ghostwise_checkCollisions]. }
  destruct (_ <=? 0)%Z; [|exact C].
  apply (Forall2_trans_rel R R_trans _ _ _ C).
  unfold nextLevel. simpl. apply ghostwise_resetGhosts.
Qed.

End GhostWise.

Lemma samePursuer_refl g : samePursuer g g.
Proof. unfold samePursuer. auto. Qed.

Lemma samePursuer_trans a b c :
  samePursuer a b -> samePursuer b c -> samePursuer a c.
Proof.
  unfold samePursuer. intros [A1 [A2 [A3 A4]]] [B1 [B2 [B3 B4]]].
  repeat split; try congruence. auto.
Qed.

Lemma chooseGhostDirection_same G t ghost target :
  samePursuer ghost (fst (chooseGhostDirection G t ghost target)).
Proof.
  destruct (chooseGhostDirection_spec G t ghost target) as [A _].
  rewrite A. unfold samePursuer. simpl. auto.
Qed.

Lemma scheduleStep_same dt ghost : samePursuer ghost (scheduleStep dt ghost).
Proof.
  unfold scheduleStep, samePursuer.
  destruct (Ghost.mode ghost); try destruct (Qle_bool _ 0); simpl; auto.
Qed.

Lemma houseExit_same G dt ghost : samePursuer ghost (houseExit G dt ghost).
Proof.
  unfold houseExit, samePursuer. destruct (_ && _); simpl; auto.
Qed.

Lemma updateGhostAI_same G t dt ghost :
  samePursuer ghost (fst (updateGhostAI G t dt ghost)).
Proof.
  unfold updateGhostAI. destruct (getGhostTarget G t ghost) as [tg t1].
  destruct (Qltb _ _).
  - eapply samePursuer_trans; [|apply chooseGhostDirection_same].
    eapply samePursuer_trans; [apply scheduleStep_same|].
    unfold samePursuer. simpl. auto.
  - simpl. eapply samePursuer_trans; [apply scheduleStep_same|].
    unfold samePursuer. simpl. auto.
Qed.

Lemma moveGhost_same G t dt ghost :
  samePursuer ghost (fst (moveGhost G t dt ghost)).
Proof.
  unfold moveGhost. destruct (ghostCandidate dt ghost) as [nx ny].
  destruct (ghostTunnelWrap G dt ghost); [unfold samePursuer; simpl; auto|].
  destruct (isValidPosition G nx ny (Ghost.size ghost));
    [unfold samePursuer; simpl; auto|].
  apply chooseGhostDirection_same.
Qed.

Lemma updateGhost_same G t dt ghost :
  samePursuer ghost (fst (updateGhost G t dt ghost)).
Proof.
  unfold updateGhost.
  destruct (Ghost.inGhostHouse (houseExit G dt ghost)); [apply houseExit_same|].
  eapply samePursuer_trans; [apply houseExit_same|].
  pose proof (updateGhostAI_same G t dt (houseExit G dt ghost)) as A.
  destruct (updateGhostAI G t dt (houseExit G dt ghost)) as [g2 t1]. simpl in A.
  eapply samePursuer_trans; [exact A|apply moveGhost_same].
Qed.

Lemma calm_same g : samePursuer g (calm g).
Proof. unfold calm, samePursuer. destruct (Ghost.mode g); simpl; auto. Qed.

Lemma frighten_same g : samePursuer g (frighten g).
Proof. unfold frighten, samePursuer. destruct (_ && _); simpl; auto. Qed.

Lemma update_samePursuer dt G :
  Forall2 samePursuer (ghosts G) (ghosts (update dt G)).
Proof.
  apply (ghostwise_update samePursuer samePursuer_refl samePursuer_trans).
  - intros; apply updateGhost_same.
  - apply calm_same.
  - apply frighten_same.
  - intros x y g. unfold samePursuer. simpl. auto.
Qed.

(** X4. A tick keeps the pursuers in their places in the array, each
    with its name, personality and body size, and never sends a released
    pursuer back to the pen.  The pursuers' own update within the tick
    (the body of the loop of [updateGhosts], before the contact arbiter
    runs) only lowers the timer of a pursuer that waits in the pen and
    whose release timer does not run out, without any draw, and takes out
    of the pen one whose timer runs out. *)
Theorem pursuers_keep_identity (G : PacmanGame) (t : Tape) (deltaTime : Q)
    (ghost : Ghost.t) :
  Forall2 samePursuer (ghosts G) (ghosts (update deltaTime G)) /\
  (Ghost.inGhostHouse ghost = true ->
   0 < Ghost.modeTimer ghost - deltaTime ->
     updateGhost G t deltaTime ghost =
     (Ghost.with_modeTimer (Ghost.modeTimer ghost - deltaTime) ghost, t)) /\
  (Ghost.inGhostHouse ghost = true ->
   Ghost.modeTimer ghost - deltaTime <= 0 ->
     Ghost.inGhostHouse (fst (updateGhost G t deltaTime ghost)) = false).
Proof.
  split; [|split].
  - apply update_samePursuer.
  - intros Hh Ht. unfold updateGhost, houseExit. simpl. rewrite Hh.
    destruct (Qle_bool (Ghost.modeTimer ghost - deltaTime) 0) eqn:E.
    + apply Qle_bool_iff in E. exfalso. exact (Qlt_not_le _ _ Ht E).
    + simpl. rewrite Hh. reflexivity.
  - intros Hh Ht.
    assert (E : Ghost.inGhostHouse (houseExit G deltaTime ghost) = false).
    { unfold houseExit. simpl. rewrite Hh.
      apply Qle_bool_iff in Ht. rewrite Ht. reflexivity. }
    pose proof (updateGhost_same G t deltaTime ghost) as S.
    unfold updateGhost in *. rewrite E in *.
    pose proof (updateGhostAI_same G t deltaTime (houseExit G deltaTime ghost)) as A.
    destruct (updateGhostAI G t deltaTime (houseExit G deltaTime ghost)) as [g2 t1].
    simpl in A.
    pose proof (moveGhost_same G t1 deltaTime g2) as M.
    apply M. apply A. exact E.
Qed.

Lemma pursuers_keep_identity_witness :
  let waiting := nth 3 (ghosts sampleGame) strandedClyde in
  Ghost.inGhostHouse waiting = true /\
  Ghost.modeTimer (fst (updateGhost sampleGame (constTape (1 # 2)) (1 # 32) waiting))
    = 6 - (1 # 32) /\
  Ghost.inGhostHouse (fst (updateGhost sampleGame (constTape (1 # 2)) 6 waiting))
    = false.
Proof.
  intro waiting.
  destruct (pursuers_keep_identity sampleGame (constTape (1 # 2)) (1 # 32) waiting)
    as [_ [W _]].
  destruct (pursuers_keep_identity sampleGame (constTape (1 # 2)) 6 waiting)
    as [_ [_ L]].
  split; [reflexivity|]. split.
  - rewrite W; [reflexivity|reflexivity|vm_compute; reflexivity].
  - apply L; [reflexivity|vm_compute; discriminate].
Defined.

(* ------------------------------------------------------------------ *)
(** ** Heading codes *)

Lemma requestedDirection_lt k d : (d < 4)%nat -> (requestedDirection k d < 4)%nat.
Proof.
  intro H. unfold requestedDirection.
  destruct (key_up k), (key_down k), (key_left k), (key_right k); lia.
Qed.

Lemma chooseGhostDirection_lt G t ghost target :
  (Ghost.direction ghost < 4)%nat ->
  (Ghost.direction (fst (chooseGhostDirection G t ghost target)) < 4)%nat.
Proof.
  intro H.
  destruct (chooseGhostDirection_spec G t ghost target) as [_ [_ [C D]]].
  cbv zeta in C, D.
  set (t0 := match target with
             | Some _ => t
             | None => snd (getGhostTarget G t ghost)
             end) in *.
  destruct (legalHeadings G t0 ghost) as [|c l] eqn:E.
  - rewrite (C eq_refl). exact H.
  - destruct (D ltac:(discriminate)) as [Hin _].
    rewrite <- E in Hin. apply legalHeadings_spec in Hin. tauto.
Qed.

Lemma updateGhost_lt G t dt ghost :
  (Ghost.direction ghost < 4)%nat ->
  (Ghost.direction (fst (updateGhost G t dt ghost)) < 4)%nat.
Proof.
  intro H. unfold updateGhost.
  assert (H1 : (Ghost.direction (houseExit G dt ghost) < 4)%nat).
  { unfold houseExit. destruct (_ && _); simpl; [lia|exact H]. }
  destruct (Ghost.inGhostHouse (houseExit G dt ghost)); [exact H1|].
  assert (H2 : (Ghost.direction (fst (updateGhostAI G t dt (houseExit G dt ghost))) < 4)%nat).
  { unfold updateGhostAI.
    destruct (getGhostTarget G t (houseExit G dt ghost)) as [tg t1].
    assert (S : (Ghost.direction (scheduleStep dt (houseExit G dt ghost)) < 4)%nat).
    { unfold scheduleStep. destruct (Ghost.mode _); try destruct (Qle_bool _ 0);
        simpl; exact H1. }
    destruct (Qltb _ _); [apply chooseGhostDirection_lt|]; simpl; exact S. }
  destruct (updateGhostAI G t dt (houseExit G dt ghost)) as [g2 t1]. simpl in H2.
  unfold moveGhost. destruct (ghostCandidate dt g2) as [nx ny].
  destruct (ghostTunnelWrap G dt g2); [exact H2|].
  destruct (isValidPosition G nx ny (Ghost.size g2)); [exact H2|].
  apply chooseGhostDirection_lt. exact H2.
Qed.

Lemma update_headings dt G : headingsOk G -> headingsOk (update dt G).
Proof.
  intros [Hp Hg]. split.
  - assert (P : (Pacman.direction (pacman (updatePacman dt G)) < 4)%nat).
    { unfold updatePacman.
      destruct (pacmanTunnelWrap G _) as [[wx wy]|];
        [simpl; apply requestedDirection_lt; exact Hp|].
      destruct (isValidPosition G _ _ _); [|exact Hp].
      destruct (animateMouth (pacman G)). simpl.
      apply requestedDirection_lt; exact Hp. }
    assert (Q1 : forall X, pacman (updateGhosts dt X) = pacman X).
    { intro X. unfold updateGhosts.
      destruct (updateGhostList X (rng X) dt (ghosts X)). reflexivity. }
    assert (Q2 : forall X, pacman (powerTimerStep dt X) = pacman X).
    { intro X. unfold powerTimerStep.
      destruct (GameState.powerPelletActive _); [|reflexivity].
      destruct (Qle_bool _ 0); reflexivity. }
    assert (Q3 : forall X, Pacman.direction (pacman (collectPellet X))
                           = Pacman.direction (pacman X)).
    { intro X. unfold collectPellet. destruct (pacmanCell X) as [gx gy].
      destruct (cellAt (gameMap X) gx gy) as [c|]; [|reflexivity].
      destruct (c =? 2)%Z; [reflexivity|]. destruct (c =? 3)%Z; reflexivity. }
    assert (Q4 : forall l X,
               Pacman.direction
                 (pacman (fold_left (fun acc index => collideGhost index acc) l X))
               = Pacman.direction (pacman X)).
    { induction l as [|i l IH]; intro X; simpl; [reflexivity|].
      rewrite IH. unfold collideGhost.
      destruct (nth_error (ghosts X) i) as [ghost|]; [|reflexivity].
      destruct (inContact X ghost); [|reflexivity].
      destruct (GameState.powerPelletActive (state X)); reflexivity. }
    unfold update. fold (beforeCollisions dt G).
    assert (C : (Pacman.direction (pacman (checkCollisions (beforeCollisions dt G))) < 4)%nat).
    { unfold checkCollisions, ghostCollisions. rewrite Q4, Q3.
      unfold beforeCollisions. rewrite Q2, Q1. exact P. }
    destruct (_ <=? 0)%Z; [|exact C]. exact C.
  - eapply (Forall2_Forall
              (fun g g' => (Ghost.direction g < 4)%nat -> (Ghost.direction g' < 4)%nat));
      [| |exact Hg].
    + intros a b H Ha. exact (H Ha).
    + apply ghostwise_update.
      * auto.
      * auto.
      * intros X t d g. apply updateGhost_lt.
      * intros g. unfold calm. destruct (Ghost.mode g); simpl; auto.
      * intros g Hd. unfold frighten. destruct (_ && _); simpl;
          [apply reverseDir_lt|exact Hd].
      * intros x y g Hd. exact Hd.
Qed.

Lemma restart_headings G : headingsOk (restart G).
Proof. split; simpl; [lia|]. repeat constructor; simpl; lia. Qed.

Lemma step_headings G e : headingsOk G -> headingsOk (step G e).
Proof.
  intro H.
  assert (P : headingsOk (togglePause G))
    by (unfold togglePause; destruct (GameState.current (state G)); exact H).
  destruct e as [elapsed|key|key| | |dir|vw vh]; simpl;
    [| | |exact P|apply (restart_headings G)|exact H|].
  - unfold gameLoop. destruct (GameState.current (state G)); auto.
    apply update_headings; exact H.
  - unfold handleKeyDown.
    repeat match goal with
           | |- context [if ?b then _ else _] => destruct b
           end; try exact H.
    + unfold togglePause; simpl.
      destruct (GameState.current (state G)); exact H.
    + destruct (GameState.current (state G)); try exact H.
      apply restart_headings.
  - unfold handleKeyUp.
    repeat match goal with
           | |- context [if ?b then _ else _] => destruct b
           end; exact H.
  - destruct H as [Hp Hg]. split; [exact Hp|].
    unfold resizeToViewport. simpl. apply Forall_map.
    eapply Forall_impl; [|exact Hg]. intros g Hd. exact Hd.
Qed.

(** X5. In every state a game can reach, the heading of the protagonist
    and of every pursuer is one of the codes 0..3, so every lookup in a
    four-entry direction table finds an entry. *)
Theorem headings_in_range (gs : Q) (t : Tape) (evs : list Event) :
  let G := run evs (newGame gs t) in
  (Pacman.direction (pacman G) < 4)%nat /\
  (forall g, In g (ghosts G) -> (Ghost.direction g < 4)%nat) /\
  In (dirVec (Pacman.direction (pacman G))) directions /\
  (forall g, In g (ghosts G) -> In (dirVec (Ghost.direction g)) directions).
Proof.
  intro G.
  assert (H : headingsOk G).
  { unfold G, run.
    assert (H0 : headingsOk (newGame gs t))
      by (split; simpl; [lia|repeat constructor; simpl; lia]).
    revert H0. generalize (newGame gs t).
    induction evs as [|e evs IH]; intros X H0; simpl; [exact H0|].
    apply IH. apply step_headings. exact H0. }
  destruct H as [Hp Hg].
  assert (D : forall d, (d < 4)%nat -> In (dirVec d) directions).
  { intros d Hd. unfold dirVec. apply nth_In. simpl. exact Hd. }
  split; [exact Hp|]. split; [apply Forall_forall; exact Hg|].
  split; [apply D; exact Hp|].
  intros g Hin. apply D. exact (proj1 (Forall_forall _ _) Hg g Hin).
Qed.

(* ------------------------------------------------------------------ *)
(** ** Speed, mode and power state *)

Lemma chooseGhostDirection_consistent a G t ghost target :
  ghostConsistent a ghost ->
  ghostConsistent a (fst (chooseGhostDirection G t ghost target)).
Proof.
  destruct (chooseGhostDirection_spec G t ghost target) as [A _].
  rewrite A. unfold ghostConsistent. simpl. auto.
Qed.

Lemma updateGhost_consistent a G t dt ghost :
  ghostConsistent a ghost -> ghostConsistent a (fst (updateGhost G t dt ghost)).
Proof.
  intro H. unfold updateGhost.
  assert (H1 : ghostConsistent a (houseExit G dt ghost)).
  { unfold houseExit. simpl.
    destruct (Ghost.inGhostHouse ghost) eqn:Eh; simpl; [|exact H].
    destruct (Qle_bool _ 0); [|exact H].
    destruct H as [Hf Hn]. split; simpl; [discriminate|].
    intros _. apply Hn. intro Hm. destruct (Hf Hm) as [_ [E _]]. congruence. }
  destruct (Ghost.inGhostHouse (houseExit G dt ghost)); [exact H1|].
  assert (H2 : ghostConsistent a (fst (updateGhostAI G t dt (houseExit G dt ghost)))).
  { unfold updateGhostAI.
    destruct (getGhostTarget G t (houseExit G dt ghost)) as [tg t1].
    assert (S : ghostConsistent a (scheduleStep dt (houseExit G dt ghost))).
    { revert H1. generalize (houseExit G dt ghost). intros g Hc.
      assert (Hs : Ghost.mode g <> frightened ->
                   Ghost.speed g = GAME_SPEED * (8 # 10)) by apply Hc.
      unfold scheduleStep.
      destruct (Ghost.mode g) eqn:Em; try exact Hc;
        destruct (Qle_bool _ 0); split; simpl; try discriminate;
        try (rewrite Em; discriminate);
        intros _; apply Hs; discriminate. }
    destruct (Qltb _ _); [apply chooseGhostDirection_consistent|]; simpl; exact S. }
  destruct (updateGhostAI G t dt (houseExit G dt ghost)) as [g2 t1]. simpl in H2.
  unfold moveGhost. destruct (ghostCandidate dt g2) as [nx ny].
  destruct (ghostTunnelWrap G dt g2); [exact H2|].
  destruct (isValidPosition G nx ny (Ghost.size g2)); [exact H2|].
  apply chooseGhostDirection_consistent. exact H2.
Qed.

Lemma updateGhostList_consistent a G dt : forall gl t,
  Forall (ghostConsistent a) gl ->
  Forall (ghostConsistent a) (fst (updateGhostList G t dt gl)).
Proof.
  induction gl as [|ghost gl IH]; intros t H; simpl; [constructor|].
  inversion H as [|? ? Hg Hrest]; subst.
  pose proof (updateGhost_consistent a G t dt ghost Hg) as A.
  destruct (updateGhost G t dt ghost) as [g' t1].
  pose proof (IH t1 Hrest) as B.
  destruct (updateGhostList G t1 dt gl) as [rest' t2].
  simpl in *. constructor; assumption.
Qed.

Lemma resetGhosts_consistent a gs : forall gl base,
  Forall (ghostConsistent a) gl -> Forall (ghostConsistent a) (resetGhosts gs base gl).
Proof.
  induction gl as [|ghost gl IH]; intros base H; simpl; [constructor|].
  inversion H; subst. constructor; [assumption|apply IH; assumption].
Qed.

Lemma beforeCollisions_speeds dt G : speedsOk G -> speedsOk (beforeCollisions dt G).
Proof.
  intro H. unfold beforeCollisions.
  assert (H1 : speedsOk (updatePacman dt G)).
  { unfold speedsOk. rewrite updatePacman_state.
    replace (ghosts (updatePacman dt G)) with (ghosts G); [exact H|].
    unfold updatePacman.
    destruct (pacmanTunnelWrap G _) as [[wx wy]|]; [reflexivity|].
    destruct (isValidPosition G _ _ _); [|reflexivity].
    destruct (animateMouth (pacman G)). reflexivity. }
  revert H1. generalize (updatePacman dt G). clear H G. intros G H.
  assert (H2 : speedsOk (updateGhosts dt G)).
  { unfold speedsOk. rewrite updateGhosts_state. unfold updateGhosts.
    pose proof (updateGhostList_consistent _ G dt (ghosts G) (rng G) H) as A.
    destruct (updateGhostList G (rng G) dt (ghosts G)) as [gl t]. exact A. }
  revert H2. generalize (updateGhosts dt G). clear H G. intros G H.
  unfold speedsOk, powerTimerStep in *.
  destruct (GameState.powerPelletActive (state G)) eqn:Ea; [|rewrite Ea; exact H].
  destruct (Qle_bool _ 0); simpl; [|exact H].
  apply Forall_map. eapply Forall_impl; [|exact H].
  intros g [Hf Hn]. unfold calm.
  destruct (Ghost.mode g) eqn:Em; split; simpl; try discriminate;
    try (rewrite Em; discriminate); try reflexivity;
    intros _; apply Hn; discriminate.
Qed.

Lemma checkCollisions_speeds G : speedsOk G -> speedsOk (checkCollisions G).
Proof.
  intro H. unfold checkCollisions, ghostCollisions.
  assert (H1 : speedsOk (collectPellet G)).
  { unfold speedsOk, collectPellet in *. destruct (pacmanCell G) as [gx gy].
    destruct (cellAt (gameMap G) gx gy) as [c|]; [|exact H].
    destruct (c =? 2)%Z; [exact H|]. destruct (c =? 3)%Z; [|exact H].
    simpl. apply Forall_map. eapply Forall_impl; [|exact H].
    intros g [Hf Hn]. unfold frighten.
    destruct (Ghost.inGhostHouse g) eqn:Eh; simpl.
    - split; [|exact Hn]. intro Hm. destruct (Hf Hm) as [_ [E _]]. congruence.
    - destruct (Mode_eqb (Ghost.mode g) dead) eqn:Ed; simpl.
      + split; [|exact Hn]. intro Hm. rewrite Hm in Ed. discriminate.
      + split; simpl; [auto|]. intro K. exfalso. apply K. reflexivity. }
  revert H1. generalize (seq 0 (List.length (ghosts (collectPellet G)))).
  generalize (collectPellet G). clear H G. intros G l. revert G.
  induction l as [|i l IH]; intros G H; simpl; [exact H|].
  apply IH. unfold speedsOk, collideGhost in *.
  destruct (nth_error (ghosts G) i) as [ghost|] eqn:E; [|exact H].
  destruct (inContact G ghost); [|exact H].
  destruct (GameState.powerPelletActive (state G)) eqn:Ea; simpl; rewrite ?Ea.
  - apply setNth_Forall; [|exact H].
    exact (proj1 (Forall_forall _ _) H ghost (nth_error_In _ _ E)).
  - apply resetGhosts_consistent. exact H.
Qed.

Lemma update_speeds dt G : speedsOk G -> speedsOk (update dt G).
Proof.
  intro H. unfold update. fold (beforeCollisions dt G).
  pose proof (checkCollisions_speeds _ (beforeCollisions_speeds dt G H)) as C.
  destruct (_ <=? 0)%Z; [|exact C].
  unfold speedsOk, nextLevel. simpl. apply resetGhosts_consistent. exact C.
Qed.

Lemma restart_speeds G : speedsOk (restart G).
Proof.
  unfold speedsOk. simpl.
  repeat constructor; simpl; try discriminate; intro K; exfalso; apply K; reflexivity.
Qed.

Lemma step_speeds G e : speedsOk G -> speedsOk (step G e).
Proof.
  intro H.
  assert (P : speedsOk (togglePause G))
    by (unfold togglePause; destruct (GameState.current (state G)); exact H).
  destruct e as [elapsed|key|key| | |dir|vw vh]; simpl;
    [| | |exact P|apply (restart_speeds G)|exact H|].
  - unfold gameLoop. destruct (GameState.current (state G)); auto.
    apply update_speeds; exact H.
  - unfold handleKeyDown.
    repeat match goal with
           | |- context [if ?b then _ else _] => destruct b
           end; try exact H.
    + unfold togglePause; simpl.
      destruct (GameState.current (state G)); exact H.
    + destruct (GameState.current (state G)); try exact H.
      apply restart_speeds.
  - unfold handleKeyUp.
    repeat match goal with
           | |- context [if ?b then _ else _] => destruct b
           end; exact H.
  - unfold speedsOk, resizeToViewport. simpl. apply Forall_map.
    eapply Forall_impl; [|exact H]. intros g Hg. exact Hg.
Qed.

Lemma run_speeds gs t evs : speedsOk (run evs (newGame gs t)).
Proof.
  unfold run.
  assert (H0 : speedsOk (newGame gs t)).
  { unfold speedsOk. simpl.
    repeat constructor; simpl; try discriminate;
      intro K; exfalso; apply K; reflexivity. }
  revert H0. generalize (newGame gs t).
  induction evs as [|e evs IH]; intros X H0; simpl; [exact H0|].
  apply IH. apply step_speeds. exact H0.
Qed.

(** X6. In every state a game can reach, a pursuer is frightened only
    while the power state is active and only outside the pen; its speed is
    120 pixels per second (0.6 of the game speed) exactly when it is
    frightened and 160 (0.8 of the game speed) in every other mode. *)
Theorem speed_matches_mode (gs : Q) (t : Tape) (evs : list Event) :
  let G := run evs (newGame gs t) in
  forall g, In g (ghosts G) ->
    (Ghost.mode g = frightened ->
       GameState.powerPelletActive (state G) = true /\
       Ghost.inGhostHouse g = false) /\
    (Ghost.mode g = frightened <-> Ghost.speed g == 120) /\
    (Ghost.mode g <> frightened <-> Ghost.speed g == 160).
Proof.
  intros G g Hin.
  assert (H : speedsOk G) by apply run_speeds.
  destruct (proj1 (Forall_forall _ _) H g Hin) as [Hf Hn].
  assert (D : Ghost.mode g = frightened \/ Ghost.mode g <> frightened)
    by (destruct (Ghost.mode g); auto; right; discriminate).
  split; [intro Hm; destruct (Hf Hm) as [_ [A B]]; auto|]. split; split.
  - intro Hm. destruct (Hf Hm) as [E _]. rewrite E. reflexivity.
  - intro Hs. destruct D as [D|D]; [exact D|].
    rewrite (Hn D) in Hs. vm_compute in Hs. discriminate.
  - intro Hm. rewrite (Hn Hm). reflexivity.
  - intros Hs Hm. destruct (Hf Hm) as [E _]. rewrite E in Hs.
    vm_compute in Hs. discriminate.
Qed.

Lemma speed_matches_mode_witness :
  let g := nth 0 (ghosts sampleGame) strandedClyde in
  In g (ghosts sampleGame) /\ Ghost.mode g <> frightened /\ Ghost.speed g == 160.
Proof.
  intro g.
  assert (Hin : In g (ghosts sampleGame)) by (left; reflexivity).
  assert (Hm : Ghost.mode g <> frightened) by discriminate.
  split; [exact Hin|]. split; [exact Hm|].
  destruct (speed_matches_mode 19 (constTape (1 # 2)) [] g Hin) as [_ [_ [S _]]].
  apply S. exact Hm.
Defined.

(* ------------------------------------------------------------------ *)
(** ** Pause and input *)

Lemma frames_do_nothing (fs : list Q) : forall G,
  GameState.current (state G) <> playing ->
  run (map Frame fs) G = G.
Proof.
  unfold run. induction fs as [|f fs IH]; intros G H; simpl; [reflexivity|].
  assert (E : gameLoop f G = G).
  { unfold gameLoop. destruct (GameState.current (state G)); congruence. }
  rewrite E. apply IH. exact H.
Qed.

Lemma togglePause_playing G :
  GameState.current (state G) = playing ->
  togglePause G = with_state (GameState.with_current paused (state G)) G.
Proof. intro H. unfold togglePause. rewrite H. reflexivity. Qed.

(** X7. Pausing a playing game, letting any number of frames pass and
    resuming gives back exactly the game that was paused: no frame
    advances a paused game.  With the pause control of the page nothing
    at all has changed; with the space bar only the space flag is set.
    In any phase but playing and paused the pause command does
    nothing. *)
Theorem pause_round_trip (G : PacmanGame) (fs : list Q) :
  (GameState.current (state G) = playing ->
     run (PauseButton :: map Frame fs ++ [PauseButton]) G = G /\
     run (KeyDown " " :: map Frame fs ++ [KeyDown " "]) G =
       with_keys (mkKeys (key_up (keys G)) (key_down (keys G))
                         (key_left (keys G)) (key_right (keys G)) true) G) /\
  (GameState.current (state G) <> playing ->
     run (map Frame fs) G = G) /\
  (GameState.current (state G) <> playing ->
   GameState.current (state G) <> paused ->
     togglePause G = G).
Proof.
  split; [|split].
  - intro H. unfold run. cbn [fold_left step]. rewrite !fold_left_app.
    cbn [fold_left step].
    assert (P : forall X, GameState.current (state X) = playing ->
                  fold_left step (map Frame fs) (togglePause X) =
                  with_state (GameState.with_current paused (state X)) X).
    { intros X HX. rewrite (togglePause_playing X HX).
      apply (frames_do_nothing fs). simpl. discriminate. }
    split.
    + rewrite (P G H).
      destruct G as [s p gl m tr k g r]. destruct s as [c sc lv li pr pa pt].
      simpl in H. subst c. reflexivity.
    + set (K := with_keys (mkKeys (key_up (keys G)) (key_down (keys G))
                             (key_left (keys G)) (key_right (keys G)) true) G).
      change (handleKeyDown " " G) with (togglePause K).
      rewrite (P K H).
      destruct G as [s p gl m tr k g r]. destruct s as [c sc lv li pr pa pt].
      simpl in H. subst c. reflexivity.
  - apply frames_do_nothing.
  - intros H1 H2. unfold togglePause.
    destruct (GameState.current (state G)); congruence.
Qed.

Lemma pause_round_trip_witness :
  run (PauseButton :: map Frame [1 # 60; 1 # 30; 5] ++ [PauseButton]) sampleGame
    = sampleGame.
Proof.
  destruct (pause_round_trip sampleGame [1 # 60; 1 # 30; 5]) as [P _].
  exact (proj1 (P eq_refl)).
Defined.



(* ------------------------------------------------------------------ *)
(** ** Lives *)

(** After a reset of the positions no pursuer touches the protagonist,
    when the bodies have their size of 0.4 cell. *)
Lemma reset_separates G :
  bodiesFit G ->
  Forall (fun g => inContact (resetPositions G) g = false)
         (ghosts (resetPositions G)).
Proof.
  intros [Hg [Hp Hs]]. unfold resetPositions. cbn [ghosts with_ghosts].
  assert (K : forall gl base, (0 <= base)%Z ->
            Forall (fun g => Ghost.size g = GRID_SIZE G * (4 # 10)) gl ->
            Forall (fun g => inContact (resetPositions G) g = false)
                   (resetGhosts (GRID_SIZE G) base gl)).
  { induction gl as [|g gl IH]; intros base Hb Hf; simpl; [constructor|].
    inversion Hf as [|? ? Hsz Hrest]; subst.
    constructor; [|apply IH; [lia|exact Hrest]].
    unfold inContact, sqrt_lt, dist2ToPacman, resetPositions, sq.
    cbn [pacman with_ghosts with_pacman Pacman.with_xy Pacman.x Pacman.y
         Pacman.size Ghost.with_xy Ghost.x Ghost.y Ghost.size].
    rewrite Hp, Hsz.
    assert (Hq : 0 <= inject_Z base)
      by (change 0 with (inject_Z 0); rewrite <- Zle_Qle; exact Hb).
    set (q := inject_Z base) in *. clearbody q.
    set (gs := GRID_SIZE G) in *. clearbody gs.
    apply andb_false_intro2. apply Qltb_ge. nra. }
  apply (K (ghosts G) 0%Z); [lia|exact Hs].
Qed.

Lemma quiet_fold : forall l X,
  Forall (fun g => inContact X g = false) (ghosts X) ->
  fold_left (fun acc index => collideGhost index acc) l X = X.
Proof.
  induction l as [|i l IH]; intros X H; simpl; [reflexivity|].
  assert (E : collideGhost i X = X).
  { unfold collideGhost.
    destruct (nth_error (ghosts X) i) as [ghost|] eqn:En; [|reflexivity].
    rewrite (proj1 (Forall_forall _ _) H ghost (nth_error_In _ _ En)).
    reflexivity. }
  rewrite E. apply IH. exact H.
Qed.

Lemma collideGhost_fit i G : bodiesFit G -> bodiesFit (collideGhost i G).
Proof.
  intros [Hg [Hp Hs]]. unfold collideGhost.
  destruct (nth_error (ghosts G) i) as [ghost|] eqn:E;
    [|repeat split; assumption].
  destruct (inContact G ghost); [|repeat split; assumption].
  destruct (GameState.powerPelletActive (state G)); simpl;
    (split; [exact Hg|split; [exact Hp|]]).
  - apply setNth_Forall; [|exact Hs]. simpl.
    exact (proj1 (Forall_forall _ _) Hs ghost (nth_error_In _ _ E)).
  - clear E. unfold resetPositions. cbn [ghosts with_ghosts GRID_SIZE with_pacman with_state].
    generalize 0%Z. induction Hs; intro base; simpl; constructor; auto.
Qed.

Lemma atMostOneLoss_refl s : atMostOneLoss s s.
Proof. left. split; reflexivity. Qed.

(** The pursuer loop of [checkCollisions] costs at most one life. *)
Lemma ghostCollisions_one_loss : forall l G,
  bodiesFit G ->
  atMostOneLoss (state G)
    (state (fold_left (fun acc index => collideGhost index acc) l G)).
Proof.
  induction l as [|i l IH]; intros G Hf; simpl; [apply atMostOneLoss_refl|].
  pose proof (IH _ (collideGhost_fit i G Hf)) as A.
  unfold collideGhost in *.
  destruct (nth_error (ghosts G) i) as [ghost|] eqn:En; [|exact A].
  destruct (inContact G ghost); [|exact A].
  destruct (GameState.powerPelletActive (state G)); [exact A|].
  clear A.
  rewrite quiet_fold.
  - right. simpl. split; reflexivity.
  - apply (reset_separates (with_state (GameState.loseLife (state G)) G)).
    exact Hf.
Qed.

Lemma beforeCollisions_pacman_size dt G :
  Pacman.size (pacman (beforeCollisions dt G)) = Pacman.size (pacman G).
Proof.
  unfold beforeCollisions.
  assert (Q2 : forall X, pacman (powerTimerStep dt X) = pacman X).
  { intro X. unfold powerTimerStep.
    destruct (GameState.powerPelletActive _); [|reflexivity].
    destruct (Qle_bool _ 0); reflexivity. }
  assert (Q1 : forall X, pacman (updateGhosts dt X) = pacman X).
  { intro X. unfold updateGhosts.
    destruct (updateGhostList X (rng X) dt (ghosts X)). reflexivity. }
  rewrite Q2, Q1. unfold updatePacman.
  destruct (pacmanTunnelWrap G _) as [[wx wy]|]; [reflexivity|].
  destruct (isValidPosition G _ _ _); [|reflexivity].
  destruct (animateMouth (pacman G)). reflexivity.
Qed.

Lemma beforeCollisions_fit dt G : bodiesFit G -> bodiesFit (beforeCollisions dt G).
Proof.
  intros [Hg [Hp Hs]].
  assert (F : sameFrame G (beforeCollisions dt G)).
  { unfold beforeCollisions.
    eapply sameFrame_trans; [apply updatePacman_frame|].
    eapply sameFrame_trans; [apply updateGhosts_frame|].
    apply powerTimerStep_frame. }
  destruct F as [_ F]. unfold bodiesFit. rewrite F.
  split; [exact Hg|]. split; [rewrite beforeCollisions_pacman_size; exact Hp|].
  eapply (Forall2_Forall samePursuer); [| |exact Hs].
  - intros a b [_ [_ [S _]]] Ha. congruence.
  - apply (ghostwise_beforeCollisions samePursuer samePursuer_refl samePursuer_trans).
    + intros; apply updateGhost_same.
    + apply calm_same.
Qed.

Lemma collectPellet_fit G : bodiesFit G -> bodiesFit (collectPellet G).
Proof.
  intros [Hg [Hp Hs]]. unfold collectPellet. destruct (pacmanCell G) as [gx gy].
  destruct (cellAt (gameMap G) gx gy) as [c|]; [|repeat split; assumption].
  destruct (c =? 2)%Z; [repeat split; assumption|].
  destruct (c =? 3)%Z; [|repeat split; assumption].
  split; [exact Hg|]. split; [exact Hp|]. simpl.
  apply Forall_map. eapply Forall_impl; [|exact Hs].
  intros g Hsz. unfold frighten. destruct (_ && _); exact Hsz.
Qed.

Lemma collideFold_fit : forall l G,
  bodiesFit G ->
  bodiesFit (fold_left (fun acc index => collideGhost index acc) l G).
Proof.
  induction l as [|i l IH]; intros G H; simpl; [exact H|].
  apply IH. apply collideGhost_fit. exact H.
Qed.

(** A tick costs at most one life, and keeps the bodies as they are. *)
Lemma update_one_loss dt G :
  bodiesFit G ->
  atMostOneLoss (state G) (state (update dt G)) /\ bodiesFit (update dt G).
Proof.
  intro Hf.
  pose proof (beforeCollisions_fit dt G Hf) as F3.
  pose proof (collectPellet_fit _ F3) as F3'.
  assert (S3 : GameState.current (state (collectPellet (beforeCollisions dt G)))
               = GameState.current (state G) /\
               GameState.lives (state (collectPellet (beforeCollisions dt G)))
               = GameState.lives (state G)).
  { assert (A : GameState.current (state (beforeCollisions dt G))
                = GameState.current (state G) /\
                GameState.lives (state (beforeCollisions dt G))
                = GameState.lives (state G)).
    { unfold beforeCollisions, powerTimerStep.
      rewrite updateGhosts_state, updatePacman_state.
      destruct (GameState.powerPelletActive (state G));
        [destruct (Qle_bool _ 0)|]; simpl;
        rewrite ?updateGhosts_state, ?updatePacman_state; split; reflexivity. }
    destruct A as [A1 A2]. rewrite <- A1, <- A2.
    generalize (beforeCollisions dt G). intro X.
    unfold collectPellet. destruct (pacmanCell X) as [gx gy].
    destruct (cellAt (gameMap X) gx gy) as [c|]; [|split; reflexivity].
    destruct (c =? 2)%Z; [split; reflexivity|].
    destruct (c =? 3)%Z; split; reflexivity. }
  pose proof (ghostCollisions_one_loss
                (seq 0 (List.length (ghosts (collectPellet (beforeCollisions dt G)))))
                _ F3') as L.
  pose proof (collideFold_fit
                (seq 0 (List.length (ghosts (collectPellet (beforeCollisions dt G)))))
                _ F3') as F4.
  unfold update. fold (beforeCollisions dt G).
  unfold checkCollisions, ghostCollisions.
  set (G4 := fold_left _ _ _) in *.
  destruct S3 as [C3 L3]. unfold atMostOneLoss in L. rewrite C3, L3 in L.
  destruct (GameState.pelletsRemaining (state G4) <=? 0)%Z.
  - split; [exact L|].
    destruct F4 as [Hg [Hp Hs]]. unfold nextLevel, bodiesFit. simpl.
    split; [exact Hg|]. split; [exact Hp|].
    generalize 0%Z. induction Hs; intro base; simpl; constructor; auto.
  - split; [exact L|exact F4].
Qed.

Lemma restart_fit G : 0 < GRID_SIZE G -> bodiesFit (restart G).
Proof.
  intro H. unfold bodiesFit. simpl. split; [exact H|]. split; [reflexivity|].
  repeat constructor.
Qed.

Lemma togglePause_livesOk G :
  livesOk (state G) -> livesOk (state (togglePause G)).
Proof.
  unfold togglePause, livesOk.
  destruct (GameState.current (state G)) eqn:E; simpl; try rewrite E; auto;
    intros [[_ H]|[H _]]; try discriminate; left; split; auto.
Qed.

Lemma step_lives G e :
  (match e with Resize _ _ => false | _ => true end) = true ->
  bodiesFit G /\ livesOk (state G) ->
  bodiesFit (step G e) /\ livesOk (state (step G e)).
Proof.
  intros He [Hf Hl].
  assert (R : bodiesFit (restart G) /\ livesOk (state (restart G))).
  { split; [apply restart_fit; apply Hf|].
    left. simpl. split; [left; reflexivity|lia]. }
  assert (P : bodiesFit (togglePause G) /\ livesOk (state (togglePause G))).
  { split; [|apply togglePause_livesOk; exact Hl].
    unfold togglePause. destruct (GameState.current (state G)); exact Hf. }
  destruct e as [elapsed|key|key| | |dir|vw vh]; simpl;
    [| | |exact P|exact R|split; assumption|discriminate].
  - unfold gameLoop.
    destruct (GameState.current (state G)) eqn:Ec; try (split; assumption).
    destruct (update_one_loss
                (if Qle_bool elapsed MAX_DELTA_TIME then elapsed else MAX_DELTA_TIME)
                G Hf) as [A B].
    split; [exact B|].
    destruct Hl as [[_ Hl]|[Hl _]]; [|congruence].
    unfold atMostOneLoss in A. rewrite Ec in A. unfold livesOk.
    destruct A as [[A1 A2]|[A1 A2]].
    + left. rewrite A1, A2. split; [left; reflexivity|exact Hl].
    + destruct (GameState.lives (state G) - 1 <=? 0)%Z eqn:E.
      * right. apply Z.leb_le in E. split; [exact A2|lia].
      * left. apply Z.leb_gt in E. rewrite A2. split; [left; reflexivity|lia].
  - unfold handleKeyDown.
    repeat match goal with
           | |- context [if ?b then _ else _] => destruct b
           end; try (split; assumption).
    + split; [|apply togglePause_livesOk; exact Hl].
      unfold togglePause. simpl.
      destruct (GameState.current (state G)); exact Hf.
    + destruct (GameState.current (state G)); try (split; assumption). exact R.
  - unfold handleKeyUp.
    repeat match goal with
           | |- context [if ?b then _ else _] => destruct b
           end; split; assumption.
Qed.

Lemma run_lives : forall evs G,
  noResize evs = true ->
  bodiesFit G /\ livesOk (state G) ->
  bodiesFit (run evs G) /\ livesOk (state (run evs G)).
Proof.
  unfold run. induction evs as [|e evs IH]; intros G Hn H; simpl; [exact H|].
  simpl in Hn. apply andb_true_iff in Hn. destruct Hn as [He Hn].
  apply IH; [exact Hn|]. apply step_lives; assumption.
Qed.

(** X9. As long as the bodies have the size they were created with
    (0.4 of the grid size, which holds until the window is resized), a
    tick costs at most one life: the reset that follows the first loss
    separates the protagonist from every pursuer.  Hence, in a game on a
    positive grid size whose window is never resized, lives stay between
    0 and 3, and the phase is game-over exactly when no life is left. *)
Theorem lives_and_phase (G : PacmanGame) (deltaTime : Q)
    (gs : Q) (t : Tape) (evs : list Event) :
  (bodiesFit G ->
     GameState.lives (state (update deltaTime G)) = GameState.lives (state G) \/
     GameState.lives (state (update deltaTime G)) = (GameState.lives (state G) - 1)%Z) /\
  (bodiesFit G ->
     forall g, In g (ghosts (resetPositions G)) ->
       inContact (resetPositions G) g = false) /\
  (0 < gs -> noResize evs = true ->
     let R := run evs (newGame gs t) in
     (0 <= GameState.lives (state R) <= 3)%Z /\
     (GameState.current (state R) = gameOver <-> GameState.lives (state R) = 0%Z) /\
     (GameState.current (state R) = playing \/
      GameState.current (state R) = paused \/
      GameState.current (state R) = gameOver)).
Proof.
  split; [|split].
  - intro Hf. destruct (update_one_loss deltaTime G Hf) as [[[_ A]|[A _]] _]; auto.
  - intros Hf. apply Forall_forall. apply reset_separates. exact Hf.
  - intros Hg Hn R.
    assert (I0 : bodiesFit (newGame gs t) /\ livesOk (state (newGame gs t))).
    { split.
      - unfold bodiesFit. simpl. split; [exact Hg|]. split; [reflexivity|].
        repeat constructor.
      - left. simpl. split; [left; reflexivity|lia]. }
    destruct (run_lives evs _ Hn I0) as [_ L]. fold R in L.
    destruct L as [[[C|C] L]|[C L]]; rewrite C, ?L.
    + split; [lia|]. split; [split; [discriminate|lia]|auto].
    + split; [lia|]. split; [split; [discriminate|lia]|auto].
    + split; [lia|]. split; [split; reflexivity|auto].
Qed.

Lemma lives_and_phase_witness :
  let evs := [Frame (1 # 60); KeyDown "ArrowLeft"; Frame 1] in
  noResize evs = true /\
  (0 <= GameState.lives (state (run evs sampleGame)) <= 3)%Z /\
  inContact (resetPositions sampleGame)
            (nth 0 (ghosts (resetPositions sampleGame)) strandedClyde) = false.
Proof.
  intro evs.
  destruct (lives_and_phase sampleGame (1 # 60) 19 (constTape (1 # 2)) evs)
    as [_ [S L]].
  split; [reflexivity|]. split.
  - apply (L eq_refl eq_refl).
  - apply S.
    + unfold bodiesFit. split; [reflexivity|]. split; [reflexivity|].
      repeat constructor.
    + left. reflexivity.
Defined.

(* ------------------------------------------------------------------ *)
(** ** Accepted steps *)

(** [isValidPosition] in terms of the canvas and the maze. *)
Lemma isValidPosition_spec G x y size :
  isValidPosition G x y size = true <->
  0 <= x - size /\ x + size <= CANVAS_WIDTH G /\
  0 <= y - size /\ y + size <= CANVAS_HEIGHT G /\
  cellAt (gameMap G) (floorDiv x (GRID_SIZE G)) (floorDiv y (GRID_SIZE G))
    <> Some WALL.
Proof.
  unfold isValidPosition.
  destruct (Qltb (x - size) 0) eqn:E1; simpl.
  { apply Qltb_lt in E1. split; [discriminate|].
    intros [H _]. exfalso. exact (Qlt_not_le _ _ E1 H). }
  destruct (Qltb (CANVAS_WIDTH G) (x + size)) eqn:E2; simpl.
  { apply Qltb_lt in E2. split; [discriminate|].
    intros [_ [H _]]. exfalso. exact (Qlt_not_le _ _ E2 H). }
  destruct (Qltb (y - size) 0) eqn:E3; simpl.
  { apply Qltb_lt in E3. split; [discriminate|].
    intros [_ [_ [H _]]]. exfalso. exact (Qlt_not_le _ _ E3 H). }
  destruct (Qltb (CANVAS_HEIGHT G) (y + size)) eqn:E4; simpl.
  { apply Qltb_lt in E4. split; [discriminate|].
    intros [_ [_ [_ [H _]]]]. exfalso. exact (Qlt_not_le _ _ E4 H). }
  apply Qltb_ge in E1, E2, E3, E4.
  destruct (cellAt _ _ _) as [c|].
  - unfold WALL. split.
    + intro H. apply negb_true_iff, Z.eqb_neq in H.
      repeat split; try assumption. congruence.
    + intros [_ [_ [_ [_ H]]]]. apply negb_true_iff, Z.eqb_neq. congruence.
  - split; [|reflexivity]. intros _. repeat split; try assumption. discriminate.
Qed.

(** X10. The two stepping routines never put an agent where the
    validity check refuses: a step of the protagonist in [updatePacman],
    and a step of a pursuer in the movement part of [updateGhosts], that
    is not a tunnel wrap either leaves the position as it was or ends on a
    position [isValidPosition] accepts.  The other moves of a tick are
    not checked: after a position reset, the release from the pen puts the
    fourth pursuer on a position the check refuses. *)
Theorem accepted_steps_are_valid (G : PacmanGame) (t : Tape) (deltaTime : Q)
    (ghost : Ghost.t) :
  (let p := pacman G in
   let p' := pacman (updatePacman deltaTime G) in
   pacmanTunnelWrap G (requestedDirection (keys G) (Pacman.direction p)) = None ->
   (Pacman.x p' = Pacman.x p /\ Pacman.y p' = Pacman.y p) \/
   isValidPosition G (Pacman.x p') (Pacman.y p') (Pacman.size p') = true) /\
  (let g' := fst (moveGhost G t deltaTime ghost) in
   ghostTunnelWrap G deltaTime ghost = None ->
   (Ghost.x g' = Ghost.x ghost /\ Ghost.y g' = Ghost.y ghost) \/
   isValidPosition G (Ghost.x g') (Ghost.y g') (Ghost.size g') = true) /\
  (let G0 := resetPositions sampleGame in
   let waiting := nth 3 (ghosts G0) strandedClyde in
   let released := houseExit G0 6 waiting in
   Ghost.inGhostHouse waiting = true /\
   Ghost.inGhostHouse released = false /\
   isValidPosition G0 (Ghost.x released) (Ghost.y released) (Ghost.size released)
     = false).
Proof.
  split; [|split].
  - intros p p' Hw. unfold p', updatePacman. fold p. rewrite Hw.
    destruct (isValidPosition G _ _ _) eqn:E; [|left; split; reflexivity].
    destruct (animateMouth p). right. simpl. exact E.
  - intros g' Hw. unfold g', moveGhost.
    destruct (ghostCandidate deltaTime ghost) as [nx ny]. rewrite Hw.
    destruct (isValidPosition G nx ny (Ghost.size ghost)) eqn:E.
    + right. simpl. exact E.
    + left. destruct (chooseGhostDirection_spec G t ghost None) as [A _].
      rewrite A. split; reflexivity.
  - vm_compute. repeat split; reflexivity.
Qed.

Lemma accepted_steps_are_valid_witness :
  let p' := pacman (updatePacman (1 # 64) sampleGame) in
  Pacman.x p' == (551 # 2) - (200 # 64) /\
  isValidPosition sampleGame (Pacman.x p') (Pacman.y p') (Pacman.size p') = true.
Proof.
  intro p'. split; [vm_compute; reflexivity|].
  destruct (accepted_steps_are_valid sampleGame (constTape (1 # 2)) (1 # 64)
              strandedClyde) as [P _].
  destruct (P ltac:(vm_compute; reflexivity)) as [[Hx _]|H]; [|exact H].
  exfalso. vm_compute in Hx. discriminate.
Defined.

(* ------------------------------------------------------------------ *)
(** ** Restart and resize *)

(** X11. [restart()] forgets the game so far.  Its result depends
    only on the held keys, the random source and the grid size, which it
    keeps; everything else is set afresh: phase playing, score 0, level 1,
    three lives, no power state, the template maze with its full pellet
    count and no tunnel row, the protagonist at the centre of column 14 of
    row 27 heading left, the four pursuers in scatter mode at normal
    speed, the first released and the others waiting 2, 4 and 6 seconds.
    Restarting twice is restarting once. *)
Theorem restart_forgets_history (G G2 : PacmanGame) :
  (keys G2 = keys G -> rng G2 = rng G -> GRID_SIZE G2 = GRID_SIZE G ->
     restart G2 = restart G) /\
  restart (restart G) = restart G /\
  (keys (restart G) = keys G /\ rng (restart G) = rng G /\
   GRID_SIZE (restart G) = GRID_SIZE G) /\
  gameMap (restart G) = createDefaultMap /\
  tunnelRows (restart G) = [] /\
  state (restart G) =
    GameState.mk playing 0 1 3 (pelletCount createDefaultMap) false 0 /\
  (Pacman.x (pacman (restart G)) = GRID_SIZE G * (inject_Z 14 + (1 # 2)) /\
   Pacman.y (pacman (restart G)) = GRID_SIZE G * (inject_Z 27 + (1 # 2)) /\
   Pacman.direction (pacman (restart G)) = 2%nat) /\
  map (fun g => (Ghost.name g, Ghost.mode g, Ghost.inGhostHouse g,
                 Ghost.modeTimer g, Ghost.speed g)) (ghosts (restart G)) =
    [ (Blinky, scatter, false, 0, GAME_SPEED * (8 # 10));
      (Pinky, scatter, true, 2, GAME_SPEED * (8 # 10));
      (Inky, scatter, true, 4, GAME_SPEED * (8 # 10));
      (Clyde, scatter, true, 6, GAME_SPEED * (8 # 10)) ].
Proof.
  split.
  { intros Ek Er Eg. destruct G, G2. simpl in Ek, Er, Eg. subst.
    reflexivity. }
  split; [reflexivity|]. split; [repeat split|]. split; [reflexivity|].
  split; [apply restart_tunnelRows|]. split; [reflexivity|].
  split; [repeat split|]. reflexivity.
Qed.

Lemma restart_forgets_history_witness :
  restart lastLife = restart sampleGame.
Proof.
  exact (proj1 (restart_forgets_history sampleGame lastLife)
           eq_refl eq_refl eq_refl).
Defined.






(* ------------------------------------------------------------------ *)
(** ** Targets *)

Lemma randomPoint_onCanvas G t :
  0 < GRID_SIZE G -> unitDraws t ->
  onCanvas G (fst (randomPoint G t)) /\
  cursor (snd (randomPoint G t)) = (cursor t + 2)%nat /\
  draws (snd (randomPoint G t)) = draws t.
Proof.
  intros P U. unfold randomPoint, Math_random. simpl.
  destruct (U (cursor t) (le_n _)) as [A1 A2].
  destruct (U (S (cursor t)) (le_S _ _ (le_n _))) as [B1 B2].
  assert (W : 0 < CANVAS_WIDTH G).
  { unfold CANVAS_WIDTH. apply Qmult_lt_0_compat; [reflexivity|exact P]. }
  assert (H : 0 < CANVAS_HEIGHT G).
  { unfold CANVAS_HEIGHT. apply Qmult_lt_0_compat; [reflexivity|exact P]. }
  split; [|split; [lia|reflexivity]].
  unfold onCanvas. simpl.
  split; [apply Qmult_le_0_compat; [exact A1|apply Qlt_le_weak; exact W]|].
  split; [rewrite <- (Qmult_1_l (CANVAS_WIDTH G)) at 2;
          apply Qmult_lt_compat_r; assumption|].
  split; [apply Qmult_le_0_compat; [exact B1|apply Qlt_le_weak; exact H]|].
  rewrite <- (Qmult_1_l (CANVAS_HEIGHT G)) at 2.
  apply Qmult_lt_compat_r; assumption.
Qed.

(** X13. What the targets are.  A frightened pursuer, of whatever
    personality, aims at a point of the canvas, taking two draws.  In the
    chase mode the ambusher aims four cells ahead of the protagonist along
    the protagonist's heading, without a draw; the random personality
    takes one draw, aims at the protagonist when it is below 0.7 and
    otherwise at a point of the canvas, taking two more.  The four scatter
    corners lie on the canvas and are pairwise distinct. *)
Theorem targets_by_mode (G : PacmanGame) (t : Tape) (ghost : Ghost.t) :
  0 < GRID_SIZE G -> unitDraws t ->
  let tgt := fst (getGhostTarget G t ghost) in
  let t' := snd (getGhostTarget G t ghost) in
  let p := pacman G in
  (Ghost.mode ghost = frightened ->
     onCanvas G tgt /\ cursor t' = (cursor t + 2)%nat) /\
  (Ghost.mode ghost = chase -> Ghost.personality ghost = ambush ->
   (Pacman.direction p < 4)%nat ->
     fst tgt == Pacman.x p + 4 * GRID_SIZE G * fst (dirVec (Pacman.direction p)) /\
     snd tgt == Pacman.y p + 4 * GRID_SIZE G * snd (dirVec (Pacman.direction p)) /\
     t' = t) /\
  (Ghost.mode ghost = chase -> Ghost.personality ghost = random ->
     (draws t (cursor t) < 7 # 10 ->
        tgt = (Pacman.x p, Pacman.y p) /\ cursor t' = (cursor t + 1)%nat) /\
     (7 # 10 <= draws t (cursor t) ->
        onCanvas G tgt /\ cursor t' = (cursor t + 3)%nat)) /\
  (12 <= GRID_SIZE G ->
   forall a b, onCanvas G (corners G a) /\
               (corners G a = corners G b -> a = b)).
Proof.
  intros P U tgt t' p. unfold tgt, t', getGhostTarget. fold p.
  split; [|split; [|split]].
  - intro M. rewrite M.
    destruct (randomPoint_onCanvas G t P U) as [A [B _]]. split; assumption.
  - intros M A D. rewrite M, A.
    assert (C : (Pacman.direction p = 0 \/ Pacman.direction p = 1 \/
                 Pacman.direction p = 2 \/ Pacman.direction p = 3)%nat) by lia.
    destruct C as [C|[C|[C|C]]]; rewrite C; simpl;
      (split; [ring|split; [ring|reflexivity]]).
  - intros M A. rewrite M, A. unfold Math_random. simpl. split.
    + intro L. apply Qltb_lt in L. rewrite L. simpl. split; [reflexivity|lia].
    + intro L. apply Qltb_ge in L. rewrite L.
      assert (U' : unitDraws (mkTape (draws t) (S (cursor t)))).
      { intros n Hn. simpl in Hn. apply U. lia. }
      destruct (randomPoint_onCanvas G _ P U') as [X [Y _]].
      split; [exact X|]. rewrite Y. simpl. lia.
  - intros L a b. split.
    + unfold onCanvas, corners, CANVAS_WIDTH, CANVAS_HEIGHT.
      change (inject_Z CLASSIC_COLS) with (28 # 1).
      change (inject_Z CLASSIC_ROWS) with (29 # 1).
      destruct a; simpl; repeat split; lra.
    + intro E.
      assert (E1 : fst (corners G a) == fst (corners G b))
        by (rewrite E; reflexivity).
      assert (E2 : snd (corners G a) == snd (corners G b))
        by (rewrite E; reflexivity).
      unfold corners, CANVAS_WIDTH, CANVAS_HEIGHT in E1, E2.
      change (inject_Z CLASSIC_COLS) with (28 # 1) in E1.
      change (inject_Z CLASSIC_ROWS) with (29 # 1) in E2.
      destruct a, b; simpl in E1, E2; try reflexivity; exfalso; lra.
Qed.

Lemma targets_by_mode_witness :
  onCanvas sampleGame
    (fst (getGhostTarget sampleGame (constTape (1 # 2)) (frighten midChase))).
Proof.
  assert (U : unitDraws (constTape (1 # 2))).
  { intros n _. simpl. split; [discriminate|reflexivity]. }
  destruct (targets_by_mode sampleGame (constTape (1 # 2)) (frighten midChase)
              ltac:(reflexivity) U) as [A _].
  exact (proj1 (A eq_refl)).
Defined.


(* ------------------------------------------------------------------ *)
(** * Properties of class [CollisionSystem] *)

Lemma sqrt_lt_spec d2 r : sqrt_lt d2 r = true <-> 0 < r /\ d2 < r * r.
Proof.
  unfold sqrt_lt. rewrite andb_true_iff, !Qltb_lt. reflexivity.
Qed.

Lemma sqrt_le_spec d2 r : sqrt_le d2 r = true <-> 0 <= r /\ d2 <= r * r.
Proof.
  unfold sqrt_le. rewrite andb_true_iff, !Qle_bool_iff. reflexivity.
Qed.

Lemma Qle_bool_gt (a b : Q) : Qle_bool a b = false <-> b < a.
Proof.
  rewrite <- Qltb_lt. unfold Qltb. rewrite negb_true_iff. reflexivity.
Qed.

Lemma aabb_spec (a b : CollisionSystem.Rect) :
  CollisionSystem.aabbCollision a b = true <->
  CollisionSystem.rx a < CollisionSystem.rx b + CollisionSystem.width b /\
  CollisionSystem.rx b < CollisionSystem.rx a + CollisionSystem.width a /\
  CollisionSystem.ry a < CollisionSystem.ry b + CollisionSystem.height b /\
  CollisionSystem.ry b < CollisionSystem.ry a + CollisionSystem.height a.
Proof.
  unfold CollisionSystem.aabbCollision.
  rewrite !andb_true_iff, !Qltb_lt. tauto.
Qed.

Lemma abs_lt_of_sq (a b r : Q) : 0 < r -> a * a + b * b < r * r -> a < r /\ - a < r.
Proof.
  intros Hr H.
  assert (Hb : 0 <= b * b) by nra.
  split.
  - destruct (Qlt_le_dec a r) as [L|L]; [exact L|]. exfalso. nra.
  - destruct (Qlt_le_dec (- a) r) as [L|L]; [exact L|]. exfalso. nra.
Qed.

Lemma abs_le_of_sq (a b r : Q) : 0 <= r -> a * a + b * b <= r * r -> a <= r /\ - a <= r.
Proof.
  intros Hr H.
  assert (Hb : 0 <= b * b) by nra.
  split.
  - destruct (Qlt_le_dec r a) as [L|L]; [|exact L]. exfalso. nra.
  - destruct (Qlt_le_dec r (- a)) as [L|L]; [|exact L]. exfalso. nra.
Qed.

(** X14. The overlap tests.  Both [aabbCollision] and [circleCollision]
    are symmetric in their arguments; a rectangle overlaps itself
    exactly when its width and height are positive; two circles that
    collide have overlapping bounding squares; a point inside a circle
    lies inside the bounding square of the circle. *)
Theorem collision_geometry (r1 r2 : CollisionSystem.Rect)
    (c1 c2 : CollisionSystem.Circle) (p : Q * Q) :
  CollisionSystem.aabbCollision r1 r2 = CollisionSystem.aabbCollision r2 r1 /\
  (CollisionSystem.aabbCollision r1 r1 = true <->
     0 < CollisionSystem.width r1 /\ 0 < CollisionSystem.height r1) /\
  CollisionSystem.circleCollision c1 c2 = CollisionSystem.circleCollision c2 c1 /\
  (CollisionSystem.circleCollision c1 c2 = true ->
     CollisionSystem.aabbCollision (boundingBox c1) (boundingBox c2) = true) /\
  (CollisionSystem.pointInCircle p c1 = true ->
     CollisionSystem.pointInRect p (boundingBox c1) = true).
Proof.
  split; [|split; [|split; [|split]]].
  - apply eq_true_iff_eq. rewrite !aabb_spec. tauto.
  - rewrite aabb_spec. split.
    + intros [H1 [_ [H2 _]]]. split; lra.
    + intros [H1 H2]. repeat split; lra.
  - apply eq_true_iff_eq. unfold CollisionSystem.circleCollision.
    rewrite !sqrt_lt_spec. split; intros [H1 H2]; split; lra.
  - unfold CollisionSystem.circleCollision. rewrite sqrt_lt_spec, aabb_spec.
    intros [Hr H]. simpl.
    destruct (abs_lt_of_sq _ _ _ Hr H) as [X1 X2].
    assert (H' : (CollisionSystem.cy c1 - CollisionSystem.cy c2) *
                 (CollisionSystem.cy c1 - CollisionSystem.cy c2) +
                 (CollisionSystem.cx c1 - CollisionSystem.cx c2) *
                 (CollisionSystem.cx c1 - CollisionSystem.cx c2) <
                 (CollisionSystem.radius c1 + CollisionSystem.radius c2) *
                 (CollisionSystem.radius c1 + CollisionSystem.radius c2)) by lra.
    destruct (abs_lt_of_sq _ _ _ Hr H') as [Y1 Y2].
    repeat split; lra.
  - unfold CollisionSystem.pointInCircle, CollisionSystem.pointInRect.
    rewrite sqrt_le_spec, !andb_true_iff, !Qle_bool_iff.
    intros [Hr H]. simpl.
    destruct (abs_le_of_sq _ _ _ Hr H) as [X1 X2].
    assert (H' : (snd p - CollisionSystem.cy c1) * (snd p - CollisionSystem.cy c1) +
                 (fst p - CollisionSystem.cx c1) * (fst p - CollisionSystem.cx c1) <=
                 CollisionSystem.radius c1 * CollisionSystem.radius c1) by lra.
    destruct (abs_le_of_sq _ _ _ Hr H') as [Y1 Y2].
    repeat split; lra.
Qed.

Lemma collision_geometry_witness :
  CollisionSystem.aabbCollision
    (boundingBox (CollisionSystem.mkCircle 0 0 2))
    (boundingBox (CollisionSystem.mkCircle 3 0 (3 # 2))) = true.
Proof.
  destruct (collision_geometry (CollisionSystem.mkRect 0 0 1 1)
              (CollisionSystem.mkRect 0 0 1 1)
              (CollisionSystem.mkCircle 0 0 2)
              (CollisionSystem.mkCircle 3 0 (3 # 2)) (0, 0))
    as [_ [_ [_ [H _]]]].
  apply H. reflexivity.
Defined.

Lemma gridCollision_wall G x y :
  (CollisionSystem.gridCollision x y (gameMap G) (GRID_SIZE G) =? 1)%Z = false <->
  cellAt (gameMap G) (floorDiv x (GRID_SIZE G)) (floorDiv y (GRID_SIZE G))
    <> Some WALL.
Proof.
  unfold CollisionSystem.gridCollision, WALL.
  destruct (cellAt _ _ _) as [c|].
  - rewrite Z.eqb_neq. split; congruence.
  - simpl. split; [discriminate|reflexivity].
Qed.

(** X15. The five-point validity check of [CollisionSystem] against the
    centre-only check of the game.  It accepts a position exactly when all
    four corners of the body and the centre lie on the canvas, right and
    bottom edges excluded, and none of the five lies on a wall cell; so it
    accepts only positions the game's check accepts, and it rejects some
    of those: beside a wall the game lets the body overlap the wall. *)
Theorem validity_checks_compared (G : PacmanGame) (x y size : Q) :
  (CollisionSystem.isValidPosition G x y size (gameMap G) (GRID_SIZE G) = true <->
   forall point, In point (CollisionSystem.probePoints x y size) ->
     (0 <= fst point /\ fst point < CANVAS_WIDTH G /\
      0 <= snd point /\ snd point < CANVAS_HEIGHT G) /\
     cellAt (gameMap G) (floorDiv (fst point) (GRID_SIZE G))
                        (floorDiv (snd point) (GRID_SIZE G)) <> Some WALL) /\
  (CollisionSystem.isValidPosition G x y size (gameMap G) (GRID_SIZE G) = true ->
   isValidPosition G x y size = true) /\
  (isValidPosition sampleGame (fst besideWall) (snd besideWall) (76 # 10) = true /\
   CollisionSystem.isValidPosition sampleGame (fst besideWall) (snd besideWall)
     (76 # 10) (gameMap sampleGame) (GRID_SIZE sampleGame) = false).
Proof.
  assert (C : CollisionSystem.isValidPosition G x y size (gameMap G) (GRID_SIZE G) = true <->
   forall point, In point (CollisionSystem.probePoints x y size) ->
     (0 <= fst point /\ fst point < CANVAS_WIDTH G /\
      0 <= snd point /\ snd point < CANVAS_HEIGHT G) /\
     cellAt (gameMap G) (floorDiv (fst point) (GRID_SIZE G))
                        (floorDiv (snd point) (GRID_SIZE G)) <> Some WALL).
  { unfold CollisionSystem.isValidPosition. rewrite forallb_forall.
    split; intros H point Hin; specialize (H point Hin).
    - destruct (Qltb (fst point) 0) eqn:E1; [discriminate|].
      destruct (Qle_bool (CANVAS_WIDTH G) (fst point)) eqn:E2; [discriminate|].
      destruct (Qltb (snd point) 0) eqn:E3; [discriminate|].
      destruct (Qle_bool (CANVAS_HEIGHT G) (snd point)) eqn:E4; [discriminate|].
      simpl in H. apply negb_true_iff, gridCollision_wall in H.
      apply Qltb_ge in E1, E3.
      apply Qle_bool_gt in E2, E4. auto.
    - destruct H as [[A1 [A2 [A3 A4]]] W].
      assert (E1 : Qltb (fst point) 0 = false) by (apply Qltb_ge; exact A1).
      assert (E3 : Qltb (snd point) 0 = false) by (apply Qltb_ge; exact A3).
      assert (E2 : Qle_bool (CANVAS_WIDTH G) (fst point) = false)
        by (apply Qle_bool_gt; exact A2).
      assert (E4 : Qle_bool (CANVAS_HEIGHT G) (snd point) = false)
        by (apply Qle_bool_gt; exact A4).
      rewrite E1, E2, E3, E4. simpl.
      apply negb_true_iff, gridCollision_wall. exact W. }
  split; [exact C|]. split; [|split; vm_compute; reflexivity].
  intro H. rewrite C in H. apply isValidPosition_spec.
  destruct (H (x - size, y - size)) as [[A1 [_ [A3 _]]] _]; [simpl; auto|].
  destruct (H (x + size, y + size)) as [[_ [B2 [_ B4]]] _]; [simpl; auto 6|].
  destruct (H (x, y)) as [_ W]; [simpl; auto 6|].
  simpl in *. repeat split; try assumption; apply Qlt_le_weak; assumption.
Qed.

(** X16. The contact and pellet checks of [CollisionSystem] against the
    game's own, on a positive grid size.  A contact it reports (within 0.8 of the summed sizes)
    is a contact for the game.  A pellet it reports lies in the cell under
    the protagonist's centre, is a pellet or power pellet there, and the
    game's collection step empties exactly that cell; it reports the
    pellet only within 0.3 of a grid size of the cell's centre, while the
    game collects it anywhere in the cell. *)
Theorem collision_checks_vs_game (G : PacmanGame) (ghost : Ghost.t) :
  0 < GRID_SIZE G ->
  (CollisionSystem.checkPacmanGhostCollision (pacman G) ghost <> None ->
     inContact G ghost = true) /\
  (forall gx gy c,
     CollisionSystem.checkPacmanPelletCollision (pacman G) (gameMap G) (GRID_SIZE G)
       = Some (gx, gy, c) ->
     (gx, gy) = pacmanCell G /\ cellAt (gameMap G) gx gy = Some c /\
     (c = PELLET \/ c = POWER_PELLET) /\
     gameMap (collectPellet G) = setCell (gameMap G) gx gy EMPTY /\
     sqrt_lt (sq (Pacman.x (pacman G) - (inject_Z gx + (1 # 2)) * GRID_SIZE G) +
              sq (Pacman.y (pacman G) - (inject_Z gy + (1 # 2)) * GRID_SIZE G))
             (GRID_SIZE G * (3 # 10)) = true) /\
  (forall c, cellAt (gameMap G) (fst (pacmanCell G)) (snd (pacmanCell G)) = Some c ->
     (c = PELLET \/ c = POWER_PELLET) ->
     gameMap (collectPellet G) =
       setCell (gameMap G) (fst (pacmanCell G)) (snd (pacmanCell G)) EMPTY).
Proof.
  intros _. split; [|split].
  - unfold CollisionSystem.checkPacmanGhostCollision, inContact, dist2ToPacman, sq.
    destruct (sqrt_lt _ (_ * (8 # 10))) eqn:E; [|congruence]. intros _.
    apply sqrt_lt_spec in E. apply sqrt_lt_spec. destruct E as [E1 E2].
    set (s := Pacman.size (pacman G) + Ghost.size ghost) in *.
    assert (Hs : 0 < s) by lra. split; [exact Hs|]. nra.
  - intros gx gy c. unfold CollisionSystem.checkPacmanPelletCollision, pacmanCell, sq.
    destruct (cellAt _ _ _) as [cell|] eqn:Hc; [|discriminate].
    destruct ((cell =? 2)%Z || (cell =? 3)%Z) eqn:Hp; [|discriminate].
    destruct (sqrt_lt _ _) eqn:Hd; [|discriminate].
    intro E. inversion E; subst gx gy c. clear E.
    split; [reflexivity|]. split; [exact Hc|].
    assert (K : cell = PELLET \/ cell = POWER_PELLET).
    { apply orb_true_iff in Hp. unfold PELLET, POWER_PELLET.
      destruct Hp as [Hp|Hp]; apply Z.eqb_eq in Hp; auto. }
    split; [exact K|]. split; [|exact Hd].
    unfold collectPellet, pacmanCell. rewrite Hc.
    destruct K as [K|K]; rewrite K; reflexivity.
  - intros c Hc K. unfold pacmanCell in Hc. simpl in Hc.
    unfold collectPellet, pacmanCell. simpl. rewrite Hc.
    destruct K as [K|K]; rewrite K; reflexivity.
Qed.

Lemma collision_checks_vs_game_witness :
  inContact (with_ghosts [touchingGhost chase] sampleGame) (touchingGhost chase) = true.
Proof.
  refine (proj1 (collision_checks_vs_game
                   (with_ghosts [touchingGhost chase] sampleGame)
                   (touchingGhost chase) _) _).
  - reflexivity.
  - vm_compute. discriminate.
Defined.

Lemma In_offsets r d : In d (CollisionSystem.offsets r) <-> (- r <= d <= r)%Z.
Proof.
  unfold CollisionSystem.offsets. rewrite in_map_iff. split.
  - intros [i [E Hi]]. apply in_seq in Hi. lia.
  - intro H. exists (Z.to_nat (d + r)). split; [lia|]. apply in_seq. lia.
Qed.

Lemma In_getNearby {A} (a : A) x y r (g : CollisionSystem.SpatialGrid A) :
  In a (CollisionSystem.getNearby x y r g) <->
  exists dx dy, (- r <= dx <= r)%Z /\ (- r <= dy <= r)%Z /\
    In a (CollisionSystem.grid g
            (floorDiv x (CollisionSystem.cellSize g) + dx)%Z
            (floorDiv y (CollisionSystem.cellSize g) + dy)%Z).
Proof.
  unfold CollisionSystem.getNearby. rewrite in_flat_map. split.
  - intros [dy [Hy H]]. apply in_flat_map in H. destruct H as [dx [Hx H]].
    apply In_offsets in Hx, Hy. exists dx, dy. auto.
  - intros [dx [dy [Hx [Hy H]]]]. exists dy. split; [apply In_offsets; exact Hy|].
    apply in_flat_map. exists dx. split; [apply In_offsets; exact Hx|exact H].
Qed.

(** X17. The spatial grid, for a positive cell size.  After
    [insert(o, x, y)] a query
    [getNearby(x', y', r)] returns what it returned before and, exactly
    when the cells of the two points are at most [r] apart in each
    direction, the object [o] as well; the declared width and height of
    the grid play no part.  A fresh or cleared grid returns nothing. *)
Theorem spatial_grid_lookup {A : Type} (g : CollisionSystem.SpatialGrid A)
    (o a : A) (x y x' y' w h cs : Q) (r : Z) :
  0 < CollisionSystem.cellSize g ->
  let cellOf v := floorDiv v (CollisionSystem.cellSize g) in
  (In a (CollisionSystem.getNearby x' y' r (CollisionSystem.insert o x y g)) <->
   In a (CollisionSystem.getNearby x' y' r g) \/
   (a = o /\ (Z.abs (cellOf x - cellOf x') <= r)%Z /\
             (Z.abs (cellOf y - cellOf y') <= r)%Z)) /\
  CollisionSystem.getNearby x' y' r (CollisionSystem.clear g) = [] /\
  CollisionSystem.getNearby x' y' r
    (CollisionSystem.createSpatialGrid (A := A) w h cs) = [].
Proof.
  intros _ cellOf.
  assert (N : forall (gr : CollisionSystem.SpatialGrid A),
            (forall i j, CollisionSystem.grid gr i j = []) ->
            CollisionSystem.getNearby x' y' r gr = []).
  { intros gr E. destruct (CollisionSystem.getNearby x' y' r gr) as [|b l] eqn:L;
      [reflexivity|]. exfalso.
    assert (Hb : In b (CollisionSystem.getNearby x' y' r gr))
      by (rewrite L; left; reflexivity).
    apply In_getNearby in Hb. destruct Hb as [dx [dy [_ [_ Hb]]]].
    rewrite E in Hb. exact Hb. }
  split; [|split; apply N; reflexivity].
  rewrite !In_getNearby. simpl CollisionSystem.cellSize. fold (cellOf x') (cellOf y').
  split.
  - intros [dx [dy [Hx [Hy H]]]]. simpl in H. fold (cellOf x) (cellOf y) in H.
    destruct ((cellOf x' + dx =? cellOf x)%Z && (cellOf y' + dy =? cellOf y)%Z) eqn:E.
    + apply andb_true_iff in E. destruct E as [E1 E2].
      apply Z.eqb_eq in E1, E2. apply in_app_or in H.
      destruct H as [H|[H|[]]].
      * left. exists dx, dy. auto.
      * right. split; [symmetry; exact H|]. split; lia.
    + left. exists dx, dy. auto.
  - intros [[dx [dy [Hx [Hy H]]]]|[E [Hx Hy]]].
    + exists dx, dy. split; [exact Hx|]. split; [exact Hy|]. simpl.
      destruct (_ && _); [apply in_or_app; left; exact H|exact H].
    + exists (cellOf x - cellOf x')%Z, (cellOf y - cellOf y')%Z.
      split; [lia|]. split; [lia|]. simpl. fold (cellOf x) (cellOf y).
      replace (cellOf x' + (cellOf x - cellOf x'))%Z with (cellOf x) by lia.
      replace (cellOf y' + (cellOf y - cellOf y'))%Z with (cellOf y) by lia.
      rewrite !Z.eqb_refl. simpl. apply in_or_app. right. left. symmetry. exact E.
Qed.

Lemma spatial_grid_lookup_witness :
  In 7%nat
    (CollisionSystem.getNearby 31 18 1
       (CollisionSystem.insert 7%nat 25 25
          (CollisionSystem.createSpatialGrid 100 100 10))).
Proof.
  destruct (spatial_grid_lookup (CollisionSystem.createSpatialGrid 100 100 10)
              7%nat 7%nat 25 25 31 18 100 100 10 1 ltac:(reflexivity))
    as [[_ K] _].
  apply K. right. split; [reflexivity|].
  split; vm_compute; intro; discriminate.
Defined.



(* ------------------------------------------------------------------ *)
(** * Properties of class [Ghost] *)

(** The comparison of two scores is the comparison it stands for,
    wherever the square roots are rational. *)
Lemma scoreBeats_spec (sa sb r s : Q) :
  0 <= sa -> 0 <= sb ->
  (scoreBeats (sa * sa) r (sb * sb) s = true <-> - sb + s < - sa + r).
Proof.
  intros Ha Hb. unfold scoreBeats.
  destruct (Qeq_bool (s - r) 0) eqn:E0.
  - apply Qeq_bool_eq in E0. rewrite Qltb_lt. split; intro H.
    + destruct (Qlt_le_dec sa sb) as [L|L]; [lra|]. exfalso. nra.
    + nra.
  - apply Qeq_bool_neq in E0.
    destruct (Qltb 0 (s - r)) eqn:E1.
    + apply Qltb_lt in E1. rewrite andb_true_iff, !Qltb_lt. split.
      * intros [H1 H2].
        destruct (Qlt_le_dec (sa + (s - r)) sb) as [L|L]; [lra|]. exfalso.
        assert (K : sb * sb <= (sa + (s - r)) * (sa + (s - r))) by nra.
        assert (K2 : 0 <= 2 * (s - r) * sa) by nra.
        assert (K3 : sb * sb - sa * sa - (s - r) * (s - r) <= 2 * (s - r) * sa) by lra.
        nra.
      * intro H.
        assert (K : (sa + (s - r)) * (sa + (s - r)) < sb * sb) by nra.
        assert (K3 : 2 * (s - r) * sa < sb * sb - sa * sa - (s - r) * (s - r)) by lra.
        assert (K2 : 0 <= 2 * (s - r) * sa) by nra.
        split; [lra|]. nra.
    + apply Qltb_ge in E1.
      assert (C : s - r < 0).
      { destruct (Qlt_le_dec (s - r) 0) as [L|L]; [exact L|].
        exfalso. apply E0. lra. }
      rewrite orb_true_iff, !Qltb_lt. split.
      * intros [H|H].
        -- destruct (Qlt_le_dec sa (sb + (r - s))) as [L|L]; [lra|]. exfalso.
           assert (K : (sb + (r - s)) * (sb + (r - s)) <= sa * sa) by nra.
           assert (K2 : 0 <= 2 * (r - s) * sb) by nra.
           lra.
        -- destruct (Qlt_le_dec sa (sb + (r - s))) as [L|L]; [lra|]. exfalso.
           assert (K : (sb + (r - s)) * (sb + (r - s)) <= sa * sa) by nra.
           assert (K2 : 0 <= 2 * (r - s) * sb) by nra.
           assert (K3 : 2 * (r - s) * sb <= sa * sa - sb * sb - (s - r) * (s - r)) by lra.
           nra.
      * intro H.
        destruct (Qlt_le_dec (sa * sa - sb * sb - (s - r) * (s - r)) 0) as [L|L];
          [left; exact L|right].
        assert (K : sa * sa < (sb + (r - s)) * (sb + (r - s))) by nra.
        assert (K3 : sa * sa - sb * sb - (s - r) * (s - r) < 2 * (r - s) * sb) by lra.
        nra.
Qed.



Lemma move_sameBody G m dt tp g : sameBody g (fst (GhostAI.move G m dt tp g)).
Proof.
  unfold GhostAI.move.
  destruct (fold_left _ _ _) as [[bd bs] t1].
  destruct (GhostAI.ahead dt g bd) as [nx ny].
  destruct (GhostAI.isValidPosition G m g nx ny).
  - simpl. unfold sameBody. simpl. repeat split.
  - destruct (Math_random t1) as [r t2]. simpl. unfold sameBody. simpl. repeat split.
Qed.

Lemma updateChaseTarget_keeps G pacman tp g :
  let g' := fst (GhostAI.updateChaseTarget G pacman tp g) in
  GhostAI.mode g' = GhostAI.mode g /\ GhostAI.modeTimer g' = GhostAI.modeTimer g /\
  GhostAI.speed g' = GhostAI.speed g /\ GhostAI.baseSpeed g' = GhostAI.baseSpeed g /\
  GhostAI.homeCorner g' = GhostAI.homeCorner g /\ GhostAI.size g' = GhostAI.size g.
Proof.
  unfold GhostAI.updateChaseTarget.
  destruct (GhostAI.personality g); simpl.
  - repeat split.
  - repeat split.
  - destruct (sqrt_gt _ _); simpl; repeat split.
  - destruct (Qltb _ _); simpl; repeat split.
Qed.

Lemma update_after_updateAI G dt pacman m tp g :
  sameBody (fst (GhostAI.updateAI G pacman tp
                   (GhostAI.with_modeTimer (GhostAI.modeTimer g + dt) g)))
           (fst (GhostAI.update G dt pacman m tp g)).
Proof.
  unfold GhostAI.update.
  destruct (GhostAI.updateAI G pacman tp _) as [g2 tp1].
  pose proof (move_sameBody G m dt tp1 g2) as S.
  destruct (GhostAI.move G m dt tp1 g2) as [g3 tp2].
  simpl in *. exact S.
Qed.

Lemma update_frightened G dt pacman m tp g :
  GhostAI.mode g = frightened ->
  let g' := fst (GhostAI.update G dt pacman m tp g) in
  GhostAI.mode g' = frightened /\ GhostAI.baseSpeed g' = GhostAI.baseSpeed g /\
  GhostAI.speed g' = GhostAI.baseSpeed g * (6 # 10).
Proof.
  intros E g'.
  destruct (update_after_updateAI G dt pacman m tp g)
    as [_ [B [S [M _]]]]. fold g' in B, S, M.
  unfold GhostAI.updateAI in B, S, M. simpl in B, S, M. rewrite E in B, S, M.
  simpl in B, S, M. rewrite E in M. split; [exact M|]. split; assumption.
Qed.

Lemma update_dead G dt pacman m tp g :
  GhostAI.mode g = dead ->
  let g' := fst (GhostAI.update G dt pacman m tp g) in
  GhostAI.mode g' = dead /\ GhostAI.baseSpeed g' = GhostAI.baseSpeed g /\
  GhostAI.speed g' = GhostAI.baseSpeed g * (15 # 10).
Proof.
  intros E g'.
  destruct (update_after_updateAI G dt pacman m tp g)
    as [_ [B [S [M _]]]]. fold g' in B, S, M.
  unfold GhostAI.updateAI in B, S, M. simpl in B, S, M. rewrite E in B, S, M.
  simpl in B, S, M. rewrite E in M. split; [exact M|]. split; assumption.
Qed.

Lemma updates_stuck G m (k : Mode) (f : Q) :
  (forall dt pacman tp g, GhostAI.mode g = k ->
     let g' := fst (GhostAI.update G dt pacman m tp g) in
     GhostAI.mode g' = k /\ GhostAI.baseSpeed g' = GhostAI.baseSpeed g /\
     GhostAI.speed g' = GhostAI.baseSpeed g * f) ->
  forall frames tp g, GhostAI.mode g = k ->
    let h := fst (GhostAI.updates G m frames tp g) in
    GhostAI.mode h = k /\ GhostAI.baseSpeed h = GhostAI.baseSpeed g /\
    (frames <> [] -> GhostAI.speed h = GhostAI.baseSpeed g * f).
Proof.
  intro U. induction frames as [|[dt pacman] rest IH]; intros tp g E; simpl.
  - split; [exact E|]. split; [reflexivity|]. intro H. congruence.
  - destruct (U dt pacman tp g E) as [M [B S]].
    destruct (GhostAI.update G dt pacman m tp g) as [g1 tp1]. simpl in M, B, S.
    destruct (IH tp1 g1 M) as [M' [B' S']].
    split; [exact M'|]. split; [congruence|]. intros _.
    destruct rest as [|fr rest'].
    + simpl. exact S.
    + rewrite S'; [|discriminate]. rewrite B. reflexivity.
Qed.

(** X19. The schedule of class [Ghost].  An update takes a scattering
    ghost to the chase mode, timer at 0, exactly when its timer, the time
    step included, exceeds 7, and a chasing ghost back to scatter when it
    exceeds 20; otherwise the mode is kept and the timer has advanced by
    the time step.  A scattering ghost is given its home corner as target.
    Updates alone never end the frightened or the dead mode, however many
    follow: the ghost stays at 0.6 (frightened) or 1.5 (dead) of its base
    speed.  No update changes base speed, home corner or size. *)
Theorem ghost_schedule (G : PacmanGame) (m : Grid) (dt : Q) (pacman : Pacman.t)
    (tp : Tape) (g : GhostAI.t) (frames : list (Q * Pacman.t)) :
  let g' := fst (GhostAI.update G dt pacman m tp g) in
  let h := fst (GhostAI.updates G m frames tp g) in
  (GhostAI.mode g = scatter ->
     GhostAI.target g' = GhostAI.homeCorner g /\
     (GhostAI.modeTimer g + dt <= 7 ->
        GhostAI.mode g' = scatter /\
        GhostAI.modeTimer g' = GhostAI.modeTimer g + dt) /\
     (7 < GhostAI.modeTimer g + dt ->
        GhostAI.mode g' = chase /\ GhostAI.modeTimer g' = 0)) /\
  (GhostAI.mode g = chase ->
     (GhostAI.modeTimer g + dt <= 20 ->
        GhostAI.mode g' = chase /\
        GhostAI.modeTimer g' = GhostAI.modeTimer g + dt) /\
     (20 < GhostAI.modeTimer g + dt ->
        GhostAI.mode g' = scatter /\ GhostAI.modeTimer g' = 0)) /\
  (GhostAI.mode g = frightened ->
     GhostAI.mode h = frightened /\
     (frames <> [] -> GhostAI.speed h = GhostAI.baseSpeed g * (6 # 10))) /\
  (GhostAI.mode g = dead ->
     GhostAI.mode h = dead /\
     (frames <> [] -> GhostAI.speed h = GhostAI.baseSpeed g * (15 # 10))) /\
  (GhostAI.baseSpeed g' = GhostAI.baseSpeed g /\
   GhostAI.homeCorner g' = GhostAI.homeCorner g /\
   GhostAI.size g' = GhostAI.size g).
Proof.
  intros g' h.
  destruct (update_after_updateAI G dt pacman m tp g)
    as [Z [B [S [M [T [Tg [Hc _]]]]]]].
  fold g' in Z, B, S, M, T, Tg, Hc.
  split; [|split; [|split; [|split]]].
  - intro E. unfold GhostAI.updateAI in M, T, Tg. simpl in M, T, Tg.
    rewrite E in M, T, Tg. simpl in M, T, Tg.
    split; [destruct (Qltb 7 _); exact Tg|]. split.
    + intro L. apply Qltb_ge in L. rewrite L in M, T. simpl in M, T.
      rewrite E in M. split; assumption.
    + intro L. apply Qltb_lt in L. rewrite L in M, T. simpl in M, T.
      split; assumption.
  - intro E. unfold GhostAI.updateAI in M, T. simpl in M, T.
    rewrite E in M, T.
    pose proof (updateChaseTarget_keeps G pacman tp
                  (GhostAI.with_modeTimer (GhostAI.modeTimer g + dt) g)) as K.
    destruct (GhostAI.updateChaseTarget G pacman tp _) as [g1 tp1].
    simpl in K. destruct K as [K1 [K2 _]]. rewrite K2 in M, T. split.
    + intro L. apply Qltb_ge in L. rewrite L in M, T. simpl in M, T.
      rewrite M, T. split; [congruence|exact K2].
    + intro L. apply Qltb_lt in L. rewrite L in M, T. simpl in M, T.
      split; assumption.
  - intro E.
    destruct (updates_stuck G m frightened (6 # 10)
                (fun dt' p' tp' g0 => update_frightened G dt' p' m tp' g0)
                frames tp g E) as [A [_ C]].
    split; assumption.
  - intro E.
    destruct (updates_stuck G m dead (15 # 10)
                (fun dt' p' tp' g0 => update_dead G dt' p' m tp' g0)
                frames tp g E) as [A [_ C]].
    split; assumption.
  - unfold GhostAI.updateAI in Z, B, Hc. simpl in Z, B, Hc.
    pose proof (updateChaseTarget_keeps G pacman tp
                  (GhostAI.with_modeTimer (GhostAI.modeTimer g + dt) g)) as K.
    destruct (GhostAI.mode g).
    + destruct (Qltb 7 _); simpl in Z, B, Hc; auto.
    + destruct (GhostAI.updateChaseTarget G pacman tp _) as [g1 tp1].
      simpl in K. destruct K as [_ [_ [_ [K4 [K5 K6]]]]].
      destruct (Qltb 20 _); simpl in Z, B, Hc; split; [| | |]; try congruence;
        split; congruence.
    + simpl in Z, B, Hc. auto.
    + simpl in Z, B, Hc. auto.
Qed.

Lemma ghost_schedule_witness :
  GhostAI.mode
    (fst (GhostAI.updates sampleGame (gameMap sampleGame)
            [(1 # 60, pacman sampleGame); (30, pacman sampleGame)]
            (constTape (1 # 2)) (GhostAI.frighten corridorGhost))) = frightened.
Proof.
  refine (proj1 (proj1 (proj2 (proj2
            (ghost_schedule sampleGame (gameMap sampleGame) 0 (pacman sampleGame)
               (constTape (1 # 2)) (GhostAI.frighten corridorGhost)
               [(1 # 60, pacman sampleGame); (30, pacman sampleGame)]))) _)).
  reflexivity.
Defined.







(* ------------------------------------------------------------------ *)
(** * The mouth animation ([js/game.js], [js/pacman.js]) *)

Lemma animateMouth_ok p :
  mouthOk p ->
  0 <= fst (animateMouth p) /\ fst (animateMouth p) <= 1 /\
  (snd (animateMouth p) = 1 \/ snd (animateMouth p) = (-1 # 1)).
Proof.
  intros [A [B C]]. unfold animateMouth.
  destruct (Qle_bool 1 _) eqn:E1; simpl.
  - split; [discriminate|]. split; [discriminate|]. right. reflexivity.
  - destruct (Qle_bool _ 0) eqn:E2; simpl.
    + split; [discriminate|]. split; [discriminate|]. left. reflexivity.
    + apply Qle_bool_gt in E1, E2.
      split; [apply Qlt_le_weak; exact E2|].
      split; [apply Qlt_le_weak; exact E1|exact C].
Qed.

Lemma updatePacman_mouth dt G : mouthOk (pacman G) -> mouthOk (pacman (updatePacman dt G)).
Proof.
  intro H. unfold updatePacman.
  destruct (pacmanTunnelWrap G _) as [[wx wy]|]; [exact H|].
  destruct (isValidPosition G _ _ _); [|exact H].
  pose proof (animateMouth_ok _ H) as K.
  destruct (animateMouth (pacman G)) as [mo md]. exact K.
Qed.

Lemma update_mouth dt G : mouthOk (pacman G) -> mouthOk (pacman (update dt G)).
Proof.
  intro H.
  assert (Q1 : forall X, pacman (updateGhosts dt X) = pacman X).
  { intro X. unfold updateGhosts.
    destruct (updateGhostList X (rng X) dt (ghosts X)). reflexivity. }
  assert (Q2 : forall X, pacman (powerTimerStep dt X) = pacman X).
  { intro X. unfold powerTimerStep.
    destruct (GameState.powerPelletActive _); [|reflexivity].
    destruct (Qle_bool _ 0); reflexivity. }
  assert (Q3 : forall X, pacman (collectPellet X) = pacman X).
  { intro X. unfold collectPellet. destruct (pacmanCell X) as [gx gy].
    destruct (cellAt (gameMap X) gx gy) as [c|]; [|reflexivity].
    destruct (c =? 2)%Z; [reflexivity|]. destruct (c =? 3)%Z; reflexivity. }
  assert (Q4 : forall l X, mouthOk (pacman X) ->
             mouthOk (pacman (fold_left (fun acc index => collideGhost index acc) l X))).
  { induction l as [|i l IH]; intros X HX; simpl; [exact HX|].
    apply IH. unfold collideGhost.
    destruct (nth_error (ghosts X) i) as [ghost|]; [|exact HX].
    destruct (inContact X ghost); [|exact HX].
    destruct (GameState.powerPelletActive (state X)); exact HX. }
  unfold update. fold (beforeCollisions dt G).
  assert (C : mouthOk (pacman (checkCollisions (beforeCollisions dt G)))).
  { unfold checkCollisions, ghostCollisions. apply Q4. rewrite Q3.
    unfold beforeCollisions. rewrite Q2, Q1. apply updatePacman_mouth. exact H. }
  destruct (_ <=? 0)%Z; exact C.
Qed.

Lemma restart_mouth G : mouthOk (pacman (restart G)).
Proof. unfold mouthOk. simpl. split; [discriminate|]. split; [discriminate|]. auto. Qed.

Lemma step_mouth G e : mouthOk (pacman G) -> mouthOk (pacman (step G e)).
Proof.
  intro H. destruct e as [el|key|key|  |  |dir|vw vh]; simpl.
  - unfold gameLoop. destruct (GameState.current (state G)); try exact H.
    apply update_mouth. exact H.
  - unfold handleKeyDown.
    repeat match goal with
           | |- context [if ?b then _ else _] => destruct b
           end; try exact H.
    + unfold togglePause. simpl. destruct (GameState.current (state G)); exact H.
    + destruct (GameState.current (state G)); try exact H. apply restart_mouth.
  - unfold handleKeyUp.
    repeat match goal with
           | |- context [if ?b then _ else _] => destruct b
           end; exact H.
  - unfold togglePause. destruct (GameState.current (state G)); exact H.
  - apply restart_mouth.
  - exact H.
  - exact H.
Qed.

(** X21. The mouth animation.  In every state a game can reach the mouth
    opening lies between 0 and 1 and its direction is 1 or -1.  The
    [update] of class [PacmanCharacter] leaves the mouth alone while the
    character is not moving and otherwise yields an opening between 0 and
    1 whatever it started from; with the animation speed its constructor
    sets, it animates the mouth exactly as the game does on an accepted
    step.  [disablePowerMode] sets the configured speed however many
    times [enablePowerMode] was applied, each of which multiplies the speed
    by 1.2. *)
Theorem mouth_animation (G : PacmanGame) (p : PacmanCharacter.t) (q : Pacman.t)
    (gs : Q) (t : Tape) (evs : list Event) :
  mouthOk (pacman (run evs (newGame gs t))) /\
  (PacmanCharacter.isMoving p = false ->
     PacmanCharacter.mouthOpen (PacmanCharacter.update G p)
       = PacmanCharacter.mouthOpen p /\
     PacmanCharacter.mouthDirection (PacmanCharacter.update G p)
       = PacmanCharacter.mouthDirection p) /\
  (PacmanCharacter.isMoving p = true ->
     0 <= PacmanCharacter.mouthOpen (PacmanCharacter.update G p) /\
     PacmanCharacter.mouthOpen (PacmanCharacter.update G p) <= 1) /\
  (PacmanCharacter.isMoving p = true ->
   PacmanCharacter.animationSpeed p = (15 # 100) ->
   Pacman.mouthOpen q = PacmanCharacter.mouthOpen p ->
   Pacman.mouthDirection q = PacmanCharacter.mouthDirection p ->
     animateMouth q =
       (PacmanCharacter.mouthOpen (PacmanCharacter.update G p),
        PacmanCharacter.mouthDirection (PacmanCharacter.update G p))) /\
  (PacmanCharacter.speed
     (PacmanCharacter.disablePowerMode (PacmanCharacter.enablePowerMode p))
     = GAME_SPEED /\
   PacmanCharacter.speed
     (PacmanCharacter.enablePowerMode (PacmanCharacter.enablePowerMode p))
     == PacmanCharacter.speed p * (144 # 100)).
Proof.
  split; [|split; [|split; [|split]]].
  - unfold run.
    assert (H0 : mouthOk (pacman (newGame gs t))).
    { unfold mouthOk. simpl. split; [discriminate|]. split; [discriminate|]. auto. }
    revert H0. generalize (newGame gs t).
    induction evs as [|e evs IH]; intros X H0; simpl; [exact H0|].
    apply IH. apply step_mouth. exact H0.
  - intro E. unfold PacmanCharacter.update, PacmanCharacter.mouthStep.
    rewrite E. simpl. split; reflexivity.
  - intro E. unfold PacmanCharacter.update, PacmanCharacter.mouthStep.
    rewrite E.
    destruct (Qle_bool 1 _) eqn:E1; simpl; [split; discriminate|].
    destruct (Qle_bool _ 0) eqn:E2; simpl; [split; discriminate|].
    apply Qle_bool_gt in E1, E2. split; apply Qlt_le_weak; assumption.
  - intros E S A B. unfold PacmanCharacter.update, PacmanCharacter.mouthStep,
      animateMouth.
    rewrite E, S, A, B.
    destruct (Qle_bool 1 _); [reflexivity|].
    destruct (Qle_bool _ 0); reflexivity.
  - split; [reflexivity|]. simpl. ring.
Qed.

Lemma mouth_animation_witness :
  animateMouth (pacman sampleGame) = ((15 # 100), 1).
Proof.
  destruct (mouth_animation sampleGame
              (PacmanCharacter.mk 0 0 0 0 0 0 0 1 (15 # 100) 0 0 true 0)
              (pacman sampleGame) 19 (constTape (1 # 2)) [])
    as [_ [_ [_ [H _]]]].
  rewrite (H eq_refl eq_refl eq_refl eq_refl). vm_compute. reflexivity.
Defined.


(* ------------------------------------------------------------------ *)
(** * The target routines of [js/game.js] and [js/ghost.js] compared *)

Lemma sqrt_gt_comm d a b : sqrt_gt d (a * b) = sqrt_gt d (b * a).
Proof.
  apply eq_true_iff_eq. unfold sqrt_gt. rewrite !orb_true_iff, !Qltb_lt.
  assert (E : a * b == b * a) by ring.
  split; (intros [H|H]; [left|right]); nra.
Qed.

(** X22. Class [Ghost] and the game choose the same target.  For a
    class instance that stands for a pursuer of the game (same place, mode
    and personality, home corner by colour), a protagonist heading in
    0..3 and a pursuer that is not dead, [updateAI] of the class sets the
    target [getGhostTarget] of the game returns, drawing the same random
    numbers, in every case but the retreat of the patrol personality. *)
Theorem targets_agree (G : PacmanGame) (tp : Tape) (g : GhostAI.t)
    (ghost : Ghost.t) :
  standsFor G g ghost ->
  (Pacman.direction (pacman G) < 4)%nat ->
  Ghost.mode ghost <> dead ->
  ~ patrolRetreats G ghost ->
  samePoint (GhostAI.target (fst (GhostAI.updateAI G (pacman G) tp g)))
            (fst (getGhostTarget G tp ghost)) /\
  snd (GhostAI.updateAI G (pacman G) tp g) = snd (getGhostTarget G tp ghost).
Proof.
  intros [Hx [Hy [Hm [Hp Hh]]]] Hd Hdead Hr.
  unfold GhostAI.updateAI, getGhostTarget. rewrite Hm.
  destruct (Ghost.mode ghost) eqn:Em; try congruence.
  - (* scatter *)
    assert (E : GhostAI.homeCorner g = corners G (Ghost.name ghost)).
    { rewrite Hh. destruct (Ghost.name ghost); reflexivity. }
    destruct (Qltb 7 _); simpl; rewrite E; split; try reflexivity;
      split; reflexivity.
  - (* chase *)
    unfold GhostAI.updateChaseTarget. rewrite Hp.
    destruct (Ghost.personality ghost) eqn:Ep.
    + destruct (Qltb 20 _); simpl; split; try reflexivity; split; reflexivity.
    + assert (C : (Pacman.direction (pacman G) = 0 \/ Pacman.direction (pacman G) = 1 \/
                   Pacman.direction (pacman G) = 2 \/ Pacman.direction (pacman G) = 3)%nat)
        by lia.
      destruct (Qltb 20 _); simpl;
        (split; [|reflexivity]);
        destruct C as [C|[C|[C|C]]]; rewrite C; unfold samePoint; simpl;
        split; ring.
    + assert (F : sqrt_gt (dist2ToPacman G ghost) (8 * GRID_SIZE G) = true).
      { destruct (sqrt_gt _ _) eqn:E; [reflexivity|].
        exfalso. apply Hr. unfold patrolRetreats. auto. }
      rewrite Hx, Hy. fold (dist2ToPacman G ghost).
      rewrite (sqrt_gt_comm _ (GRID_SIZE G) 8), F.
      destruct (Qltb 20 _); simpl; split; try reflexivity; split; reflexivity.
    + unfold randomPoint, Math_random. simpl.
      destruct (Qltb (draws tp (cursor tp)) (7 # 10)); simpl;
        destruct (Qltb 20 _); simpl; split; try reflexivity; split; reflexivity.
  - (* frightened *)
    unfold randomPoint, Math_random. simpl. split; [|reflexivity].
    split; reflexivity.
Qed.

Lemma targets_agree_witness :
  samePoint
    (GhostAI.target
       (fst (GhostAI.updateAI sampleGame (pacman sampleGame) (constTape (1 # 2))
               classBlinky)))
    (fst (getGhostTarget sampleGame (constTape (1 # 2))
            (sampleGhost Blinky aggressive (266 # 1) (266 # 1) 0%nat scatter 160))).
Proof.
  refine (proj1 (targets_agree sampleGame (constTape (1 # 2)) classBlinky
                   (sampleGhost Blinky aggressive (266 # 1) (266 # 1) 0%nat scatter 160)
                   _ _ _ _)).
  - unfold standsFor. repeat split.
  - vm_compute. lia.
  - discriminate.
  - intros [H _]. discriminate.
Defined.

(* ------------------------------------------------------------------ *)
(** * Pellets and the power window *)

Lemma faithful_countRow : forall r r',
  Forall2 cellFaithful r r' -> (countRow r' <= countRow r)%Z.
Proof.
  induction 1 as [|o c r r' Hc _ IH]; simpl; [lia|].
  destruct Hc as [E|[E P]].
  - subst c. destruct (isPelletCode o); lia.
  - subst c. rewrite P. unfold EMPTY. simpl. lia.
Qed.

Lemma faithful_count m : mazeFaithful m -> (pelletCount m <= pelletCount createDefaultMap)%Z.
Proof.
  unfold mazeFaithful. generalize createDefaultMap.
  intros t F. induction F as [|r r' t m Hr _ IH]; simpl; [lia|].
  pose proof (faithful_countRow _ _ Hr). lia.
Qed.

Lemma countRow_pos : forall row, (0 < countRow row)%Z ->
  exists i c, nth_error row i = Some c /\ isPelletCode c = true.
Proof.
  induction row as [|c row IH]; simpl; [lia|]. intro H.
  destruct (isPelletCode c) eqn:E.
  - exists 0%nat, c. split; [reflexivity|exact E].
  - destruct (IH H) as [i [c' [A B]]]. exists (S i), c'. split; assumption.
Qed.

Lemma pelletCount_pos : forall m, (0 < pelletCount m)%Z ->
  exists gx gy c, cellAt m gx gy = Some c /\ isPelletCode c = true.
Proof.
  assert (K : forall m, (0 < pelletCount m)%Z ->
            exists j row, nth_error m j = Some row /\ (0 < countRow row)%Z).
  { induction m as [|row m IH]; simpl; [lia|]. intro H.
    destruct (Z.lt_ge_cases 0 (countRow row)) as [L|L].
    - exists 0%nat, row. split; [reflexivity|exact L].
    - pose proof (countRow_nonneg row).
      destruct IH as [j [r [A B]]]; [lia|]. exists (S j), r. split; assumption. }
  intros m H. destruct (K m H) as [j [row [A B]]].
  destruct (countRow_pos row B) as [i [c [C D]]].
  exists (Z.of_nat i), (Z.of_nat j), c. split; [|exact D].
  unfold cellAt.
  replace ((0 <=? Z.of_nat j)%Z && (0 <=? Z.of_nat i)%Z) with true
    by (symmetry; apply andb_true_iff; split; apply Z.leb_le; lia).
  rewrite !Nat2Z.id, A. exact C.
Qed.

Lemma template_has_pellets : (0 < pelletCount createDefaultMap)%Z.
Proof. vm_compute. reflexivity. Qed.

Lemma update_live dt G : (0 < GameState.pelletsRemaining (state (update dt G)))%Z.
Proof.
  unfold update.
  destruct (_ <=? 0)%Z eqn:E.
  - simpl. apply template_has_pellets.
  - apply Z.leb_gt in E. exact E.
Qed.

Lemma step_live G e :
  (0 < GameState.pelletsRemaining (state G))%Z ->
  (0 < GameState.pelletsRemaining (state (step G e)))%Z.
Proof.
  intro H. destruct e as [el|key|key|  |  |dir|vw vh]; simpl.
  - unfold gameLoop. destruct (GameState.current (state G)); try exact H.
    apply update_live.
  - unfold handleKeyDown.
    repeat match goal with
           | |- context [if ?b then _ else _] => destruct b
           end; try exact H.
    + unfold togglePause. simpl. destruct (GameState.current (state G)); exact H.
    + destruct (GameState.current (state G)); try exact H.
      simpl. apply template_has_pellets.
  - unfold handleKeyUp.
    repeat match goal with
           | |- context [if ?b then _ else _] => destruct b
           end; exact H.
  - unfold togglePause. destruct (GameState.current (state G)); exact H.
  - simpl. apply template_has_pellets.
  - exact H.
  - exact H.
Qed.

(** X23. The pellets never run out.  In every state a game can reach
    the pellet counter is positive, equals the number of pellets and power
    pellets in the maze, and is at most the count of the template; so the
    maze always holds a pellet: the tick that eats the last one already
    ends on the rebuilt maze of the next level. *)
Theorem pellets_never_run_out (gs : Q) (t : Tape) (evs : list Event) :
  let R := run evs (newGame gs t) in
  (0 < GameState.pelletsRemaining (state R))%Z /\
  GameState.pelletsRemaining (state R) = pelletCount (gameMap R) /\
  (pelletCount (gameMap R) <= pelletCount createDefaultMap)%Z /\
  (exists gx gy, cellAt (gameMap R) gx gy = Some PELLET \/
                 cellAt (gameMap R) gx gy = Some POWER_PELLET).
Proof.
  intro R.
  assert (L : (0 < GameState.pelletsRemaining (state R))%Z).
  { unfold R, run.
    assert (H0 : (0 < GameState.pelletsRemaining (state (newGame gs t)))%Z)
      by (simpl; apply template_has_pellets).
    revert H0. generalize (newGame gs t).
    induction evs as [|e evs IH]; intros X H0; simpl; [exact H0|].
    apply IH. apply step_live. exact H0. }
  assert (T : pelletsTracked R) by (apply run_tracked; apply newGame_tracked).
  assert (F : mazeFaithful (gameMap R))
    by (apply run_faithful; apply mazeFaithful_template).
  split; [exact L|]. split; [exact T|]. split; [apply faithful_count; exact F|].
  rewrite T in L. destruct (pelletCount_pos _ L) as [gx [gy [c [A B]]]].
  exists gx, gy. rewrite A. apply isPelletCode_spec in B.
  destruct B as [B|B]; subst c; auto.
Qed.

Lemma collideGhost_power i G : powerOf (state (collideGhost i G)) = powerOf (state G).
Proof.
  unfold collideGhost.
  destruct (nth_error (ghosts G) i) as [ghost|]; [|reflexivity].
  destruct (inContact G ghost); [|reflexivity].
  destruct (GameState.powerPelletActive (state G)); reflexivity.
Qed.

Lemma collideFold_power : forall l G,
  powerOf (state (fold_left (fun acc index => collideGhost index acc) l G))
    = powerOf (state G).
Proof.
  induction l as [|i l IH]; intro G; simpl; [reflexivity|].
  rewrite IH. apply collideGhost_power.
Qed.

Lemma collectPellet_power G :
  powerOf (state (collectPellet G)) = powerOf (state G) \/
  powerOf (state (collectPellet G)) = (true, 8).
Proof.
  unfold collectPellet. destruct (pacmanCell G) as [gx gy].
  destruct (cellAt (gameMap G) gx gy) as [c|]; [|left; reflexivity].
  destruct (c =? 2)%Z; [left; reflexivity|].
  destruct (c =? 3)%Z; [right; reflexivity|left; reflexivity].
Qed.

Lemma update_power dt G :
  powerOf (state (update dt G)) = powerOf (state (powerTimerStep dt G)) \/
  powerOf (state (update dt G)) = (true, 8).
Proof.
  assert (E : powerOf (state (update dt G))
              = powerOf (state (checkCollisions (beforeCollisions dt G)))).
  { unfold update. fold (beforeCollisions dt G).
    destruct (_ <=? 0)%Z; reflexivity. }
  rewrite E. unfold checkCollisions, ghostCollisions. rewrite collideFold_power.
  destruct (collectPellet_power (beforeCollisions dt G)) as [A|A]; rewrite A;
    [left|right; reflexivity].
  unfold beforeCollisions.
  assert (Es : state (updateGhosts dt (updatePacman dt G)) = state G)
    by (rewrite updateGhosts_state, updatePacman_state; reflexivity).
  unfold powerOf, powerTimerStep. rewrite Es.
  destruct (GameState.powerPelletActive (state G)); [|rewrite Es; reflexivity].
  destruct (Qle_bool _ 0); reflexivity.
Qed.

Lemma update_power_cases dt G :
  let s := state G in
  let s' := state (update dt G) in
  powerOf s' = (true, 8) \/
  (GameState.powerPelletActive s = false /\ powerOf s' = powerOf s) \/
  (GameState.powerPelletActive s = true /\
   GameState.powerPelletTimer s - dt <= 0 /\
   powerOf s' = (false, GameState.powerPelletTimer s - dt)) \/
  (GameState.powerPelletActive s = true /\
   0 < GameState.powerPelletTimer s - dt /\
   powerOf s' = (true, GameState.powerPelletTimer s - dt)).
Proof.
  intros s s'. unfold s'.
  destruct (update_power dt G) as [U|U]; [|left; exact U]. right. rewrite U.
  unfold powerTimerStep. fold s.
  destruct (GameState.powerPelletActive s) eqn:A; [|left; auto].
  destruct (Qle_bool _ 0) eqn:E; right.
  - left. apply Qle_bool_iff in E. auto.
  - right. apply Qle_bool_gt in E. auto.
Qed.

Lemma gameLoop_cases elapsed G :
  gameLoop elapsed G = G \/
  exists dt, dt <= 1 # 30 /\ (0 <= elapsed -> 0 <= dt) /\
             gameLoop elapsed G = update dt G.
Proof.
  unfold gameLoop.
  destruct (GameState.current (state G)); auto. right.
  destruct (Qle_bool elapsed MAX_DELTA_TIME) eqn:E.
  - exists elapsed. apply Qle_bool_iff in E. split; [exact E|]. split; auto.
  - exists MAX_DELTA_TIME. split; [apply Qle_refl|]. split; [|reflexivity].
    intros _. discriminate.
Qed.

Lemma step_power_cases G e :
  powerOf (state (step G e)) = powerOf (state G) \/
  powerOf (state (step G e)) = (false, 0) \/
  exists el dt, e = Frame el /\ dt <= 1 # 30 /\ (0 <= el -> 0 <= dt) /\
                step G e = update dt G.
Proof.
  destruct e as [el|key|key|  |  |dir|vw vh]; simpl.
  - destruct (gameLoop_cases el G) as [E|[dt [A [B E]]]].
    + left. rewrite E. reflexivity.
    + right. right. exists el, dt. auto.
  - unfold handleKeyDown.
    repeat match goal with
           | |- context [if ?b then _ else _] => destruct b
           end; try (left; reflexivity).
    + left. unfold togglePause. simpl.
      destruct (GameState.current (state G)); reflexivity.
    + destruct (GameState.current (state G)); try (left; reflexivity).
      right. left. reflexivity.
  - left. unfold handleKeyUp.
    repeat match goal with
           | |- context [if ?b then _ else _] => destruct b
           end; reflexivity.
  - left. unfold togglePause. destruct (GameState.current (state G)); reflexivity.
  - right. left. reflexivity.
  - left. reflexivity.
  - left. reflexivity.
Qed.

Lemma run_power : forall evs G,
  powerOk (state G) -> powerOk (state (run evs G)).
Proof.
  unfold run. induction evs as [|e evs IH]; intros G H; simpl; [exact H|].
  apply IH. unfold powerOk in *.
  destruct (step_power_cases G e) as [E|[E|[el [dt [_ [_ [_ E]]]]]]].
  - unfold powerOf in E. apply pair_equal_spec in E. destruct E as [E1 E2]. rewrite E1, E2. exact H.
  - unfold powerOf in E. apply pair_equal_spec in E. destruct E as [E1 E2]. rewrite E1. discriminate.
  - rewrite E.
    destruct (update_power_cases dt G) as [U|[[A U]|[[A [B U]]|[A [B U]]]]];
      unfold powerOf in U; apply pair_equal_spec in U; destruct U as [U1 U2]; rewrite U1, U2.
    + intros _. reflexivity.
    + rewrite A. discriminate.
    + discriminate.
    + intros _. exact B.
Qed.

Lemma run_power_bound : forall evs G,
  nonnegFrames evs ->
  (GameState.powerPelletActive (state G) = true ->
   0 < GameState.powerPelletTimer (state G) /\ GameState.powerPelletTimer (state G) <= 8) ->
  GameState.powerPelletActive (state (run evs G)) = true ->
  GameState.powerPelletTimer (state (run evs G)) <= 8.
Proof.
  unfold run. induction evs as [|e evs IH]; intros G N H; simpl;
    [intro A; apply H; exact A|].
  inversion N as [|? ? Ne Nrest]; subst.
  apply IH; [exact Nrest|].
  destruct (step_power_cases G e) as [E|[E|[el [dt [Ee [_ [Pd E]]]]]]].
  - unfold powerOf in E. apply pair_equal_spec in E. destruct E as [E1 E2]. rewrite E1, E2. exact H.
  - unfold powerOf in E. apply pair_equal_spec in E. destruct E as [E1 E2]. rewrite E1. discriminate.
  - rewrite E. subst e. specialize (Pd Ne).
    destruct (update_power_cases dt G) as [U|[[A U]|[[A [B U]]|[A [B U]]]]];
      unfold powerOf in U; apply pair_equal_spec in U; destruct U as [U1 U2]; rewrite U1, U2.
    + intros _. split; [reflexivity|discriminate].
    + rewrite A. discriminate.
    + discriminate.
    + intros _. split; [exact B|]. destruct (H A) as [_ H8]. lra.
Qed.

Lemma frames_keep_power : forall (fs : list Q) G,
  GameState.powerPelletActive (state G) = true ->
  (List.length fs < 240)%nat ->
  inject_Z (Z.of_nat (List.length fs)) * (1 # 30) < GameState.powerPelletTimer (state G) ->
  GameState.powerPelletActive (state (run (map Frame fs) G)) = true.
Proof.
  unfold run. induction fs as [|f fs IH]; intros G A L T; simpl; [exact A|].
  simpl List.length in L, T.
  assert (T' : inject_Z (Z.of_nat (List.length fs)) * (1 # 30) + (1 # 30)
               < GameState.powerPelletTimer (state G)).
  { rewrite Nat2Z.inj_succ in T. unfold Z.succ in T. rewrite inject_Z_plus in T.
    change (inject_Z 1) with 1 in T. lra. }
  assert (B : inject_Z (Z.of_nat (List.length fs)) * (1 # 30) < 8).
  { assert (K : inject_Z (Z.of_nat (List.length fs)) < inject_Z 240)
      by (rewrite <- Zlt_Qlt; lia).
    change (inject_Z 240) with (240 # 1) in K. lra. }
  assert (P : 0 <= inject_Z (Z.of_nat (List.length fs)) * (1 # 30)).
  { assert (K : inject_Z 0 <= inject_Z (Z.of_nat (List.length fs)))
      by (rewrite <- Zle_Qle; lia).
    change (inject_Z 0) with 0 in K. lra. }
  apply IH; [| lia |].
  - destruct (gameLoop_cases f G) as [E|[dt [D [_ E]]]]; rewrite E; [exact A|].
    destruct (update_power_cases dt G) as [U|[[A' U]|[[A' [C U]]|[A' [C U]]]]];
      unfold powerOf in U; apply pair_equal_spec in U; destruct U as [U1 U2]; rewrite U1.
    + reflexivity.
    + congruence.
    + exfalso. lra.
    + reflexivity.
  - destruct (gameLoop_cases f G) as [E|[dt [D [_ E]]]]; rewrite E; [lra|].
    destruct (update_power_cases dt G) as [U|[[A' U]|[[A' [C U]]|[A' [C U]]]]];
      unfold powerOf in U; apply pair_equal_spec in U; destruct U as [U1 U2]; rewrite U2.
    + exact B.
    + congruence.
    + exfalso. lra.
    + lra.
Qed.

(** X24. The power window.  In every state a game can reach an open
    power window has time left, and no more than 8 seconds if no frame
    reported a negative elapsed time.  Since no frame advances the game by
    more than a thirtieth of a second, a window with [n] thirtieths of a
    second left stays open over any [n] frames or fewer, whatever they
    report and whatever happens in them: a fresh window of 8 seconds
    covers any 239 frames. *)
Theorem power_window (gs : Q) (t : Tape) (evs : list Event) (G : PacmanGame)
    (fs : list Q) :
  let R := run evs (newGame gs t) in
  powerOk (state R) /\
  (nonnegFrames evs -> GameState.powerPelletActive (state R) = true ->
     GameState.powerPelletTimer (state R) <= 8) /\
  (GameState.powerPelletActive (state G) = true ->
   (List.length fs < 240)%nat ->
   inject_Z (Z.of_nat (List.length fs)) * (1 # 30)
     < GameState.powerPelletTimer (state G) ->
   GameState.powerPelletActive (state (run (map Frame fs) G)) = true).
Proof.
  intro R.
  split; [|split].
  - apply run_power. unfold powerOk. simpl. discriminate.
  - intros N. apply run_power_bound; [exact N|]. simpl. discriminate.
  - apply frames_keep_power.
Qed.

Lemma power_window_witness :
  GameState.powerPelletActive
    (state (run (map Frame [1 # 60; 5; 1 # 30]) (collectPellet onPowerPellet))) = true.
Proof.
  refine (proj2 (proj2 (power_window 19 (constTape (1 # 2)) []
                          (collectPellet onPowerPellet) [1 # 60; 5; 1 # 30])) _ _ _).
  - reflexivity.
  - simpl. lia.
  - vm_compute. reflexivity.
Defined.


(* ------------------------------------------------------------------ *)
(** * The power pellet within a tick *)
















